(** * mport: version algebra, metadata store, installer and upgrade planner

    A shallow embedding of the parts of libmport and of the mport front end
    that the specification's properties talk about:

    - [Version]  : libmport/version_cmp.c
    - [Store]    : libmport/pkgmeta.c (the queries that return package vectors)
    - [Installer]: src/unnamed/part_005 (the three install phases) and
                   libmport/update_primative.c
    - [Planner]  : src/unnamed/part_002 ([mport_upgrade], [mport_update_down])
                   and libmport/default_cbs.c ([mport_autoremove])
    - [Cli]      : the front end stored as src/cmake/FindDispatch.cmake
                   ([main]'s exit status)

    C strings are lists of bytes ([ascii]) ending at the first NUL; 32-bit
    [int] and 64-bit [long] values are [Z] with their wrap-around and
    clamping written out (the amd64 target of the project: LP64, [char]
    signed). *)

From Equations Require Import Equations.
From Stdlib Require Import String Ascii ZArith List Bool Arith Lia.
From Stdlib Require Import Sorted Permutation.
From Stdlib Require OrderedTypeEx.
Import ListNotations.

(** ** Result codes of libmport (mport.h) *)

Definition MPORT_OK : Z := 0.
Definition MPORT_ERR_FATAL : Z := 1.
Definition MPORT_ERR_WARN : Z := 2.

(** A C computation returns a value, or has undefined behaviour (here: it
    reads memory outside the object a pointer points into, it dereferences
    NULL, or it reads an uninitialised variable), or never returns. *)
Inductive run (A : Type) : Type :=
| Done (a : A)
| Undefined
| Diverges.
Arguments Done {A} a.
Arguments Undefined {A}.
Arguments Diverges {A}.

Definition run_map {A B} (f : A -> B) (r : run A) : run B :=
  match r with
  | Done a => Done (f a)
  | Undefined => Undefined
  | Diverges => Diverges
  end.

Definition run_bind {A B} (r : run A) (k : A -> run B) : run B :=
  match r with
  | Done a => k a
  | Undefined => Undefined
  | Diverges => Diverges
  end.

(** ** libmport/version_cmp.c *)
Module Version.

Open Scope Z_scope.

(** *** Bytes and C strings *)

Definition NUL : ascii := "000"%char.

Definition is_nul (c : ascii) : bool := Ascii.eqb c NUL.

(** [(int) c] for a [char] [c]: [char] is signed on the target. *)
Definition char_to_int (c : ascii) : Z :=
  let n := Z.of_N (N_of_ascii c) in
  if n <? 128 then n else n - 256.

(** [isdigit] in the C locale. *)
Definition isdigit (c : ascii) : bool :=
  let n := Z.of_N (N_of_ascii c) in
  (48 <=? n) && (n <=? 57).

(** [isspace] in the C locale: space, \t, \n, \v, \f, \r. *)
Definition isspace (c : ascii) : bool :=
  let n := Z.of_N (N_of_ascii c) in
  (n =? 32) || ((9 <=? n) && (n <=? 13)).

Definition digit_value (c : ascii) : Z := Z.of_N (N_of_ascii c) - 48.

(** The bytes of a C string: what precedes the first NUL. *)
Fixpoint cstr (s : list ascii) : list ascii :=
  match s with
  | [] => []
  | c :: s' => if is_nul c then [] else c :: cstr s'
  end.

(** [strdup]: a fresh allocation holding the string and its terminator. *)
Definition strdup (s : list ascii) : list ascii := cstr s ++ [NUL].

(** [rindex(s, c)] for [c <> NUL]: the index of the last occurrence of [c]
    in the C string [s], [None] for a NULL result. *)
Fixpoint rindex (s : list ascii) (c : ascii) : option nat :=
  match s with
  | [] => None
  | x :: s' =>
      if is_nul x then None
      else match rindex s' c with
           | Some i => Some (S i)
           | None => if Ascii.eqb x c then Some O else None
           end
  end.

(** [s[i] = '\0'] *)
Fixpoint poke_nul (i : nat) (s : list ascii) : list ascii :=
  match s, i with
  | [], _ => []
  | _ :: s', O => NUL :: s'
  | x :: s', S i' => x :: poke_nul i' s'
  end.

Definition poke_opt (p : option nat) (s : list ascii) : list ascii :=
  match p with
  | Some i => poke_nul i s
  | None => s
  end.

(** *** Integers *)

Definition LONG_MAX : Z := 2 ^ 63 - 1.
Definition LONG_MIN : Z := - 2 ^ 63.

(** [(int) x] for a [long] [x]: reduction modulo 2^32 into the signed range. *)
Definition to_int (x : Z) : Z := (x + 2 ^ 31) mod 2 ^ 32 - 2 ^ 31.

Definition clamp_long (x : Z) : Z :=
  if x <? LONG_MIN then LONG_MIN
  else if LONG_MAX <? x then LONG_MAX
  else x.

(** The digit run of [strtol]: the accumulated value and the rest. *)
Fixpoint strtol_digits (acc : Z) (s : list ascii) : Z * list ascii :=
  match s with
  | c :: s' =>
      if isdigit c then strtol_digits (10 * acc + digit_value c) s'
      else (acc, s)
  | [] => (acc, [])
  end.

Fixpoint skip_space (s : list ascii) : list ascii :=
  match s with
  | c :: s' => if isspace c then skip_space s' else s
  | [] => []
  end.

(** [strtol(nptr, &endptr, 10)]: white space, an optional sign, a digit
    run; the value is clamped to the range of [long]; without a digit the
    value is 0 and [endptr = nptr]. *)
Definition strtol (nptr : list ascii) : Z * list ascii :=
  let s := skip_space nptr in
  let '(neg, s1) :=
    match s with
    | c :: s' =>
        if Ascii.eqb c "-"%char then (true, s')
        else if Ascii.eqb c "+"%char then (false, s')
        else (false, s)
    | [] => (false, s)
    end in
  match s1 with
  | c :: _ =>
      if isdigit c then
        let '(v, rest) := strtol_digits 0 s1 in
        (clamp_long (if neg then - v else v), rest)
      else (0, nptr)
  | [] => (0, nptr)
  end.

(** *** parse_version *)

Record version : Type := mkVersion {
  v_version : list ascii;   (* char *version: the allocation *)
  v_revision : Z;
  v_epoch : Z
}.

Definition parse_version (input : list ascii) : version :=
  let s := strdup input in
  let underscore := rindex s "_"%char in
  let comma := rindex s ","%char in
  let lessthan := rindex s "<"%char in
  let greaterthan := rindex s ">"%char in
  let s := poke_opt lessthan s in
  let s := poke_opt greaterthan s in
  let '(epoch, s) :=
    match comma with
    | None => (0, s)
    | Some i =>
        let s := poke_nul i s in
        (to_int (fst (strtol (skipn (S i) s))), s)
    end in
  let '(revision, s) :=
    match underscore with
    | None => (0, s)
    | Some i =>
        let s := poke_nul i s in
        (to_int (fst (strtol (skipn (S i) s))), s)
    end in
  mkVersion s revision epoch.

(** *** cmp_ints *)

Definition cmp_ints (a b : Z) : Z :=
  if a =? b then 0
  else if a <? b then -1
  else 1.

(** *** cmp_versions *)

(** A pointer that only moves forward through an allocation is the list of
    the bytes from the pointer to the end of the allocation; at [[]] it
    points one past the end and must not be dereferenced. *)

(** The inner loop that advances [a] over every '.' and '+'. *)
Fixpoint skip_seps (a : list ascii) : list ascii :=
  match a with
  | c :: a' =>
      if Ascii.eqb c "."%char || Ascii.eqb c "+"%char then skip_seps a'
      else a
  | [] => []
  end.

(** One side of the loop body: the sub-version number read at [a] and the
    advanced pointer.  At a NUL the number is 0 and the pointer stays;
    otherwise the separators are skipped, then a digit starts a [strtol]
    run (converted to [int]) and any other byte, the terminator included,
    is taken as its character code and stepped over. *)
Definition next_sub (a : list ascii) : run (Z * list ascii) :=
  match a with
  | [] => Undefined
  | c :: _ =>
      if is_nul c then Done (0, a)
      else
        match skip_seps a with
        | [] => Undefined
        | d :: rest =>
            if isdigit d then
              let '(v, a') := strtol (d :: rest) in Done (to_int v, a')
            else Done (char_to_int d, rest)
        end
  end.

(** The loop condition: the byte at [a] or the byte at [b] is non-zero
    (the byte at [b] is not read when the byte at [a] is non-zero). *)
Definition loop_cond (a b : list ascii) : run bool :=
  match a with
  | [] => Undefined
  | ca :: _ =>
      if negb (is_nul ca) then Done true
      else match b with
           | [] => Undefined
           | cb :: _ => Done (negb (is_nul cb))
           end
  end.

(** The pointers only move forward. *)
Lemma strtol_digits_length (s : list ascii) (acc : Z) :
  (length (snd (strtol_digits acc s)) <= length s)%nat.
Proof.
  revert acc; induction s as [|c s IH]; intros acc; cbn [strtol_digits].
  - simpl; lia.
  - destruct (isdigit c).
    + etransitivity; [apply IH | simpl; lia].
    + simpl; lia.
Qed.

Lemma isdigit_not_space (c : ascii) : isdigit c = true -> isspace c = false.
Proof.
  unfold isdigit, isspace; intros H.
  apply andb_true_iff in H; destruct H as [H1 H2].
  apply Z.leb_le in H1.
  apply orb_false_iff; split; [apply Z.eqb_neq; lia|].
  apply andb_false_iff; right; apply Z.leb_gt; lia.
Qed.

Lemma isdigit_not_sign (c : ascii) :
  isdigit c = true -> Ascii.eqb c "-"%char = false /\ Ascii.eqb c "+"%char = false.
Proof.
  intros H; split; apply Ascii.eqb_neq; intros ->; discriminate H.
Qed.

(** At a digit, [strtol] is the clamped digit run. *)
Lemma strtol_at_digit (d : ascii) (rest : list ascii) :
  isdigit d = true ->
  strtol (d :: rest) =
  (clamp_long (fst (strtol_digits 0 (d :: rest))), snd (strtol_digits 0 (d :: rest))).
Proof.
  intros Hd; unfold strtol.
  cbn [skip_space]; rewrite (isdigit_not_space _ Hd).
  destruct (isdigit_not_sign _ Hd) as [-> ->].
  rewrite Hd. destruct (strtol_digits 0 (d :: rest)); reflexivity.
Qed.

Lemma skip_seps_length (a : list ascii) : (length (skip_seps a) <= length a)%nat.
Proof.
  induction a as [|c a IH]; simpl; [lia|].
  destruct (Ascii.eqb c "."%char || Ascii.eqb c "+"%char); simpl; lia.
Qed.

Lemma next_sub_length (a a' : list ascii) (v : Z) :
  next_sub a = Done (v, a') ->
  (length a' <= length a)%nat /\
  (forall c r, a = c :: r -> is_nul c = false -> (length a' < length a)%nat).
Proof.
  unfold next_sub; destruct a as [|c r]; [discriminate|].
  destruct (is_nul c) eqn:Hc.
  - intros H; injection H as <- <-; split; [lia|].
    intros c' r' E; injection E as <- <-; congruence.
  - pose proof (skip_seps_length (c :: r)) as Hs.
    destruct (skip_seps (c :: r)) as [|d rest] eqn:E; [discriminate|].
    destruct (isdigit d) eqn:Hd.
    + rewrite (strtol_at_digit d rest Hd).
      pose proof (strtol_digits_length rest (10 * 0 + digit_value d)) as Hl.
      cbn [strtol_digits]; rewrite Hd.
      intros H; injection H as <- <-.
      simpl in *; split; [lia|intros; lia].
    + intros H; injection H as <- <-.
      simpl in *; split; [lia|intros; lia].
Qed.

Lemma loop_cond_true (a b : list ascii) :
  loop_cond a b = Done true ->
  (exists c r, a = c :: r /\ is_nul c = false) \/
  (exists c r, b = c :: r /\ is_nul c = false).
Proof.
  unfold loop_cond; destruct a as [|ca ra]; [discriminate|].
  destruct (is_nul ca) eqn:Ha; simpl.
  - destruct b as [|cb rb]; [discriminate|].
    destruct (is_nul cb) eqn:Hb; simpl; [discriminate|].
    intros _; right; eauto.
  - intros _; left; eauto.
Qed.

Definition inspect {A} (x : A) : {y : A | x = y} := exist _ x eq_refl.

(** The loop of [cmp_versions]; [result] is the C variable of that name
    (0 on entry); the function returns it when the loop ends. *)
Equations? cmp_versions_loop (a b : list ascii) (result : Z) : run Z
  by wf (length a + length b)%nat lt :=
  cmp_versions_loop a b result with inspect (loop_cond a b) := {
    | exist _ Undefined _ => Undefined
    | exist _ Diverges _ => Diverges
    | exist _ (Done false) _ => Done result
    | exist _ (Done true) Hc with inspect (next_sub a) := {
        | exist _ Undefined _ => Undefined
        | exist _ Diverges _ => Diverges
        | exist _ (Done (a_sub, a')) Ha with inspect (next_sub b) := {
            | exist _ Undefined _ => Undefined
            | exist _ Diverges _ => Diverges
            | exist _ (Done (b_sub, b')) Hb =>
                if cmp_ints a_sub b_sub =? 0
                then cmp_versions_loop a' b' (cmp_ints a_sub b_sub)
                else Done (cmp_ints a_sub b_sub) } } }.
Proof.
  destruct (next_sub_length _ _ _ Ha) as [La Sa].
  destruct (next_sub_length _ _ _ Hb) as [Lb Sb].
  destruct (loop_cond_true _ _ Hc) as [(c & r & E & N)|(c & r & E & N)].
  - specialize (Sa _ _ E N); lia.
  - specialize (Sb _ _ E N); lia.
Qed.

Definition cmp_versions (a b : list ascii) : run Z := cmp_versions_loop a b 0.

(** *** mport_version_cmp *)

Definition mport_version_cmp_bytes (astr bstr : list ascii) : run Z :=
  let a := parse_version astr in
  let b := parse_version bstr in
  let result := cmp_ints (v_epoch a) (v_epoch b) in
  if result =? 0 then
    run_bind (cmp_versions (v_version a) (v_version b)) (fun result =>
      if result =? 0 then Done (cmp_ints (v_revision a) (v_revision b))
      else Done result)
  else Done result.

Definition mport_version_cmp (astr bstr : string) : run Z :=
  mport_version_cmp_bytes (list_ascii_of_string astr) (list_ascii_of_string bstr).

(** *** mport_version_require_check *)

(** [RETURN_ERROR] and [RETURN_ERRORX] (mport_private.h) record the message
    and return the error code they are given. *)
Definition RETURN_ERROR (code : Z) : run Z := Done code.

(** The two-cell position arrays [greater], [less] and [equal]: the first
    hit fills cell 0, every later hit overwrites cell 1. *)
Definition record_pos (cells : Z * Z) (i : Z) : Z * Z :=
  if fst cells =? -1 then (i, snd cells) else (fst cells, i).

Record positions : Type := mkPositions {
  greater : Z * Z;
  less : Z * Z;
  equal : Z * Z
}.

Fixpoint scan_require (i : Z) (require : list ascii) (p : positions) : positions :=
  match require with
  | [] => p
  | c :: rest =>
      scan_require (i + 1) rest
        (if Ascii.eqb c ">"%char then mkPositions (record_pos (greater p) i) (less p) (equal p)
         else if Ascii.eqb c "<"%char then mkPositions (greater p) (record_pos (less p) i) (equal p)
         else if Ascii.eqb c "="%char then mkPositions (greater p) (less p) (record_pos (equal p) i)
         else p)
  end.

(** [s[i]] and [&s[i]] for an index inside the allocation. *)
Definition load (s : list ascii) (i : Z) : run ascii :=
  if i <? 0 then Undefined
  else match nth_error s (Z.to_nat i) with
       | Some c => Done c
       | None => Undefined
       end.

Definition address (s : list ascii) (i : Z) : list ascii := skipn (Z.to_nat i) s.

Definition store_nul (s : list ascii) (i : Z) : list ascii := poke_nul (Z.to_nat i) s.

Notation "x <- r ;; k" := (run_bind r (fun x => k))
  (at level 61, r at next level, right associativity).

(** One bound of the multi branch: cut [s] at [pos], compare the baseline
    with what follows the operator, and give the new [s] with [ret]. *)
Definition check_bound (baseline s : list ascii) (pos : Z) (upper : bool)
  : run (list ascii * Z) :=
  let s := store_nul s pos in
  c <- load s (pos + 1) ;;
  if Ascii.eqb c "="%char then
    r <- mport_version_cmp_bytes baseline (address s (pos + 2)) ;;
    Done (s, if (if upper then r <=? 0 else r >=? 0) then 0 else -1)
  else
    r <- mport_version_cmp_bytes baseline (address s (pos + 1)) ;;
    Done (s, if (if upper then r <? 0 else r >? 0) then 0 else -1).

Definition mport_version_require_check_bytes (baseline require : list ascii) : run Z :=
  let require := strdup require in      (* the caller's string, with its terminator *)
  let version_size := Z.of_nat (length (cstr require)) in
  if version_size <? 2 then Done 1
  else
    let p := scan_require 0 (cstr require) (mkPositions (-1, -1) (-1, -1) (-1, -1)) in
    let '(g0, g1) := greater p in
    let '(l0, l1) := less p in
    let '(e0, e1) := equal p in
    if (g0 =? -1) && (l0 =? -1) && (e0 =? -1) then RETURN_ERROR MPORT_ERR_FATAL
    else
      let multi := (g1 >? -1) || (l1 >? -1) || (e1 >? -1) || ((g0 >? -1) && (l0 >? -1)) in
      if negb multi then
        r0 <- load require 0 ;;
        r1 <- load require 1 ;;
        if Ascii.eqb r0 "<"%char then
          if Ascii.eqb r1 "="%char then
            r <- mport_version_cmp_bytes baseline (address require 2) ;;
            Done (if r <=? 0 then 0 else -1)
          else
            r <- mport_version_cmp_bytes baseline (address require 1) ;;
            Done (if r <? 0 then 0 else -1)
        else if Ascii.eqb r0 ">"%char then
          if Ascii.eqb r1 "="%char then
            r <- mport_version_cmp_bytes baseline (address require 2) ;;
            Done (if r >=? 0 then 0 else -1)
          else
            r <- mport_version_cmp_bytes baseline (address require 1) ;;
            Done (if r >? 0 then 0 else -1)
        else RETURN_ERROR MPORT_ERR_FATAL
      else
        let s := strdup require in
        first <-
          (if l1 >? 0 then check_bound baseline s l1 true
           else if l0 >? g0 then check_bound baseline s l0 true
           else if g1 >? 0 then check_bound baseline s g1 false
           else if g0 >? l0 then check_bound baseline s g0 false
           else Done (s, 0)) ;;
        let '(s, ret) := first in
        if ret =? -1 then Done ret
        else if g0 >? 0 then
          let s := store_nul s g0 in
          r <- mport_version_cmp_bytes baseline (address s (g0 + 1)) ;;
          Done (if r >? 0 then 0 else -1)
        else if l0 >? 0 then
          let s := store_nul s l0 in
          r <- mport_version_cmp_bytes baseline (address s (l0 + 1)) ;;
          Done (if r <? 0 then 0 else -1)
        else Done ret.

Definition mport_version_require_check (baseline require : string) : run Z :=
  mport_version_require_check_bytes
    (list_ascii_of_string baseline) (list_ascii_of_string require).

End Version.

(** ** libmport/pkgmeta.c: the metadata store *)
Module Store.

Open Scope string_scope.
Open Scope Z_scope.

(** [enum _Automatic] and [enum _LockState] (mport.h). *)
Definition MPORT_EXPLICIT : Z := 0.
Definition MPORT_AUTOMATIC : Z := 1.
Definition MPORT_UNLOCKED : Z := 0.
Definition MPORT_LOCKED : Z := 1.

(** [mportPackageMeta] (mport.h), with the fields the planner and the
    installer read; the other text fields travel with the record in the
    same way. *)
Record mportPackageMeta : Type := mkMeta {
  name : string;
  version : string;
  origin : string;
  prefix : string;
  locked : Z;
  automatic : Z;
  install_date : Z
}.

(** The tables of the live database (and of a bundle's stub). *)
Record package_row : Type := mkRow {
  row_pkg : mportPackageMeta;
  row_status : string
}.

Record depends_row : Type := mkDepends {
  dep_pkg : string;
  depend_pkgname : string;
  depend_pkgversion : string;
  depend_port : string
}.

Record category_row : Type := mkCategory {
  cat_pkg : string;
  category : string
}.

Record conflict_row : Type := mkConflict {
  con_pkg : string;
  conflict_pkg : string;
  conflict_version : string
}.

(** [enum _AssetListEntryType] (mport.h) *)
Inductive mportAssetListEntryType : Type :=
| ASSET_INVALID | ASSET_FILE | ASSET_CWD | ASSET_CHMOD | ASSET_CHOWN | ASSET_CHGRP
| ASSET_COMMENT | ASSET_IGNORE | ASSET_NAME | ASSET_EXEC | ASSET_UNEXEC
| ASSET_SRC | ASSET_DISPLY | ASSET_PKGDEP | ASSET_CONFLICTS | ASSET_MTREE
| ASSET_DIRRM | ASSET_DIRRMTRY | ASSET_IGNORE_INST | ASSET_OPTION | ASSET_ORIGIN
| ASSET_DEPORIGIN | ASSET_NOINST | ASSET_DISPLAY | ASSET_DIR
| ASSET_SAMPLE | ASSET_SHELL
| ASSET_PREEXEC | ASSET_PREUNEXEC | ASSET_POSTEXEC | ASSET_POSTUNEXEC
| ASSET_FILE_OWNER_MODE | ASSET_DIR_OWNER_MODE
| ASSET_SAMPLE_OWNER_MODE | ASSET_LDCONFIG | ASSET_LDCONFIG_LINUX
| ASSET_RMEMPTY | ASSET_GLIB_SCHEMAS | ASSET_KLD | ASSET_DESKTOP_FILE_UTILS
| ASSET_INFO | ASSET_TOUCH.

Record asset_row : Type := mkAsset {
  asset_pkg : string;
  asset_type : mportAssetListEntryType;
  asset_data : option string;
  asset_checksum : option string;
  asset_owner : option string;
  asset_grp : option string;
  asset_mode : option string
}.

Record tables : Type := mkTables {
  packages : list package_row;
  depends : list depends_row;
  categories : list category_row;
  conflicts : list conflict_row;
  assets : list asset_row
}.

(** A [mportPackageMeta **] out-parameter after a call: [None] is NULL,
    [Some l] a vector holding the records of [l] and then the NULL
    sentinel. *)
Definition vec : Type := option (list mportPackageMeta).

(** [sqlite3_column_int]: the low 32 bits of the 64-bit integer of the
    column, as an [int]. *)
Definition sqlite3_column_int (v : Z) : Z := (v + 2 ^ 31) mod 2 ^ 32 - 2 ^ 31.

(** One row of a SELECT over [packages], with the columns whose values
    reach the model's record; a text column may hold NULL ([None]). *)
Record stmt_row : Type := mkStmtRow {
  col_pkg : option string;
  col_version : option string;
  col_origin : option string;
  col_lang : option string;
  col_prefix : option string;
  col_locked : Z;
  col_automatic : Z;
  col_install_date : Z
}.

(** [populate_meta_from_stmt]: [None] is RETURN_ERROR(MPORT_ERR_FATAL),
    taken when [pkg], [version], [origin], [lang] or [prefix] is NULL.
    [locked] and [automatic] are [int] fields that the installer writes as
    the literal 0 and with [%d], so their columns hold an [int] and are
    returned as they are; [install_date] is a [time_t] written with [%ld]
    and is read with [sqlite3_column_int], which keeps its low 32 bits. *)
Definition populate_meta_from_stmt (stmt : stmt_row) : option mportPackageMeta :=
  match col_pkg stmt with
  | None => None
  | Some pkg =>
  match col_version stmt with
  | None => None
  | Some version =>
  match col_origin stmt with
  | None => None
  | Some origin =>
  match col_lang stmt with
  | None => None
  | Some _ =>
  match col_prefix stmt with
  | None => None
  | Some prefix =>
      Some (mkMeta pkg version origin prefix (col_locked stmt) (col_automatic stmt)
                   (sqlite3_column_int (col_install_date stmt)))
  end end end end end.

(** The loop of [populate_vec_from_stmt] with [cells] cells left in the
    vector: each row is written to the next cell, the sentinel after the
    last one; a row that [populate_meta_from_stmt] refuses ends the loop
    with MPORT_ERR_FATAL (its cell holds a record that is not filled and
    is left out of the list). *)
Fixpoint populate_cells (cells : Z) (rows : list stmt_row)
  : run (Z * list mportPackageMeta) :=
  if cells <=? 0 then Undefined
  else
    match rows with
    | [] => Done (MPORT_OK, [])
    | stmt :: rest =>
        match populate_meta_from_stmt stmt with
        | None => Done (MPORT_ERR_FATAL, [])
        | Some pack =>
            run_map (fun r => (fst r, pack :: snd r)) (populate_cells (cells - 1) rest)
        end
    end.

(** [populate_vec_from_stmt]: [calloc(1 + len)] cells. *)
Definition populate_vec_from_stmt (len : Z) (rows : list stmt_row)
  : run (Z * vec) :=
  run_map (fun r => (fst r, Some (snd r))) (populate_cells (1 + len) rows).

(** The columns a SELECT yields for a stored row.  The tables of the
    model hold a text in [pkg], [version], [origin], [lang] and [prefix];
    the text of [lang] is not part of the model's record. *)
Definition columns (m : mportPackageMeta) : stmt_row :=
  mkStmtRow (Some (name m)) (Some (version m)) (Some (origin m)) (Some "")
            (Some (prefix m)) (locked m) (automatic m) (install_date m).

(** [ORDER BY pkg, version] *)
Definition row_le (a b : mportPackageMeta) : bool :=
  match String.compare (name a) (name b) with
  | Lt => true
  | Gt => false
  | Eq => String.leb (version a) (version b)
  end.

Fixpoint insert_sorted (x : mportPackageMeta) (l : list mportPackageMeta) :=
  match l with
  | [] => [x]
  | y :: l' => if row_le x y then x :: l else y :: insert_sorted x l'
  end.

Definition order_by_pkg_version (l : list mportPackageMeta) : list mportPackageMeta :=
  fold_right insert_sorted [] l.

Inductive count_type : Type := ALL | LOCKED | WHERE.

(** [mport_pkgmeta_count]; the where clause is a predicate on rows. *)
Definition mport_pkgmeta_count (db : tables) (type : count_type)
  (where_ : mportPackageMeta -> bool) : Z :=
  match type with
  | ALL => Z.of_nat (length (packages db))
  | LOCKED =>
      Z.of_nat (length (filter (fun r => locked (row_pkg r) =? 1) (packages db)))
  | WHERE =>
      Z.of_nat (length (filter (fun r => where_ (row_pkg r)) (packages db)))
  end.

Definition mport_pkgmeta_search_master (db : tables)
  (where_ : mportPackageMeta -> bool) : run (Z * vec) :=
  let len := mport_pkgmeta_count db WHERE where_ in
  if len =? 0 then Done (MPORT_OK, None)
  else populate_vec_from_stmt len
         (map columns (filter where_ (map row_pkg (packages db)))).

Definition mport_pkgmeta_list (db : tables) : run (Z * vec) :=
  let len := mport_pkgmeta_count db ALL (fun _ => true) in
  if len =? 0 then Done (MPORT_OK, None)
  else populate_vec_from_stmt len
         (map columns (order_by_pkg_version (map row_pkg (packages db)))).

Definition mport_pkgmeta_list_locked (db : tables) : run (Z * vec) :=
  let len := mport_pkgmeta_count db LOCKED (fun _ => true) in
  if len =? 0 then Done (MPORT_OK, None)
  else populate_vec_from_stmt len
         (map columns
            (order_by_pkg_version
               (filter (fun m => locked m =? 1) (map row_pkg (packages db))))).

(** The rows of [packages, depends] joined on [on_]; one row per pair. *)
Definition join (db : tables) (on_ : mportPackageMeta -> depends_row -> bool)
  : list mportPackageMeta :=
  flat_map (fun d => filter (fun m => on_ m d) (map row_pkg (packages db)))
           (depends db).

(** [mport_pkgmeta_get_downdepends]: the count is taken over the rows of
    [depends], the vector is filled from the join with [packages]. *)
Definition mport_pkgmeta_get_downdepends (db : tables) (pkg : mportPackageMeta)
  : run (Z * vec) :=
  let count :=
    Z.of_nat (length (filter (fun d => String.eqb (dep_pkg d) (name pkg)) (depends db))) in
  if count =? 0 then Done (MPORT_OK, None)
  else populate_vec_from_stmt count
         (map columns
            (join db (fun m d => String.eqb (name m) (depend_pkgname d)
                                 && String.eqb (dep_pkg d) (name pkg)))).

(** [mport_pkgmeta_get_updepends] *)
Definition mport_pkgmeta_get_updepends (db : tables) (pkg : mportPackageMeta)
  : run (Z * vec) :=
  let count :=
    Z.of_nat (length (filter (fun d => String.eqb (depend_pkgname d) (name pkg))
                             (depends db))) in
  if count =? 0 then Done (MPORT_OK, None)
  else populate_vec_from_stmt count
         (map columns
            (join db (fun m d => String.eqb (name m) (dep_pkg d)
                                 && String.eqb (depend_pkgname d) (name pkg)))).

End Store.

(** ** The bundle installer (src/unnamed/part_005) and
       libmport/update_primative.c *)
Module Installer.
Import Store.

Open Scope string_scope.
Open Scope Z_scope.

Notation "x <- r ;; k" := (run_bind r (fun x => k))
  (at level 61, r at next level, right associativity).

(** *** The connection to the live database

    [live] is what the connection sees; inside a transaction [saved] holds
    the tables as they were at BEGIN, which is what the file still contains
    and what a ROLLBACK or the end of the connection would restore. *)
Record connection : Type := mkConn {
  live : tables;
  saved : option tables
}.

Definition committed (c : connection) : tables :=
  match saved c with
  | Some t => t
  | None => live c
  end.

Definition with_live (c : connection) (t : tables) : connection :=
  mkConn t (saved c).

(** [mport_db_do(db, "BEGIN TRANSACTION")] and [mport_db_do(db, "COMMIT")]:
    SQLite refuses a BEGIN inside a transaction and a COMMIT outside one. *)
Definition db_begin (c : connection) : connection * Z :=
  match saved c with
  | None => (mkConn (live c) (Some (live c)), MPORT_OK)
  | Some _ => (c, MPORT_ERR_FATAL)
  end.

Definition db_commit (c : connection) : connection * Z :=
  match saved c with
  | Some _ => (mkConn (live c) None, MPORT_OK)
  | None => (c, MPORT_ERR_FATAL)
  end.

(** The bits of the precondition flag word (their values are in
    mport_private.h); a flag word is the list of the bits that are set. *)
Inductive precheck : Type :=
| MPORT_PRECHECK_UPGRADEABLE
| MPORT_PRECHECK_CONFLICTS
| MPORT_PRECHECK_DEPENDS.

(** *** What the installer does outside the database

    The file system, the archive reader and the hook scripts are not
    modelled; whether each of their steps succeeds is given by the host. *)
Record host : Type := mkHost {
  root : string;                          (* mport->root *)
  now : Z;                                (* mport_get_time() *)
  force : bool;                           (* mport->force *)
  err_code : Z;                           (* mport_err_code() when the installer starts:
                                             the last error recorded, MPORT_OK if none *)
  chdir_ok : string -> bool;              (* mport_chdir *)
  mkdirp_ok : string -> bool;             (* mport_mkdirp of a directory *)
  dirmode_ok : string -> string -> bool;  (* setmode of a mode, then chmod of a directory *)
  dirchown_ok : string -> bool;           (* chown of a directory *)
  exec_ok : string -> bool;               (* mport_run_asset_exec *)
  extract_ok : string -> bool;            (* extraction, lstat, chown, chmod, shell
                                             registration and sample copy of one file *)
  pre_install_ok : mportPackageMeta -> bool;   (* mtree, lua and pkg-install PRE-INSTALL, preexec *)
  post_install_ok : mportPackageMeta -> bool;  (* postexec, message, lua and pkg-install POST-INSTALL *)
  check_preconditions :                   (* mport_check_preconditions *)
    tables -> mportPackageMeta -> list precheck -> Z
}.

(** [mportBundleRead]: the attached stub database and the payload entries
    of the archive that have not been read yet. *)
Record mportBundleRead : Type := mkBundle {
  stub : tables;
  entries : list string
}.

Definition asset_type_eqb (a b : mportAssetListEntryType) : bool :=
  match a, b with
  | ASSET_INVALID, ASSET_INVALID | ASSET_FILE, ASSET_FILE | ASSET_CWD, ASSET_CWD
  | ASSET_CHMOD, ASSET_CHMOD | ASSET_CHOWN, ASSET_CHOWN | ASSET_CHGRP, ASSET_CHGRP
  | ASSET_COMMENT, ASSET_COMMENT | ASSET_IGNORE, ASSET_IGNORE | ASSET_NAME, ASSET_NAME
  | ASSET_EXEC, ASSET_EXEC | ASSET_UNEXEC, ASSET_UNEXEC | ASSET_SRC, ASSET_SRC
  | ASSET_DISPLY, ASSET_DISPLY | ASSET_PKGDEP, ASSET_PKGDEP
  | ASSET_CONFLICTS, ASSET_CONFLICTS | ASSET_MTREE, ASSET_MTREE
  | ASSET_DIRRM, ASSET_DIRRM | ASSET_DIRRMTRY, ASSET_DIRRMTRY
  | ASSET_IGNORE_INST, ASSET_IGNORE_INST | ASSET_OPTION, ASSET_OPTION
  | ASSET_ORIGIN, ASSET_ORIGIN | ASSET_DEPORIGIN, ASSET_DEPORIGIN
  | ASSET_NOINST, ASSET_NOINST | ASSET_DISPLAY, ASSET_DISPLAY | ASSET_DIR, ASSET_DIR
  | ASSET_SAMPLE, ASSET_SAMPLE | ASSET_SHELL, ASSET_SHELL
  | ASSET_PREEXEC, ASSET_PREEXEC | ASSET_PREUNEXEC, ASSET_PREUNEXEC
  | ASSET_POSTEXEC, ASSET_POSTEXEC | ASSET_POSTUNEXEC, ASSET_POSTUNEXEC
  | ASSET_FILE_OWNER_MODE, ASSET_FILE_OWNER_MODE
  | ASSET_DIR_OWNER_MODE, ASSET_DIR_OWNER_MODE
  | ASSET_SAMPLE_OWNER_MODE, ASSET_SAMPLE_OWNER_MODE
  | ASSET_LDCONFIG, ASSET_LDCONFIG | ASSET_LDCONFIG_LINUX, ASSET_LDCONFIG_LINUX
  | ASSET_RMEMPTY, ASSET_RMEMPTY | ASSET_GLIB_SCHEMAS, ASSET_GLIB_SCHEMAS
  | ASSET_KLD, ASSET_KLD | ASSET_DESKTOP_FILE_UTILS, ASSET_DESKTOP_FILE_UTILS
  | ASSET_INFO, ASSET_INFO | ASSET_TOUCH, ASSET_TOUCH => true
  | _, _ => false
  end.

Definition type_in (t : mportAssetListEntryType) (l : list mportAssetListEntryType) : bool :=
  existsb (asset_type_eqb t) l.

(** *** The rows phase 2 creates *)

(** Modelled from the spec: the schema of the live database is created by
    code that is not under src/; section 4.B gives [packages(pkg PK, ...)],
    so an INSERT of a second row with the same [pkg] fails, and
    [status TEXT DEFAULT 'dirty']. *)
Definition insert_package (t : tables) (r : package_row) : option tables :=
  if existsb (fun x => String.eqb (name (row_pkg x)) (name (row_pkg r))) (packages t)
  then None
  else Some (mkTables (packages t ++ [r]) (depends t) (categories t) (conflicts t) (assets t)).

(** [create_package_row]: the INSERT names its columns; [locked] is the
    literal 0 and [status] takes its default. *)
Definition create_package_row (c : connection) (pkg : mportPackageMeta)
  : connection * Z :=
  let r := mkRow (mkMeta (name pkg) (version pkg) (origin pkg) (prefix pkg)
                         0 (automatic pkg) (install_date pkg)) "dirty" in
  match insert_package (live c) r with
  | Some t => (with_live c t, MPORT_OK)
  | None => (c, MPORT_ERR_FATAL)
  end.

(** [create_depends], [create_categories], [create_conflicts]:
    INSERT ... SELECT ... FROM stub.<table> WHERE pkg=%Q. *)
Definition create_depends (c : connection) (b : mportBundleRead) (pkg : mportPackageMeta)
  : connection * Z :=
  let t := live c in
  (with_live c
     (mkTables (packages t)
        (depends t ++ filter (fun d => String.eqb (dep_pkg d) (name pkg)) (depends (stub b)))
        (categories t) (conflicts t) (assets t)),
   MPORT_OK).

Definition create_categories (c : connection) (b : mportBundleRead) (pkg : mportPackageMeta)
  : connection * Z :=
  let t := live c in
  (with_live c
     (mkTables (packages t) (depends t)
        (categories t ++ filter (fun d => String.eqb (cat_pkg d) (name pkg)) (categories (stub b)))
        (conflicts t) (assets t)),
   MPORT_OK).

Definition create_conflicts (c : connection) (b : mportBundleRead) (pkg : mportPackageMeta)
  : connection * Z :=
  let t := live c in
  (with_live c
     (mkTables (packages t) (depends t) (categories t)
        (conflicts t ++ filter (fun d => String.eqb (con_pkg d) (name pkg)) (conflicts (stub b)))
        (assets t)),
   MPORT_OK).

Definition insert_asset (c : connection) (r : asset_row) : connection :=
  let t := live c in
  with_live c (mkTables (packages t) (depends t) (categories t) (conflicts t)
                        (assets t ++ [r])).

Inductive phase : Type := PREINSTALL | ACTUALINSTALL | POSTINSTALL.

(** [mport_bundle_read_get_assetlist] *)
Definition mport_bundle_read_get_assetlist (b : mportBundleRead)
  (pkg : mportPackageMeta) (state : phase) : list asset_row :=
  filter
    (fun e =>
       String.eqb (asset_pkg e) (name pkg) &&
       match state with
       | PREINSTALL => type_in (asset_type e) [ASSET_CWD; ASSET_PREEXEC]
       | ACTUALINSTALL =>
           negb (type_in (asset_type e)
                   [ASSET_PREEXEC; ASSET_POSTEXEC; ASSET_LDCONFIG; ASSET_LDCONFIG_LINUX])
       | POSTINSTALL =>
           type_in (asset_type e)
             [ASSET_CWD; ASSET_POSTEXEC; ASSET_LDCONFIG; ASSET_LDCONFIG_LINUX;
              ASSET_GLIB_SCHEMAS; ASSET_INFO; ASSET_TOUCH]
       end)
    (assets (stub b)).

Definition is_file_type (t : mportAssetListEntryType) : bool :=
  type_in t [ASSET_FILE; ASSET_SAMPLE; ASSET_SHELL; ASSET_FILE_OWNER_MODE;
             ASSET_SAMPLE_OWNER_MODE; ASSET_INFO].

Definition starts_with_slash (s : string) : bool :=
  match s with
  | String c _ => Ascii.eqb c "/"
  | EmptyString => false
  end.

(** The file name of a sample entry ends at its first blank. *)
Fixpoint cut_at_blank (s : string) : string :=
  match s with
  | EmptyString => EmptyString
  | String c s' =>
      if Ascii.eqb c " " || Ascii.eqb c "009" then EmptyString
      else String c (cut_at_blank s')
  end.

Fixpoint drop (n : nat) (s : string) : string :=
  match n, s with
  | O, _ => s
  | S n', String _ s' => drop n' s'
  | S _, EmptyString => EmptyString
  end.

(** The local variables of [do_actual_install] that the loop carries from
    one asset to the next and that reach the database. *)
Record locals : Type := mkLocals {
  cwd : string;
  file : string;
  bundle : mportBundleRead;
  conn : connection
}.

(** A column of the plist that holds a text that is not empty. *)
Definition is_set (s : option string) : bool :=
  match s with
  | Some (String _ _) => true
  | _ => false
  end.

(** A step that goes on ([None]) when it succeeded and otherwise jumps to
    ERROR with MPORT_ERR_FATAL recorded, by SET_ERROR or by the call that
    failed. *)
Definition or_fatal (ok : bool) : option Z :=
  if ok then None else Some MPORT_ERR_FATAL.

(** The directory entries of the asset loop.  A failing [mport_mkdirp] or
    [chown] records MPORT_ERR_FATAL before the jump; a failing [setmode]
    or [chmod] jumps to ERROR and records nothing, so that the function
    returns the error code [err] it found.  [chmod] and [chown] of a NULL
    path fail. *)
Definition make_directory (h : host) (err : Z) (e : asset_row) : option Z :=
  if negb (mkdirp_ok h (match asset_data e with Some d => d | None => "" end))
  then Some MPORT_ERR_FATAL
  else if is_set (asset_mode e) &&
          negb (match asset_data e, asset_mode e with
                | Some d, Some m => dirmode_ok h m d
                | _, _ => false
                end)
  then Some err
  else if (is_set (asset_owner e) || is_set (asset_grp e)) &&
          negb (match asset_data e with
                | Some d => dirchown_ok h d
                | None => false
                end)
  then Some MPORT_ERR_FATAL
  else None.

(** The [switch] of the asset loop: [Done (l, None)] goes on to the INSERT,
    [Done (l, Some code)] is [goto ERROR] with [code] what
    [mport_err_code()] gives at the label; [err] is what it gives as long
    as no step has recorded an error. *)
Definition materialize (h : host) (pkg : mportPackageMeta) (err : Z) (e : asset_row)
  (l : locals) : run (locals * option Z) :=
  let t := asset_type e in
  if asset_type_eqb t ASSET_CWD then
    let cwd' := match asset_data e with Some d => d | None => prefix pkg end in
    Done (mkLocals cwd' (file l) (bundle l) (conn l), or_fatal (chdir_ok h cwd'))
  else if type_in t [ASSET_DIR; ASSET_DIRRM; ASSET_DIRRMTRY; ASSET_DIR_OWNER_MODE] then
    Done (l, make_directory h err e)
  else if asset_type_eqb t ASSET_EXEC then
    match asset_data e with
    | Some d => Done (l, or_fatal (exec_ok h d))
    | None => Undefined
    end
  else if is_file_type t then
    match entries (bundle l) with
    | [] =>
        (* the data is read before the entry is tested for NULL *)
        match asset_data e with
        | Some _ => Done (l, Some MPORT_ERR_FATAL)
        | None => Undefined
        end
    | _ :: rest =>
        match asset_data e with
        | None => Undefined
        | Some d =>
            let f := if starts_with_slash d then d
                     else root h ++ cwd l ++ "/" ++ d in
            let f := if type_in t [ASSET_SAMPLE; ASSET_SAMPLE_OWNER_MODE]
                     then cut_at_blank f else f in
            Done (mkLocals (cwd l) f (mkBundle (stub (bundle l)) rest) (conn l),
                  or_fatal (extract_ok h f))
        end
    end
  else Done (l, None).

(** The row bound to the prepared INSERT for one asset. *)
Definition bound_asset (h : host) (pkg : mportPackageMeta) (e : asset_row) (l : locals)
  : run asset_row :=
  let t := asset_type e in
  if is_file_type t then
    if (String.length (root h) <=? String.length (file l))%nat then
      Done (mkAsset (name pkg) t
              (Some (drop (String.length (root h)) (file l)))
              (Some (match asset_checksum e with Some x => x | None => "" end))
              (Some (match asset_owner e with Some x => x | None => "" end))
              (Some (match asset_grp e with Some x => x | None => "" end))
              (Some (match asset_mode e with Some x => x | None => "" end)))
    else Undefined
  else if type_in t [ASSET_DIR; ASSET_DIRRM; ASSET_DIRRMTRY] then
    match asset_data e with
    | Some d =>
        Done (mkAsset (name pkg) t
                (Some (if starts_with_slash d then d else cwd l ++ "/" ++ d))
                None None None None)
    | None => Undefined
    end
  else Done (mkAsset (name pkg) t (asset_data e) None None None None).

(** The asset loop; it stops at the first [goto ERROR]. *)
Fixpoint install_assets (h : host) (pkg : mportPackageMeta) (err : Z)
  (alist : list asset_row) (l : locals) : run (locals * option Z) :=
  match alist with
  | [] => Done (l, None)
  | e :: rest =>
      r <- materialize h pkg err e l ;;
      let '(l, jump) := r in
      match jump with
      | None =>
          row <- bound_asset h pkg e l ;;
          install_assets h pkg err rest
            (mkLocals (cwd l) (file l) (bundle l) (insert_asset (conn l) row))
      | Some code => Done (l, Some code)
      end
  end.

(** [do_actual_install].  The label ERROR releases memory and returns the
    current error; it issues no statement.  The result of BEGIN
    TRANSACTION is not tested; when it fails its error stays recorded. *)
Definition do_actual_install (h : host) (c : connection) (b : mportBundleRead)
  (pkg : mportPackageMeta) : run (connection * mportBundleRead * Z) :=
  let alist := mport_bundle_read_get_assetlist b pkg ACTUALINSTALL in
  let '(c, ret) := create_package_row c pkg in
  if negb (ret =? MPORT_OK) then Done (c, b, MPORT_ERR_FATAL) else
  let '(c, ret) := create_depends c b pkg in
  if negb (ret =? MPORT_OK) then Done (c, b, MPORT_ERR_FATAL) else
  let '(c, ret) := create_categories c b pkg in
  if negb (ret =? MPORT_OK) then Done (c, b, MPORT_ERR_FATAL) else
  let '(c, ret) := create_conflicts c b pkg in
  if negb (ret =? MPORT_OK) then Done (c, b, MPORT_ERR_FATAL) else
  if negb (chdir_ok h (prefix pkg)) then Done (c, b, MPORT_ERR_FATAL) else
  let '(c, began) := db_begin c in
  let err := if began =? MPORT_OK then err_code h else began in
  r <- install_assets h pkg err alist (mkLocals (prefix pkg) "" b c) ;;
  let '(l, jump) := r in
  match jump with
  | Some code => Done (conn l, bundle l, code)
  | None =>
      let '(c, ret) := db_commit (conn l) in
      if negb (ret =? MPORT_OK) then Done (c, bundle l, MPORT_ERR_FATAL)
      else Done (c, bundle l, MPORT_OK)
  end.

(** [mark_complete] *)
Definition mark_complete (c : connection) (pkg : mportPackageMeta) : connection * Z :=
  let t := live c in
  (with_live c
     (mkTables
        (map (fun r => if String.eqb (name (row_pkg r)) (name pkg)
                       then mkRow (row_pkg r) "clean" else r) (packages t))
        (depends t) (categories t) (conflicts t) (assets t)),
   MPORT_OK).

(** [mport_bundle_read_install_pkg]: the three phases; phases 1 and 3 touch
    the database only through [mark_complete]. *)
Definition mport_bundle_read_install_pkg (h : host) (c : connection)
  (b : mportBundleRead) (pkg : mportPackageMeta)
  : run (connection * mportBundleRead * Z) :=
  if negb (pre_install_ok h pkg) then Done (c, b, MPORT_ERR_FATAL) else
  r <- do_actual_install h c b pkg ;;
  let '(c, b, ret) := r in
  if negb (ret =? MPORT_OK) then Done (c, b, ret) else
  if negb (post_install_ok h pkg) then Done (c, b, MPORT_ERR_FATAL) else
  let '(c, ret) := mark_complete c pkg in
  Done (c, b, ret).

(** *** libmport/update_primative.c *)

(** Modelled from the spec: [mport_delete_primative] is not under src/.
    Section 4.F: the deletion removes the [packages], [depends], [assets],
    [categories] and [conflicts] rows of the package. *)
Definition delete_rows (n : string) (t : tables) : tables :=
  mkTables
    (filter (fun r => negb (String.eqb (name (row_pkg r)) n)) (packages t))
    (filter (fun r => negb (String.eqb (dep_pkg r) n)) (depends t))
    (filter (fun r => negb (String.eqb (cat_pkg r) n)) (categories t))
    (filter (fun r => negb (String.eqb (con_pkg r) n)) (conflicts t))
    (filter (fun r => negb (String.eqb (asset_pkg r) n)) (assets t)).

(** Modelled from the spec: section 4.F, "package is not locked (unless
    force); no installed package has an up-depends edge to it (unless
    force)". *)
Definition mport_delete_primative (db : tables) (pack : mportPackageMeta) (force : bool)
  : tables * Z :=
  if negb force &&
     (negb (locked pack =? 0) ||
      existsb (fun d => String.eqb (depend_pkgname d) (name pack)) (depends db))
  then (db, MPORT_ERR_FATAL)
  else (delete_rows (name pack) db, MPORT_OK).

(** Modelled from the spec: [mport_bundle_read_update_pkg] is not under
    src/.  Section 4.H: the installer is invoked "on a mode that first
    deletes the old row"; the record handed in is the one the installer
    writes. *)
Definition mport_bundle_read_update_pkg (h : host) (c : connection)
  (b : mportBundleRead) (pkg : mportPackageMeta)
  : run (connection * mportBundleRead * Z) :=
  mport_bundle_read_install_pkg h (with_live c (delete_rows (name pkg) (live c))) b pkg.

(** Modelled from the spec: [mport_lock_islocked] is not under src/.
    Section 3 has [locked] as a boolean attribute of the record. *)
Definition mport_lock_islocked (pkg : mportPackageMeta) : Z :=
  if locked pkg =? 0 then MPORT_UNLOCKED else MPORT_LOCKED.

(** [mport_pkgmeta_read_stub]: every package of the stub, with
    [0 as locked], [0 as automatic] and [0 as install_date]. *)
Definition mport_pkgmeta_read_stub (b : mportBundleRead) : Z * list mportPackageMeta :=
  match packages (stub b) with
  | [] => (MPORT_ERR_FATAL, [])
  | rows =>
      (MPORT_OK,
       map (fun r => let m := row_pkg r in
                     mkMeta (name m) (version m) (origin m) (prefix m) 0 0 0) rows)
  end.

(** [set_prefix_to_installed] *)
Definition set_prefix_to_installed (c : connection) (pkg : mportPackageMeta)
  : mportPackageMeta * Z :=
  match filter (fun r => String.eqb (name (row_pkg r)) (name pkg)) (packages (live c)) with
  | r :: _ =>
      (mkMeta (name pkg) (version pkg) (origin pkg) (prefix (row_pkg r))
              (locked pkg) (automatic pkg) (install_date pkg),
       MPORT_OK)
  | [] => (pkg, MPORT_ERR_FATAL)
  end.


(** The body of the [for] loop of [mport_update_primative] for one package
    of the stub. *)
Definition update_one (h : host) (c : connection) (b : mportBundleRead)
  (pkg : mportPackageMeta) : run (connection * mportBundleRead) :=
  let pkg := mkMeta (name pkg) (version pkg) (origin pkg) (prefix pkg)
                    (locked pkg) (automatic pkg) (now h) in
  found <- mport_pkgmeta_search_master (live c)
             (fun m => String.eqb (name m) (name pkg)) ;;
  let pkg :=
    match found with
    | (0, Some (already_installed :: _)) =>
        mkMeta (name pkg) (version pkg) (origin pkg) (prefix pkg)
               (locked already_installed) (automatic already_installed)
               (install_date pkg)
    | _ => pkg
    end in
  if mport_lock_islocked pkg =? MPORT_LOCKED then Done (c, b)
  else
    let flag := [MPORT_PRECHECK_CONFLICTS; MPORT_PRECHECK_DEPENDS] in
    let flag := if force h then flag else (flag ++ [MPORT_PRECHECK_UPGRADEABLE])%list in
    if negb (check_preconditions h (live c) pkg flag =? MPORT_OK) then Done (c, b)
    else
      let '(pkg, ret) := set_prefix_to_installed c pkg in
      if negb (ret =? MPORT_OK) then Done (c, b)
      else
        r <- mport_bundle_read_update_pkg h c b pkg ;;
        let '(c, b, _) := r in
        Done (c, b).

Fixpoint update_each (h : host) (c : connection) (b : mportBundleRead)
  (pkgs : list mportPackageMeta) : run (connection * mportBundleRead) :=
  match pkgs with
  | [] => Done (c, b)
  | pkg :: rest =>
      r <- update_one h c b pkg ;;
      let '(c, b) := r in
      update_each h c b rest
  end.

(** [mport_update_primative], from the point where the bundle is open and
    its stub attached. *)
Definition mport_update_primative (h : host) (c : connection) (b : mportBundleRead)
  : run (connection * Z) :=
  let '(ret, pkgs) := mport_pkgmeta_read_stub b in
  if negb (ret =? MPORT_OK) then Done (c, MPORT_ERR_FATAL)
  else
    r <- update_each h c b pkgs ;;
    Done (fst r, MPORT_OK).

End Installer.

(** ** The upgrade planner (src/unnamed/part_002) and [mport_autoremove]
       (libmport/default_cbs.c) *)
Module Planner.
Import Store.

Open Scope string_scope.
Open Scope Z_scope.

Notation "x <- r ;; k" := (run_bind r (fun x => k))
  (at level 61, r at next level, right associativity).

(** *** mport_autoremove *)

(** A local [mportPackageMeta **]: not yet assigned, or holding what a
    query stored. *)
Inductive vecptr : Type :=
| Indeterminate
| Pointer (v : vec).

(** [depends[i]] for the [i] up to the sentinel. *)
Definition deref_vec (p : vecptr) : run (list mportPackageMeta) :=
  match p with
  | Pointer (Some l) => Done l
  | Pointer None => Undefined
  | Indeterminate => Undefined
  end.

(** The [while ( *packs != NULL )] loop of [mport_autoremove].  [start] is
    declared and never assigned; [depends = start] overwrites the vector
    that [mport_pkgmeta_get_updepends] has just stored.  A failing query
    takes [continue] without advancing [packs].  The deletion is
    [mport_delete_primative(mport, depends[i], true)], whose effect on the
    tables is [Installer.delete_rows]. *)
Fixpoint autoremove_packs (db : tables) (packs : list mportPackageMeta)
  : run (tables * Z) :=
  match packs with
  | [] => Done (db, MPORT_OK)
  | p :: rest =>
      if automatic p =? MPORT_EXPLICIT then autoremove_packs db rest
      else
        r <- mport_pkgmeta_get_updepends db p ;;
        if negb (fst r =? MPORT_OK) then Diverges
        else
          let start := Indeterminate in
          let depends := start in
          ds <- deref_vec depends ;;
          if existsb (fun d => automatic d =? MPORT_EXPLICIT) ds
          then autoremove_packs db rest
          else
            autoremove_packs
              (fold_left (fun t d => Installer.delete_rows (name d) t) ds db) rest
  end.

Definition mport_autoremove (db : tables) : run (tables * Z) :=
  r <- mport_pkgmeta_list db ;;
  let '(ret, packs) := r in
  if negb (ret =? MPORT_OK) then Done (db, ret)
  else match packs with
       | None => Done (db, MPORT_OK)
       | Some packs => autoremove_packs db packs
       end.

(** *** What the run does to the system *)
Inductive action : Type :=
| Update (pkgname : string) (result : Z)      (* mport_update and what it returned *)
| Delete (pkgname : string)                   (* mport_delete_primative(.., true) *)
| Install (pkgname : string) (automatic : Z). (* mport_install_single *)

Record mportIndexEntry : Type := mkIndexEntry {
  ie_pkgname : string;
  ie_version : string
}.

(** *** The processed set

    [struct ohash h] with key offset 0.  A used slot holds the hash value
    of a key and the pointer that [ohash_insert] was given, which is the
    address of a package name: [pack->name] or [( *depends)->name].  The
    name lies in a record of a vector of packages; the planner inserts the
    pointer, not a copy, so that after [mport_pkgmeta_vec_free] of that
    vector the slot points to released storage.  Vector 0 stands for
    storage that outlives the run (the list of installed packages of
    [mport_upgrade], the index entries). *)
Record slot : Type := mkSlot {
  slot_hv : Z;          (* the hash value stored in the slot *)
  slot_key : string;    (* the name the pointer led to when it was stored *)
  slot_vector : nat;    (* the vector that holds the name *)
  slot_released : bool  (* that vector has been freed *)
}.

(** [ohash_find] reads a slot ([None] is NULL); [ohash_insert] writes the
    pointer into it.  The table is the list of its used slots in the order
    in which they were taken, which is the order in which a probe meets
    the slots of one hash value. *)
Definition ohash_find (h : list slot) (i : nat) : option slot := nth_error h i.

Fixpoint ohash_insert (h : list slot) (i : nat) (p : slot) : list slot :=
  match h, i with
  | [], _ => [p]
  | _ :: h', O => p :: h'
  | k :: h', S i' => k :: ohash_insert h' i' p
  end.

(** [mport_pkgmeta_vec_free] of vector [v], seen from the table. *)
Definition release (v : nat) (h : list slot) : list slot :=
  map (fun k => if Nat.eqb (slot_vector k) v
                then mkSlot (slot_hv k) (slot_key k) (slot_vector k) true
                else k) h.

Record upgrade_state : Type := mkState {
  h : list slot;            (* struct ohash h: tracks processed packages *)
  actions : list action;    (* oldest first *)
  updated : Z;
  total : Z;
  vectors : nat;            (* vectors of down-depends handed out so far *)
  reads : nat               (* reads of released storage so far *)
}.

Section Upgrade.

(** The collaborators of the planner.  During one run the dependency
    edges and the index are fixed; what [mport_update] returns may depend
    on everything done so far.  [mport_pkgmeta_get_downdepends] reads only
    the name of the package it is given.  The two caches of this revision
    memoize [mport_moved_lookup] and [mport_index_check] and are not
    modelled.  [ohash_interval] is the hash function of the table.  A
    comparison with a name in released storage reads whatever the
    allocator has left or put there: [released_storage n] is the string
    that the [n]-th such read finds. *)
Variable mport_pkgmeta_get_downdepends : string -> Z * vec.
Variable mport_index_check : mportPackageMeta -> Z.
Variable mport_update : list action -> string -> Z.
Variable mport_index_lookup_pkgname : string -> Z * option (list mportIndexEntry).
Variable confirm_cb : string -> string -> string -> Z -> Z.
Variable ohash_interval : string -> Z.
Variable released_storage : nat -> string.

(** [ohash_qlookup]: the slot that holds the key or, when no slot does,
    the free slot where it goes, and the number of reads of released
    storage after the probe.  A slot is compared with the key only when
    its hash value is that of the key. *)
Fixpoint ohash_qlookup (h : list slot) (s : string) (reads : nat) : nat * nat :=
  match h with
  | [] => (O, reads)
  | k :: h' =>
      if slot_hv k =? ohash_interval s then
        if slot_released k then
          if String.eqb (released_storage reads) s then (O, S reads)
          else let '(i, reads) := ohash_qlookup h' s (S reads) in (S i, reads)
        else
          if String.eqb (slot_key k) s then (O, reads)
          else let '(i, reads) := ohash_qlookup h' s reads in (S i, reads)
      else let '(i, reads) := ohash_qlookup h' s reads in (S i, reads)
  end.

Definition do_update (st : upgrade_state) (pkgname : string) : upgrade_state * Z :=
  let r := mport_update (actions st) pkgname in
  (mkState (h st) (actions st ++ [Update pkgname r]) (updated st) (total st)
           (vectors st) (reads st), r).

(** [slot = ohash_qlookup(h, name)] *)
Definition lookup (st : upgrade_state) (pkgname : string) : nat * upgrade_state :=
  let '(i, n) := ohash_qlookup (h st) pkgname (reads st) in
  (i, mkState (h st) (actions st) (updated st) (total st) (vectors st) n).

(** [ohash_find(h, slot) != NULL] *)
Definition filled (st : upgrade_state) (i : nat) : bool :=
  match ohash_find (h st) i with
  | Some _ => true
  | None => false
  end.

(** [ohash_insert(h, slot, name)], [name] lying in vector [v]. *)
Definition insert_at (st : upgrade_state) (i : nat) (pkgname : string) (v : nat)
  : upgrade_state :=
  mkState (ohash_insert (h st) i (mkSlot (ohash_interval pkgname) pkgname v false))
          (actions st) (updated st) (total st) (vectors st) (reads st).

(** [slot = ohash_qlookup(h, name); key = ohash_find(h, slot);] and the
    test of [key]. *)
Definition is_processed (st : upgrade_state) (pkgname : string)
  : bool * upgrade_state :=
  let '(i, st) := lookup st pkgname in (filled st i, st).

(** [slot = ohash_qlookup(h, name); ohash_insert(h, slot, name);] *)
Definition mark_processed (st : upgrade_state) (pkgname : string) (v : nat)
  : upgrade_state :=
  let '(i, st) := lookup st pkgname in insert_at st i pkgname v.

(** [mport_pkgmeta_vec_free(depends_orig)] *)
Definition vec_free (v : nat) (st : upgrade_state) : upgrade_state :=
  mkState (release v (h st)) (actions st) (updated st) (total st)
          (vectors st) (reads st).

(** The [while ( *depends != NULL )] loop of [mport_update_down]; [down] is
    the recursive call and [v] the vector that holds the records of
    [depends]. *)
Fixpoint update_depends
  (down : mportPackageMeta -> nat -> upgrade_state -> option (upgrade_state * Z))
  (v : nat) (depends : list mportPackageMeta) (st : upgrade_state) (ret : Z)
  : option (upgrade_state * Z) :=
  match depends with
  | [] => Some (st, ret)
  | d :: rest =>
      let '(key, st) := is_processed st (name d) in
      if negb key then
        match down d v st with
        | None => None
        | Some (st, r) =>
            let ret := ret + r in
            if negb (mport_index_check d =? 0) then
              let '(st, r) := do_update st (name d) in
              if negb (r =? 0) then update_depends down v rest st ret
              else update_depends down v rest (mark_processed st (name d) v) (ret + 1)
            else update_depends down v rest st ret
        end
      else update_depends down v rest st ret
  end.

(** [mport_update_down]; [owner] is the vector that holds the record of
    [pack]; [fuel] bounds the depth of the recursion, [None] means the
    bound was reached. *)
Fixpoint mport_update_down (fuel : nat) (pack : mportPackageMeta) (owner : nat)
  (st : upgrade_state) : option (upgrade_state * Z) :=
  match fuel with
  | O => None
  | S fuel =>
      let '(code, depends_orig) := mport_pkgmeta_get_downdepends (name pack) in
      if negb (code =? MPORT_OK) then Some (st, 0)
      else
        match depends_orig with
        | None =>
            let '(key, st) := is_processed st (name pack) in
            if negb key then
              if negb (mport_index_check pack =? 0) then
                let '(st, r) := do_update st (name pack) in
                if negb (r =? 0) then Some (st, 0)
                else Some (mark_processed st (name pack) owner, 1)
              else Some (st, 0)
            else Some (st, 0)
        | Some depends =>
            let v := S (vectors st) in
            let st := mkState (h st) (actions st) (updated st) (total st) v (reads st) in
            match update_depends (mport_update_down fuel) v depends st 0 with
            | None => None
            | Some (st, ret) =>
                if negb (mport_index_check pack =? 0) then
                  let '(st, r) := do_update st (name pack) in
                  if negb (r =? 0) then Some (vec_free v st, ret)
                  else
                    let '(slot, st) := lookup st (name pack) in
                    Some (vec_free v
                            (if filled st slot then st
                             else insert_at st slot (name pack) owner),
                          ret + 1)
                else Some (vec_free v st, ret)
            end
        end
  end.

(** The second loop of [mport_upgrade] ("update packages that haven't
    moved already") for one installed package: [inl] goes on with the next
    package, [inr] is the [return] inside the loop.  The records of the
    installed packages and of the index outlive the loop. *)
Definition upgrade_one (fuel : nat) (pack : mportPackageMeta) (st : upgrade_state)
  : option (upgrade_state + Z) :=
  let count (st : upgrade_state) :=
    mkState (h st) (actions st) (updated st) (total st + 1) (vectors st) (reads st) in
  let '(key, st) := is_processed st (name pack) in
  if negb key then
    let match_ := mport_index_check pack in
    if match_ =? 1 then
      match mport_update_down fuel pack 0 st with
      | None => None
      | Some (st, r) =>
          Some (inl (count (mkState (h st) (actions st) (updated st + r) (total st)
                                    (vectors st) (reads st))))
      end
    else if match_ =? 2 then
      let '(code, ieUpdateMe) := mport_index_lookup_pkgname (origin pack) in
      if negb (code =? MPORT_OK) then Some (inr 0)
      else
        match ieUpdateMe with
        | None | Some [] => Some (inl st)
        | Some (ie :: _) =>
            let msg :=
              "The package you have installed " ++ name pack ++
              " appears to have been replaced by " ++ ie_pkgname ie ++
              ". Do you want to update?" in
            if negb (confirm_cb msg "Update" "Don't Update" 0 =? MPORT_OK) then
              let st := mkState (h st)
                          (actions st ++ [Delete (name pack);
                                          Install (ie_pkgname ie) (automatic pack)])
                          (updated st) (total st) (vectors st) (reads st) in
              let st := mark_processed st (ie_pkgname ie) 0 in
              Some (inl (count (mkState (h st) (actions st) (updated st + 1) (total st)
                                        (vectors st) (reads st))))
            else Some (inl (count st))
        end
    else Some (inl (count st))
  else Some (inl (count st)).

Fixpoint upgrade_packs (fuel : nat) (packs : list mportPackageMeta) (st : upgrade_state)
  : option (upgrade_state * Z) :=
  match packs with
  | [] => Some (st, MPORT_OK)
  | pack :: rest =>
      match upgrade_one fuel pack st with
      | None => None
      | Some (inr ret) => Some (st, ret)
      | Some (inl st) => upgrade_packs fuel rest st
      end
  end.

End Upgrade.

End Planner.

(** ** The command line front end (the C file stored as
       src/cmake/FindDispatch.cmake) *)
Module Cli.
Import Store.

Open Scope string_scope.
Open Scope Z_scope.

Notation "x <- r ;; k" := (run_bind r (fun x => k))
  (at level 61, r at next level, right associativity).

(** SQL [LOWER]: the ASCII letters only. *)
Definition lower_ascii (c : ascii) : ascii :=
  let n := N_of_ascii c in
  if ((65 <=? n) && (n <=? 90))%N then ascii_of_N (n + 32) else c.

Fixpoint LOWER (s : string) : string :=
  match s with
  | EmptyString => EmptyString
  | String c s' => String (lower_ascii c) (LOWER s')
  end.

(** What the process is run with: the answers of the library calls that are
    not modelled, and of the confirmation callback.  [mport_upgrade] is
    what the two passes of that function return once the list of installed
    packages is in hand. *)
Record process : Type := mkProcess {
  force : bool;                 (* -f *)
  mport_instance_init : Z;
  mport_index_load : Z;
  mport_upgrade : Z;
  mport_index_get : Z;
  confirm_cb : string -> string -> string -> Z -> Z
}.

(** The status that [exit(code)] hands to the parent process. *)
Definition exit_status (code : Z) : Z := code mod 256.


Definition search_lower (db : tables) (arg : string) : run (Z * vec) :=
  mport_pkgmeta_search_master db (fun m => String.eqb (LOWER (name m)) (LOWER arg)).

(** First pass of [deleteMany]: the number of packages that match. *)
Fixpoint count_packages (db : tables) (args : list string) : run Z :=
  match args with
  | [] => Done 0
  | arg :: rest =>
      r <- search_lower db arg ;;
      n <- count_packages db rest ;;
      match r with
      | (0, Some packs) => Done (Z.of_nat (length packs) + n)
      | _ => Done n
      end
  end.

(** Second pass: a locked package takes [continue] without [packs++]. *)
Fixpoint delete_packs (p : process) (db : tables) (packs : list mportPackageMeta)
  : run tables :=
  match packs with
  | [] => Done db
  | pack :: rest =>
      if Installer.mport_lock_islocked pack =? MPORT_LOCKED then Diverges
      else delete_packs p (fst (Installer.mport_delete_primative db pack (force p))) rest
  end.

Fixpoint delete_args (p : process) (db : tables) (args : list string) : run tables :=
  match args with
  | [] => Done db
  | arg :: rest =>
      r <- search_lower db arg ;;
      match r with
      | (0, Some packs) =>
          db <- delete_packs p db packs ;;
          delete_args p db rest
      | _ => delete_args p db rest
      end
  end.

(** [deleteMany(mport, argc, argv, true)]; [args] is [argv] without
    [argv[0]]. *)
Definition deleteMany (p : process) (db : tables) (args : list string)
  : run (tables * Z) :=
  let resultCode := MPORT_OK in
  package_count <- count_packages db args ;;
  if package_count =? 0 then Done (db, MPORT_ERR_WARN)
  else if negb (confirm_cb p "Proceed with deinstalling packages?"
                  "Delete" "Don't delete" 0 =? MPORT_OK)
  then Done (db, MPORT_ERR_WARN)
  else
    db <- delete_args p db args ;;
    Done (db, resultCode).


(** [loadIndex]: a failure other than a warning ends the process with
    status 4. *)
Definition loadIndex (p : process) : option Z :=
  if (mport_index_load p =? MPORT_ERR_WARN) || (mport_index_load p =? MPORT_OK)
  then None else Some 4.


End Cli.

(** ** libmport/ping.c *)
Module Ping.

Open Scope Z_scope.

Notation "x <- r ;; k" := (run_bind r (fun x => k))
  (at level 61, r at next level, right associativity).

(** A byte of memory and its value as [unsigned char]. *)
Definition byte_value (c : ascii) : Z := Z.of_N (N_of_ascii c).

(** [*buffer] for [unsigned short *buffer]: two bytes, the low one first
    (the targets of the project are little-endian). *)
Definition load_short (lo hi : ascii) : Z := byte_value lo + 256 * byte_value hi.

(** The two bytes an assignment to an [unsigned short] writes. *)
Definition store_short (v : Z) : list ascii :=
  [ascii_of_N (Z.to_N (v mod 256)); ascii_of_N (Z.to_N ((v / 256) mod 256))].

(** The loop and the odd byte of [calculateChecksum]; [sum] is an
    [unsigned long], [buffer] the bytes from the pointer on.  Reading more
    bytes than the object holds is undefined. *)
Fixpoint sum_shorts (buffer : list ascii) (length : Z) (sum : Z) : run Z :=
  if length >? 1 then
    match buffer with
    | lo :: hi :: rest =>
        sum_shorts rest (length - 2) ((sum + load_short lo hi) mod 2 ^ 64)
    | _ => Undefined
    end
  else if length =? 1 then
    match buffer with
    | b :: _ => Done ((sum + byte_value b) mod 2 ^ 64)
    | [] => Undefined
    end
  else Done sum.

(** [calculateChecksum(buffer, length)] *)
Definition calculateChecksum (buffer : list ascii) (length : Z) : run Z :=
  sum <- sum_shorts buffer length 0 ;;
  let sum := (Z.shiftr sum 16 + Z.land sum 65535) mod 2 ^ 64 in
  let sum := (sum + Z.shiftr sum 16) mod 2 ^ 64 in
  Done (Z.lnot sum mod 2 ^ 16).

End Ping.

(** ** More branches of [main] (src/cmake/FindDispatch.cmake) *)
Module Dispatch.
Import Store Cli.

Open Scope string_scope.
Open Scope Z_scope.

(** A call either returns its code to [main] or ends the process itself
    ([errx]). *)
Inductive outcome : Type :=
| Returned (code : Z)
| Exited (status : Z).

(** The commands that call one function per argument and keep a failure
    code in [resultCode]: [add], [install], and [cpe] and [purl] when they
    are given arguments. *)
Inductive each_command : Type := Add | Install | Cpe | Purl.

Section Main.

Variable p : process.

(** The call made for the [i]-th argument: [add], [install], [cpeGet] or
    [purlGet]; what it returns may depend on the calls before it. *)
Variable call : each_command -> nat -> string -> outcome.

(** [for (i = 1; i < argc; i++) { tempResultCode = f(argv[i]);
    if (tempResultCode != 0) resultCode = tempResultCode; }] *)
Fixpoint each_argument (cmd : each_command) (args : list string) (i : nat)
  (resultCode : Z) : outcome :=
  match args with
  | [] => Returned resultCode
  | arg :: rest =>
      match call cmd i arg with
      | Exited status => Exited status
      | Returned tempResultCode =>
          each_argument cmd rest (S i)
            (if negb (tempResultCode =? 0) then tempResultCode else resultCode)
      end
  end.

(** [main] for these commands with the arguments [arg :: rest], from
    [mport_instance_init] on: [resultCode] starts as MPORT_ERR_FATAL;
    [install] loads the index first; the process ends with
    [exit(resultCode)]. *)
Definition main_each (cmd : each_command) (arg : string) (rest : list string) : Z :=
  let resultCode := MPORT_ERR_FATAL in
  if negb (mport_instance_init p =? MPORT_OK) then exit_status 1
  else
    let loaded :=
      match cmd with
      | Install => loadIndex p
      | Add | Cpe | Purl => None
      end in
    match loaded with
    | Some status => exit_status status
    | None =>
        match each_argument cmd (arg :: rest) 1 resultCode with
        | Exited status => exit_status status
        | Returned resultCode => exit_status resultCode
        end
    end.

(** [mport version -t <v1> <v2>]: what is printed and the exit status;
    a missing version makes [main] return -2. *)
Definition main_version_t (v1 v2 : option string) : run (option ascii * Z) :=
  if negb (mport_instance_init p =? MPORT_OK) then Done (None, exit_status 1)
  else
    match v1, v2 with
    | Some v1, Some v2 =>
        run_bind (Version.mport_version_cmp v1 v2) (fun resultCode =>
          Done (Some (if resultCode =? 0 then "="%char
                      else if resultCode =? -1 then "<"%char
                      else ">"%char),
                exit_status resultCode))
    | _, _ => Done (None, exit_status (-2))
    end.

End Main.

End Dispatch.

(** ** [selectMirror] (src/cmake/FindDispatch.cmake) *)
Module Mirror.
Import Version.

Open Scope string_scope.
Open Scope Z_scope.

Notation "x <- r ;; k" := (run_bind r (fun x => k))
  (at level 61, r at next level, right associativity).

(** [mportMirrorEntry]: the country and the allocation that holds the url
    with its terminator. *)
Record mportMirrorEntry : Type := mkMirror {
  country : string;
  url : list ascii
}.

(** [strchr(s, c)] for [c <> NUL]: the index of the first [c] of the C
    string at [s], [None] for a NULL result; a pointer past the end of its
    allocation, or an allocation without terminator, is read out of
    bounds. *)
Fixpoint strchr (s : list ascii) (c : ascii) : run (option nat) :=
  match s with
  | [] => Undefined
  | x :: s' =>
      if is_nul x then Done None
      else if Ascii.eqb x c then Done (Some O)
      else run_map (option_map S) (strchr s' c)
  end.

(** [strlcpy(dst, src, size)]: what the destination holds as a string. *)
Definition strlcpy (src : list ascii) (size : nat) : list ascii :=
  firstn (pred size) (cstr src).

(** The host name [selectMirror] hands to [ping]: the url is cut at its
    first [/], the pointer moved two bytes on, and what it points to cut at
    the next [/]; without a first [/] the second [strchr] is given NULL. *)
Definition hostname (url : list ascii) : run (list ascii) :=
  p <- strchr url "/" ;;
  match p with
  | None => Undefined
  | Some i =>
      let url := poke_nul i url in
      let p := skipn (i + 2) url in
      end_ <- strchr p "/" ;;
      let p := match end_ with Some j => poke_nul j p | None => p end in
      Done (strlcpy p 256)
  end.

Section Select.

(** [ping(hostname)] for the [i]-th mirror: the round trip time in
    milliseconds, or -1. *)
Variable ping : nat -> list ascii -> Z.

(** The [while] loop over the mirror entries. *)
Fixpoint try_mirrors (mirrors : list mportMirrorEntry) (i : nat)
  (fastest : Z) (chosen : string) : run (Z * string) :=
  match mirrors with
  | [] => Done (fastest, chosen)
  | m :: rest =>
      h <- hostname (url m) ;;
      let rtt := ping i h in
      if negb (rtt =? -1) && (rtt <? fastest)
      then try_mirrors rest (S i) rtt (country m)
      else try_mirrors rest (S i) fastest chosen
  end.

(** [selectMirror]: [mirrors] is what [mport_index_mirror_list] stored
    ([None] for NULL); the setting is written through
    [mport_setting_set].  The result is the region stored and the value
    returned; the release of the vector that follows a successful store
    lies in [mport_index_mirror_entry_free_vec] and is not modelled. *)
Definition selectMirror (mirrors : option (list mportMirrorEntry))
  (mport_setting_set : string -> Z) (mport_err_code : Z) : run (string * Z) :=
  r <- try_mirrors (match mirrors with Some l => l | None => [] end) 0 1000 "us" ;;
  let '(fastest, chosen) := r in
  let result := mport_setting_set chosen in
  if negb (result =? MPORT_OK) then Done (chosen, mport_err_code)
  else Done (chosen, MPORT_OK).

End Select.

End Mirror.

(** ** Sample files ([parse_sample], [create_sample_file])

    A C string is given by its bytes before the terminator.  The buffers of
    [create_sample_file] are local arrays that [snprintf] and [strlcpy]
    always terminate. *)
Module Sample.
Import Version.

Open Scope string_scope.
Open Scope list_scope.
Open Scope Z_scope.

Definition FILENAME_MAX : nat := 1024.

(** The string [snprintf(dst, size, ...)] or [strlcpy(dst, src, size)]
    leaves in [dst] when [s] is the whole text. *)
Definition bounded (size : nat) (s : list ascii) : list ascii :=
  firstn (pred size) s.

(** Membership in the delimiter set of [strsep(&input, " \t")]. *)
Definition is_blank (c : ascii) : bool := Ascii.eqb c " " || Ascii.eqb c "009".

(** [strsep(&input, " \t")] on an input that is not NULL: the token, and
    the new value of [input] ([None] for NULL).  The delimiter found is
    overwritten by a terminator, so the token ends there. *)
Fixpoint strsep (input : list ascii) : list ascii * option (list ascii) :=
  match input with
  | [] => ([], None)
  | c :: s =>
      if is_blank c then ([], Some s)
      else let (tok, rest) := strsep s in (c :: tok, rest)
  end.

Lemma strsep_length (input : list ascii) :
  forall tok rest, strsep input = (tok, Some rest) ->
                   (length rest < length input)%nat.
Proof.
  induction input as [|c s IH]; simpl; intros tok rest H; [discriminate|].
  destruct (is_blank c); [injection H as _ <-; lia|].
  destruct (strsep s) as [t [r|]] eqn:E; [|discriminate].
  injection H as _ <-; specialize (IH _ _ eq_refl); lia.
Qed.

(** The [for] loop of [parse_sample]: [argv] holds the slots filled so
    far, [ap] points to the slot after them.  An empty token is
    overwritten by the next one, a NULL from [strsep] ends the loop and
    leaves the remaining slots NULL, the third token ends it too. *)
Equations? fill (input : list ascii) (argv : list (list ascii))
  : list (list ascii) by wf (length input) lt :=
  fill input argv with inspect (strsep input) := {
    | exist _ ([], None) _ => argv
    | exist _ ([], Some rest) H => fill rest argv
    | exist _ (c :: tok, None) _ => argv ++ [c :: tok]
    | exist _ (c :: tok, Some rest) H =>
        if (3 <=? length (argv ++ [c :: tok]))%nat then argv ++ [c :: tok]
        else fill rest (argv ++ [c :: tok]) }.
Proof.
  all: exact (strsep_length _ _ _ H).
Qed.

(** [strncasecmp(s, find, strlen(find)) == 0] in the C locale. *)
Definition tolower (c : ascii) : ascii :=
  let n := nat_of_ascii c in
  if ((65 <=? n) && (n <=? 90))%nat then ascii_of_nat (n + 32) else c.

Fixpoint matches (find s : list ascii) : bool :=
  match find, s with
  | [], _ => true
  | f :: find', c :: s' => Ascii.eqb (tolower f) (tolower c) && matches find' s'
  | _ :: _, [] => false
  end.

(** [strcasestr(s, find)]: the index of the first match, [None] for
    NULL. *)
Fixpoint strcasestr (s find : list ascii) : option nat :=
  if matches find s then Some O
  else match s with
       | [] => None
       | _ :: s' => option_map S (strcasestr s' find)
       end.

Definition starts_with_slash (s : list ascii) : bool :=
  match s with
  | c :: _ => Ascii.eqb c "/"
  | [] => false
  end.

Section Host.

(** [mport->root], the two file operations, [mport_err_code()] after a
    failed copy, and whether [calloc] gave memory. *)
Variable root : list ascii.
Variable mport_file_exists : list ascii -> bool.
Variable mport_copy_file : list ascii -> list ascii -> Z.
Variable mport_err_code : Z.
Variable calloc_ok : bool.

Definition parse_sample (input : list ascii) : option (list (list ascii)) :=
  if calloc_ok then Some (fill input []) else None.

(** [create_sample_file(mport, cwd, file)]: the copy made, if any, as
    (from, to), and the value returned.  [fileargv] is read without a test
    for NULL. *)
Definition create_sample_file (cwd file : list ascii)
  : run (option (list ascii * list ascii) * Z) :=
  let nonSample :=
    if negb (starts_with_slash file)
    then bounded FILENAME_MAX (root ++ cwd ++ "/"%char :: file)
    else bounded (FILENAME_MAX * 2) file in
  match parse_sample nonSample with
  | None => Undefined
  | Some fileargv =>
      (* the first [strsep] has cut the buffer at its first blank *)
      let nonSample := fst (strsep nonSample) in
      match nth_error fileargv 1 with
      | Some second =>
          let secondFile :=
            if starts_with_slash second then bounded FILENAME_MAX second
            else bounded FILENAME_MAX (root ++ cwd ++ "/"%char :: second) in
          if negb (mport_file_exists secondFile) then
            let from := nth 0 fileargv [] in
            if negb (mport_copy_file from secondFile =? MPORT_OK)
            then Done (Some (from, secondFile), mport_err_code)
            else Done (Some (from, secondFile), MPORT_OK)
          else Done (None, MPORT_OK)
      | None =>
          (* single file *)
          match strcasestr nonSample (list_ascii_of_string ".sample") with
          | Some sptr =>
              let nonSample := firstn sptr nonSample in
              if negb (mport_file_exists nonSample) then
                if negb (mport_copy_file file nonSample =? MPORT_OK)
                then Done (Some (file, nonSample), mport_err_code)
                else Done (Some (file, nonSample), MPORT_OK)
              else Done (None, MPORT_OK)
          | None => Done (None, MPORT_OK)
          end
      end
  end.

End Host.

End Sample.

(** ** Listing the installed packages ([mport_list_print])

    A message is the format handed to [mport_call_msg_cb] with its
    arguments. *)
Module ListPrint.
Import Version Store.

Open Scope string_scope.
Open Scope Z_scope.

Notation "x <- r ;; k" := (run_bind r (fun x => k))
  (at level 61, r at next level, right associativity).

(** [enum _Verbosity] (mport.h) *)
Inductive mportVerbosity : Type :=
| MPORT_VQUIET | MPORT_VBRIEF | MPORT_VNORMAL | MPORT_VVERBOSE.

Definition verbosity_eqb (a b : mportVerbosity) : bool :=
  match a, b with
  | MPORT_VQUIET, MPORT_VQUIET | MPORT_VBRIEF, MPORT_VBRIEF
  | MPORT_VNORMAL, MPORT_VNORMAL | MPORT_VVERBOSE, MPORT_VVERBOSE => true
  | _, _ => false
  end.

(** [mportListPrint] (mport.h): the fields [verbose], [origin], [update],
    [locks] and [prime]. *)
Record mportListPrint : Type := mkListPrint {
  print_verbose : bool;
  print_origin : bool;
  print_update : bool;
  print_locks : bool;
  print_prime : bool
}.

(** [mportIndexEntry]: the version is tested for NULL before it is
    compared. *)
Record mportIndexEntry : Type := mkIndexEntry {
  pkgname : string;
  index_version : option string
}.

(** [mportIndexMovedEntry]: two of its character arrays. *)
Record mportIndexMovedEntry : Type := mkMoved {
  moved_to : string;
  date : string
}.

Inductive message : Type :=
| NotInRepository (n v : string)
    (* "%-30s %9s     is not part of the package repository." *)
| MovedTo (n v to : string)            (* "%-30s %9s     was moved to %s" *)
| ExpiredOn (n v on : string)          (* "%-30s %9s     expired on %s" *)
| Older (n v iv : string)              (* "%-30s %9s  <  %-9s" *)
| OlderVerbose (n v r iv ip : string)  (* "%-30s %9s (%s)  <  %-9s %-30s" *)
| NameVersion (n v : string)           (* "%s-%s" *)
| Detail (nv r c : string)             (* "%-30s\t%6s\t%s" *)
| Plain (s : string)                   (* "%s" *)
| Information (n v o : string).        (* "Information for %s-%s:\n\nOrigin:\n%s\n" *)

Definition is_empty (s : string) : bool :=
  match s with EmptyString => true | String _ _ => false end.

Section Print.

(** [mport->verbosity]; the [os_release] and [comment] fields of an
    installed package's record; [mport_str_remove(str, '\\')]; what
    [mport_get_osrelease] returns ([None] for NULL); the two index
    queries with the vector each stores. *)
Variable verbosity : mportVerbosity.
Variable os_release : mportPackageMeta -> string.
Variable comment : mportPackageMeta -> string.
Variable mport_str_remove : string -> string.
Variable mport_get_osrelease : option string.
Variable mport_index_lookup_pkgname : string -> Z * option (list mportIndexEntry).
Variable mport_moved_lookup : string -> Z * option (list mportIndexMovedEntry).

(** The loop over the index entries of one package.  A line is printed
    with the entry's version as a [%s] argument; no test for NULL guards
    it when the second comparison alone decides. *)
Fixpoint print_older (p : mportPackageMeta) (system_release : string)
  (indexEntries : list mportIndexEntry) : run (list message) :=
  match indexEntries with
  | [] => Done []
  | e :: rest =>
      newer <- match index_version e with
               | Some iv => r <- mport_version_cmp (version p) iv ;; Done (r <? 0)
               | None => Done false
               end ;;
      older <- (if newer then Done true
                else r <- mport_version_cmp (os_release p) system_release ;;
                     Done (r <? 0)) ;;
      line <- (if older then
                 match index_version e with
                 | None => Undefined
                 | Some iv =>
                     if verbosity_eqb verbosity MPORT_VVERBOSE
                     then Done [OlderVerbose (name p) (version p) (os_release p)
                                  iv (pkgname e)]
                     else Done [Older (name p) (version p) iv]
                 end
               else Done []) ;;
      more <- print_older p system_release rest ;;
      Done (line ++ more)%list
  end.

(** The second lookup, by origin, and the loop after it. *)
Definition print_by_origin (p : mportPackageMeta) (system_release : string)
  : run (list message * option Z) :=
  let '(rc, indexEntries) := mport_index_lookup_pkgname (origin p) in
  if negb (rc =? MPORT_OK) then Done ([], Some MPORT_ERR_FATAL)
  else
    match indexEntries with
    | Some (e :: es) =>
        lines <- print_older p system_release (e :: es) ;; Done (lines, None)
    | _ => Done ([NotInRepository (name p) (version p)], None)
    end.

(** The body of the outer loop when [print->update] is set: the lines of
    one package and, when the function returns from inside the loop, the
    value returned. *)
Definition print_update_of (p : mportPackageMeta) (system_release : string)
  : run (list message * option Z) :=
  let '(rc, indexEntries) := mport_index_lookup_pkgname (name p) in
  if negb (rc =? MPORT_OK) then Done ([], Some MPORT_ERR_FATAL)
  else
    match indexEntries with
    | Some (e :: es) =>
        lines <- print_older p system_release (e :: es) ;; Done (lines, None)
    | _ =>
        let '(rc, movedEntries) := mport_moved_lookup (origin p) in
        if negb (rc =? MPORT_OK)
        then Done ([NotInRepository (name p) (version p)], None)
        else
          match movedEntries with
          | Some (m :: _) =>
              if negb (is_empty (moved_to m))
              then Done ([MovedTo (name p) (version p) (moved_to m)], None)
              else if negb (is_empty (date m))
              then Done ([ExpiredOn (name p) (version p) (date m)], None)
              else print_by_origin p system_release
          | _ => print_by_origin p system_release
          end
    end.

(** The body of the outer loop when [print->update] is not set. *)
Definition print_line (print : mportListPrint) (p : mportPackageMeta)
  : list message :=
  if verbosity_eqb verbosity MPORT_VBRIEF then [NameVersion (name p) (version p)]
  else if verbosity_eqb verbosity MPORT_VVERBOSE || print_verbose print then
    let comment := mport_str_remove (comment p) in
    let name_version := String.substring 0 29 (name p ++ "-" ++ version p) in
    [Detail name_version (os_release p) comment]
  else if print_prime print && (automatic p =? 0) then [Plain (name p)]
  else if verbosity_eqb verbosity MPORT_VQUIET && negb (print_origin print)
  then [Plain (name p)]
  else if verbosity_eqb verbosity MPORT_VQUIET && print_origin print
  then [Plain (origin p)]
  else if print_origin print
  then [Information (name p) (version p) (origin p)]
  else if print_locks print then
    if locked p =? 1 then [NameVersion (name p) (version p)] else []
  else [NameVersion (name p) (version p)].

(** The [while ( *packs != NULL )] loop. *)
Fixpoint print_packs (print : mportListPrint) (system_release : string)
  (packs : list mportPackageMeta) : run (list message * Z) :=
  match packs with
  | [] => Done ([], MPORT_OK)
  | p :: rest =>
      if print_update print then
        r <- print_update_of p system_release ;;
        match snd r with
        | Some code => Done (fst r, code)
        | None =>
            r' <- print_packs print system_release rest ;;
            Done ((fst r ++ fst r')%list, snd r')
        end
      else
        r' <- print_packs print system_release rest ;;
        Done ((print_line print p ++ fst r')%list, snd r')
  end.

(** [mport_list_print]: the messages in the order sent and the value
    returned. *)
Definition mport_list_print (db : tables) (print : mportListPrint)
  : run (list message * Z) :=
  r <- mport_pkgmeta_list db ;;
  let '(ret, packs) := r in
  if negb (ret =? MPORT_OK) then Done ([], ret)
  else
    match packs with
    | None => Done ([], MPORT_ERR_WARN)
    | Some packs =>
        match mport_get_osrelease with
        | None => Done ([], MPORT_ERR_WARN)
        | Some system_release => print_packs print system_release packs
        end
    end.

End Print.

End ListPrint.

(** ** The specification's reference comparison (section 4.A)

    Written from the specification's words, independently of the code
    above: a version string parses to (epoch, base, revision); the suffix
    [,N] sets the epoch, the suffix [_N] sets the revision, a [<] or [>]
    truncates the string there; epochs, then bases, then revisions are
    compared, the bases token by token. *)
Module VersionSpec.

Open Scope Z_scope.

Definition code_point (c : ascii) : Z := Z.of_N (N_of_ascii c).

Definition is_digit (c : ascii) : bool :=
  (code_point "0" <=? code_point c) && (code_point c <=? code_point "9").

Definition is_separator (c : ascii) : bool :=
  Ascii.eqb c "."%char || Ascii.eqb c "+"%char.

Definition is_range_op (c : ascii) : bool :=
  Ascii.eqb c "<"%char || Ascii.eqb c ">"%char.

(** The string up to its first [<] or [>]. *)
Fixpoint truncate (s : list ascii) : list ascii :=
  match s with
  | [] => []
  | c :: s' => if is_range_op c then [] else c :: truncate s'
  end.

(** The position of the last occurrence of [ch]. *)
Fixpoint last_index (ch : ascii) (s : list ascii) : option nat :=
  match s with
  | [] => None
  | x :: s' =>
      match last_index ch s' with
      | Some i => Some (S i)
      | None => if Ascii.eqb x ch then Some O else None
      end
  end.

(** A maximal decimal run at the head of a string, and what follows it. *)
Fixpoint decimal_run (s : list ascii) : list ascii :=
  match s with
  | c :: s' => if is_digit c then c :: decimal_run s' else []
  | [] => []
  end.

Fixpoint after_run (s : list ascii) : list ascii :=
  match s with
  | c :: s' => if is_digit c then after_run s' else s
  | [] => []
  end.

(** The number a run of digits denotes. *)
Definition decimal (digits : list ascii) : Z :=
  fold_left (fun acc d => 10 * acc + (code_point d - code_point "0")) digits 0.

(** The [N] of a suffix [,N] or [_N]. *)
Definition number (s : list ascii) : Z := decimal (decimal_run s).

Definition suffix_number (ch : ascii) (s : list ascii) : Z :=
  match last_index ch s with
  | Some i => number (skipn (S i) s)
  | None => 0
  end.

(** Where the base ends: at the first of the two suffixes. *)
Definition base_end (s : list ascii) : nat :=
  let at_or_end (p : option nat) := match p with Some i => i | None => length s end in
  Nat.min (at_or_end (last_index "," s)) (at_or_end (last_index "_" s)).

Record parsed : Type := mkParsed {
  epoch : Z;
  base : list ascii;
  revision : Z
}.

Definition parse (s : list ascii) : parsed :=
  let t := truncate s in
  mkParsed (suffix_number "," t) (firstn (base_end t) t) (suffix_number "_" t).

(** The tokens of a base: skip a run of separators, then a maximal decimal
    run is one number, any other character is its code point. *)
Fixpoint skip_run (s : list ascii) : list ascii :=
  match s with
  | c :: s' => if is_separator c then skip_run s' else s
  | [] => []
  end.

Lemma skip_run_length (s : list ascii) : (length (skip_run s) <= length s)%nat.
Proof.
  induction s as [|c s IH]; simpl; [lia|].
  destruct (is_separator c); simpl; lia.
Qed.

Lemma after_run_length (s : list ascii) : (length (after_run s) <= length s)%nat.
Proof.
  induction s as [|c s IH]; simpl; [lia|].
  destruct (is_digit c); simpl; lia.
Qed.

Equations? tokens (s : list ascii) : list Z by wf (length s) lt :=
  tokens s with Version.inspect (skip_run s) := {
    | exist _ [] _ => []
    | exist _ (c :: r) Hs with Version.inspect (is_digit c) := {
        | exist _ true _ => decimal (c :: decimal_run r) :: tokens (after_run r)
        | exist _ false _ => code_point c :: tokens r } }.
Proof.
  all: pose proof (skip_run_length s) as L; rewrite Hs in L; simpl in L.
  - pose proof (after_run_length r); lia.
  - lia.
Qed.

(** Numeric comparison of two tokens. *)
Definition compare (a b : Z) : Z :=
  if a <? b then -1 else if b <? a then 1 else 0.

(** The lockstep walk over the two token sequences; the shorter one is
    padded with zero tokens; the first non-equal step decides. *)
Fixpoint compare_padding (ys : list Z) : Z :=
  match ys with
  | [] => 0
  | y :: ys' => if compare 0 y =? 0 then compare_padding ys' else compare 0 y
  end.

Fixpoint compare_tokens (xs ys : list Z) : Z :=
  match xs with
  | [] => compare_padding ys
  | x :: xs' =>
      match ys with
      | [] => if compare x 0 =? 0 then compare_tokens xs' [] else compare x 0
      | y :: ys' => if compare x y =? 0 then compare_tokens xs' ys' else compare x y
      end
  end.

Definition compare_base (a b : list ascii) : Z :=
  compare_tokens (tokens a) (tokens b).

(** Epochs, then bases, then revisions. *)
Definition version_cmp_bytes (a b : list ascii) : Z :=
  let pa := parse a in
  let pb := parse b in
  if compare (epoch pa) (epoch pb) =? 0 then
    if compare_base (base pa) (base pb) =? 0 then
      compare (revision pa) (revision pb)
    else compare_base (base pa) (base pb)
  else compare (epoch pa) (epoch pb).

Definition version_cmp (a b : string) : Z :=
  version_cmp_bytes (list_ascii_of_string a) (list_ascii_of_string b).

End VersionSpec.

(** * Properties *)

(** ** Version comparison *)
Module VersionFacts.
Import Version.
Open Scope Z_scope.

(** The loop, one iteration unfolded. *)
Lemma cmp_versions_loop_eq (a b : list ascii) (result : Z) :
  cmp_versions_loop a b result =
  match loop_cond a b with
  | Undefined => Undefined
  | Diverges => Diverges
  | Done false => Done result
  | Done true =>
      match next_sub a with
      | Undefined => Undefined
      | Diverges => Diverges
      | Done (a_sub, a') =>
          match next_sub b with
          | Undefined => Undefined
          | Diverges => Diverges
          | Done (b_sub, b') =>
              if cmp_ints a_sub b_sub =? 0
              then cmp_versions_loop a' b' (cmp_ints a_sub b_sub)
              else Done (cmp_ints a_sub b_sub)
          end
      end
  end.
Proof.
  funelim (cmp_versions_loop a b result).
  all: repeat match goal with
         | H : ?x = _ |- context [match ?x with _ => _ end] => rewrite H
         end; try reflexivity.
Qed.

(** *** Antisymmetry *)

Lemma cmp_ints_antisym (a b : Z) : cmp_ints b a = - cmp_ints a b.
Proof.
  unfold cmp_ints.
  destruct (Z.eqb_spec a b), (Z.eqb_spec b a), (Z.ltb_spec a b), (Z.ltb_spec b a);
    lia.
Qed.

Lemma cmp_ints_range (a b : Z) :
  cmp_ints a b = 0 \/ cmp_ints a b = -1 \/ cmp_ints a b = 1.
Proof.
  unfold cmp_ints; destruct (a =? b), (a <? b); auto.
Qed.

(** Neither side of the loop body nor the loop condition loops forever. *)
Lemma next_sub_returns (a : list ascii) : next_sub a <> Diverges.
Proof.
  unfold next_sub; destruct a as [|c r]; [discriminate|].
  destruct (is_nul c); [discriminate|].
  destruct (skip_seps (c :: r)) as [|d rest]; [discriminate|].
  destruct (isdigit d); [destruct (strtol (d :: rest))|]; discriminate.
Qed.

Lemma loop_cond_cons (ca cb : ascii) (ra rb : list ascii) :
  loop_cond (ca :: ra) (cb :: rb) = Done (negb (is_nul ca) || negb (is_nul cb)).
Proof.
  unfold loop_cond; destruct (is_nul ca), (is_nul cb); reflexivity.
Qed.

(** With a pointer past the end of its allocation the loop reads out of
    bounds, whichever side the pointer is on. *)
Lemma cmp_versions_loop_nil_l (b : list ascii) (result : Z) :
  cmp_versions_loop [] b result = Undefined.
Proof. rewrite cmp_versions_loop_eq; reflexivity. Qed.

Lemma cmp_versions_loop_nil_r (a : list ascii) (result : Z) :
  cmp_versions_loop a [] result = Undefined.
Proof.
  rewrite cmp_versions_loop_eq.
  destruct a as [|ca ra]; [reflexivity|].
  unfold loop_cond.
  pose proof (next_sub_returns (ca :: ra)) as Hr.
  destruct (next_sub (ca :: ra)) as [[a_sub a']| |]; destruct (is_nul ca);
    try reflexivity; congruence.
Qed.

(** Swapping the two pointers negates the loop's result, and keeps an
    out-of-bounds read an out-of-bounds read. *)
Lemma cmp_versions_loop_swap (n : nat) :
  forall (a b : list ascii) (result : Z),
    (length a + length b < n)%nat ->
    cmp_versions_loop b a (- result) = run_map Z.opp (cmp_versions_loop a b result).
Proof.
  induction n as [|n IH]; intros a b result Hn; [lia|].
  destruct a as [|ca ra].
  { rewrite cmp_versions_loop_nil_l, cmp_versions_loop_nil_r; reflexivity. }
  destruct b as [|cb rb].
  { rewrite cmp_versions_loop_nil_l, cmp_versions_loop_nil_r; reflexivity. }
  rewrite (cmp_versions_loop_eq (ca :: ra)), (cmp_versions_loop_eq (cb :: rb)).
  assert (Hs : loop_cond (cb :: rb) (ca :: ra) = loop_cond (ca :: ra) (cb :: rb))
    by (rewrite !loop_cond_cons; f_equal; apply orb_comm).
  rewrite Hs.
  destruct (loop_cond (ca :: ra) (cb :: rb)) as [[|]| |] eqn:Hl; try reflexivity.
  pose proof (next_sub_returns (ca :: ra)) as Ra.
  pose proof (next_sub_returns (cb :: rb)) as Rb.
  destruct (next_sub (ca :: ra)) as [[a_sub a']| |] eqn:Ha,
           (next_sub (cb :: rb)) as [[b_sub b']| |] eqn:Hb;
    try reflexivity; try congruence.
  rewrite (cmp_ints_antisym a_sub b_sub).
  destruct (Z.eqb_spec (cmp_ints a_sub b_sub) 0) as [E|E].
  - rewrite E; simpl (- 0 =? 0); cbv iota.
    change 0 with (- 0) at 1.
    apply IH.
    destruct (next_sub_length _ _ _ Ha) as [La Sa].
    destruct (next_sub_length _ _ _ Hb) as [Lb Sb].
    destruct (loop_cond_true _ _ Hl) as [(c & r & Ec & N)|(c & r & Ec & N)].
    + specialize (Sa _ _ Ec N); lia.
    + specialize (Sb _ _ Ec N); lia.
  - destruct (Z.eqb_spec (- cmp_ints a_sub b_sub) 0); [lia|reflexivity].
Qed.

Lemma cmp_versions_antisym (a b : list ascii) :
  cmp_versions b a = run_map Z.opp (cmp_versions a b).
Proof.
  unfold cmp_versions. change 0 with (- 0) at 1.
  apply (cmp_versions_loop_swap (S (length a + length b))); lia.
Qed.

Lemma cmp_ints_zero_sym (a b : Z) : (cmp_ints b a =? 0) = (cmp_ints a b =? 0).
Proof.
  rewrite cmp_ints_antisym.
  destruct (Z.eqb_spec (cmp_ints a b) 0), (Z.eqb_spec (- cmp_ints a b) 0); lia.
Qed.

Lemma mport_version_cmp_bytes_antisym (a b : list ascii) :
  mport_version_cmp_bytes b a = run_map Z.opp (mport_version_cmp_bytes a b).
Proof.
  unfold mport_version_cmp_bytes.
  rewrite cmp_ints_zero_sym.
  destruct (Z.eqb_spec (cmp_ints (v_epoch (parse_version a)) (v_epoch (parse_version b))) 0).
  - rewrite cmp_versions_antisym.
    destruct (cmp_versions (v_version (parse_version a)) (v_version (parse_version b)))
      as [r| |]; [|reflexivity|reflexivity].
    simpl.
    destruct (Z.eqb_spec r 0) as [->|Hr].
    + simpl. rewrite cmp_ints_antisym; reflexivity.
    + destruct (Z.eqb_spec (- r) 0); [lia|reflexivity].
  - simpl. rewrite cmp_ints_antisym; reflexivity.
Qed.

(** The two orders of a comparison walk the same bytes: whenever one call
    returns [r] the swapped call returns [- r], and the swapped call walks
    past the end of an allocation exactly when the first one does. *)
Lemma mport_version_cmp_swap (a b : string) :
  mport_version_cmp b a = run_map Z.opp (mport_version_cmp a b).
Proof.
  unfold mport_version_cmp; apply mport_version_cmp_bytes_antisym.
Qed.

(** C9 (the code at the failing input).  The versions [1.] and [1], in
    either order.  After the equal components 1 and 1, [cmp_versions] skips
    the dot of [1.], takes the terminator as the next component, and steps
    over it; the test of the loop then reads the byte after the copy that
    [parse_version] made with [strdup].  The call has no defined result:
    what it returns is decided by what the allocator left behind the
    copy, and nothing makes the two orders return negated values.  Were
    that byte readable, the walk would go on with it: with the letter A
    behind the copy of [1.] the first order gives 1, and with a zero byte
    behind it the second order gives 0. *)
Theorem mport_version_cmp_reads_past_copy :
  mport_version_cmp "1." "1" = Undefined /\
  mport_version_cmp "1" "1." = Undefined /\
  cmp_versions (strdup (list_ascii_of_string "1.")) (strdup (list_ascii_of_string "1"))
  = Undefined /\
  cmp_versions (strdup (list_ascii_of_string "1.") ++ ["A"%char])
               (strdup (list_ascii_of_string "1")) = Done 1 /\
  cmp_versions (strdup (list_ascii_of_string "1"))
               (strdup (list_ascii_of_string "1.") ++ [NUL]) = Done 0.
Proof. repeat split; vm_compute; reflexivity. Qed.

(** X30.  Whenever [mport_version_cmp a b] returns, the swapped call
    returns the negated value. *)
Theorem mport_version_cmp_antisym_returned (a b : string) (r : Z) :
  mport_version_cmp a b = Done r -> mport_version_cmp b a = Done (- r).
Proof.
  intros H; rewrite mport_version_cmp_swap, H; reflexivity.
Qed.

Lemma mport_version_cmp_antisym_returned_witness :
  mport_version_cmp "1.2_1" "1.10" = Done (-1) /\
  mport_version_cmp "1.10" "1.2_1" = Done 1.
Proof.
  split; [vm_compute; reflexivity|].
  apply (mport_version_cmp_antisym_returned "1.2_1" "1.10" (-1)).
  vm_compute; reflexivity.
Defined.

(** *** The code against the reference comparison *)

Import VersionSpec.

Lemma isdigit_is_digit (c : ascii) : isdigit c = is_digit c.
Proof. reflexivity. Qed.

Lemma cmp_ints_compare (a b : Z) : cmp_ints a b = compare a b.
Proof.
  unfold cmp_ints, compare.
  destruct (Z.eqb_spec a b), (Z.ltb_spec a b), (Z.ltb_spec b a); lia.
Qed.

(** The digit run of [strtol] is the reference's decimal run. *)
Lemma strtol_digits_run (s : list ascii) (acc : Z) :
  strtol_digits acc s =
  (fold_left (fun a d => 10 * a + (code_point d - code_point "0")) (decimal_run s) acc,
   after_run s).
Proof.
  revert acc; induction s as [|c s IH]; intros acc; simpl; [reflexivity|].
  rewrite isdigit_is_digit.
  destruct (is_digit c); simpl; [|reflexivity].
  rewrite IH; reflexivity.
Qed.

Lemma decimal_nonneg_from (ds : list ascii) (acc : Z) :
  0 <= acc -> forallb is_digit ds = true ->
  0 <= fold_left (fun a d => 10 * a + (code_point d - code_point "0")) ds acc.
Proof.
  revert acc; induction ds as [|d ds IH]; intros acc Ha Hd; cbn [fold_left]; [exact Ha|].
  cbn [forallb] in Hd; apply andb_true_iff in Hd; destruct Hd as [Hd Hds].
  apply IH; [|exact Hds].
  unfold is_digit in Hd; apply andb_true_iff in Hd; destruct Hd as [H1 _].
  apply Z.leb_le in H1. lia.
Qed.

Lemma decimal_run_digits (s : list ascii) : forallb is_digit (decimal_run s) = true.
Proof.
  induction s as [|c s IH]; simpl; [reflexivity|].
  destruct (is_digit c) eqn:E; simpl; [rewrite E; exact IH|reflexivity].
Qed.

Lemma number_nonneg (s : list ascii) : 0 <= number s.
Proof.
  unfold number, decimal; apply decimal_nonneg_from; [lia|apply decimal_run_digits].
Qed.

Lemma to_int_small (v : Z) : 0 <= v < 2 ^ 31 -> to_int (clamp_long v) = v.
Proof.
  intros H; unfold clamp_long, LONG_MIN, LONG_MAX, to_int.
  destruct (Z.ltb_spec v (- 2 ^ 63)); [lia|].
  destruct (Z.ltb_spec (2 ^ 63 - 1) v); [lia|].
  rewrite Z.mod_small; lia.
Qed.

(** A run stops at a byte that is not a digit, whatever follows. *)
Lemma decimal_run_app_stop (x r : list ascii) (c : ascii) :
  is_digit c = false -> decimal_run (x ++ c :: r) = decimal_run x.
Proof.
  intros Hc; induction x as [|d x IH]; simpl; [rewrite Hc; reflexivity|].
  destruct (is_digit d); [rewrite IH|]; reflexivity.
Qed.

Lemma after_run_app_stop (x r : list ascii) (c : ascii) :
  is_digit c = false -> after_run (x ++ c :: r) = after_run x ++ c :: r.
Proof.
  intros Hc; induction x as [|d x IH]; simpl; [rewrite Hc; reflexivity|].
  destruct (is_digit d); [rewrite IH|]; reflexivity.
Qed.

(** No white space and no sign at the head. *)
Definition plain_head (s : list ascii) : bool :=
  match s with
  | c :: _ => negb (isspace c) && negb (Ascii.eqb c "-") && negb (Ascii.eqb c "+")
  | [] => true
  end.

(** [strtol] on text that starts with neither white space nor a sign. *)
Lemma strtol_plain (s : list ascii) :
  plain_head s = true ->
  fst (strtol s) = clamp_long (decimal (decimal_run s)).
Proof.
  intros Hp; unfold strtol.
  destruct s as [|c s]; [reflexivity|].
  simpl in Hp.
  apply andb_true_iff in Hp; destruct Hp as [Hp Hplus].
  apply andb_true_iff in Hp; destruct Hp as [Hsp Hminus].
  apply negb_true_iff in Hsp, Hminus, Hplus.
  cbn [skip_space]; rewrite Hsp, Hminus, Hplus.
  rewrite isdigit_is_digit.
  destruct (is_digit c) eqn:Hd.
  - rewrite strtol_digits_run; reflexivity.
  - cbn [decimal_run]; rewrite Hd; reflexivity.
Qed.

(** **** The walk over the two bases *)

Lemma tokens_eq (s : list ascii) :
  tokens s =
  match skip_run s with
  | [] => []
  | c :: r =>
      if is_digit c then decimal (c :: decimal_run r) :: tokens (after_run r)
      else code_point c :: tokens r
  end.
Proof.
  funelim (tokens s).
  all: repeat match goal with
         | H : ?x = _ |- context [match ?x with _ => _ end] => rewrite H
         | H : ?x = _ |- context [if ?x then _ else _] => rewrite H
         end; reflexivity.
Qed.

Definition nul_free (x : list ascii) : bool := forallb (fun c => negb (is_nul c)) x.

Definition ascii7 (x : list ascii) : bool := forallb (fun c => code_point c <? 128) x.

Definition ends_clean (x : list ascii) : bool :=
  match rev x with
  | c :: _ => negb (is_separator c)
  | [] => true
  end.

Definition small (v : Z) : bool := v <? 2 ^ 31.

(** A base the walk of the code handles like the reference does: bytes
    below 128, no separator at the end, every number below 2^31. *)
Definition clean_base (x : list ascii) : bool :=
  nul_free x && ascii7 x && ends_clean x && forallb small (tokens x).

Lemma clean_base_parts (x : list ascii) :
  clean_base x = true ->
  nul_free x = true /\ ascii7 x = true /\ ends_clean x = true /\
  forallb small (tokens x) = true.
Proof.
  unfold clean_base; intros H.
  repeat (apply andb_true_iff in H; destruct H as [H ?]); auto.
Qed.

Lemma ends_clean_suffix (pre x : list ascii) :
  ends_clean (pre ++ x) = true -> ends_clean x = true.
Proof.
  unfold ends_clean; rewrite rev_app_distr.
  destruct (rev x) as [|c r]; [reflexivity|]; simpl; auto.
Qed.

Lemma skip_run_suffix (x : list ascii) : exists pre, x = pre ++ skip_run x.
Proof.
  induction x as [|c x [pre IH]]; simpl; [exists []; reflexivity|].
  destruct (is_separator c); [exists (c :: pre); simpl; congruence|exists []; reflexivity].
Qed.

Lemma after_run_suffix (x : list ascii) : exists pre, x = pre ++ after_run x.
Proof.
  induction x as [|c x [pre IH]]; simpl; [exists []; reflexivity|].
  destruct (is_digit c); [exists (c :: pre); simpl; congruence|exists []; reflexivity].
Qed.

Lemma skip_run_nonempty (x : list ascii) :
  x <> [] -> ends_clean x = true -> skip_run x <> [].
Proof.
  induction x as [|c x IH]; intros Hne He; [contradiction|].
  simpl. destruct (is_separator c) eqn:Hs; [|discriminate].
  destruct x as [|d x].
  - unfold ends_clean in He; simpl in He; rewrite Hs in He; discriminate.
  - apply IH; [discriminate|].
    apply (ends_clean_suffix [c]); exact He.
Qed.

Lemma skip_run_head (x : list ascii) (d : ascii) (rest : list ascii) :
  skip_run x = d :: rest -> is_separator d = false.
Proof.
  induction x as [|c x IH]; simpl; [discriminate|].
  destruct (is_separator c) eqn:Hs; [exact IH|].
  intros E; injection E as <- _; exact Hs.
Qed.

(** The code skips the separators of the base and stops at its NUL. *)
Lemma skip_seps_base (x rx : list ascii) :
  skip_seps (x ++ NUL :: rx) = skip_run x ++ NUL :: rx.
Proof.
  induction x as [|c x IH]; [reflexivity|].
  simpl. fold (is_separator c).
  destruct (is_separator c); [exact IH|reflexivity].
Qed.

Lemma suffix_clean (pre x : list ascii) :
  clean_base (pre ++ x) = true ->
  forallb small (tokens x) = true ->
  clean_base x = true.
Proof.
  intros H Ht; apply clean_base_parts in H; destruct H as (Hn & Ha & He & _).
  unfold clean_base, nul_free, ascii7 in *.
  rewrite forallb_app in Hn, Ha.
  apply andb_true_iff in Hn, Ha; destruct Hn as [_ Hn], Ha as [_ Ha].
  rewrite Hn, Ha, (ends_clean_suffix _ _ He), Ht; reflexivity.
Qed.

Lemma next_sub_at_nul (rx : list ascii) : next_sub (NUL :: rx) = Done (0, NUL :: rx).
Proof. reflexivity. Qed.

(** One step of the code on a clean base is one token of the reference. *)
Lemma next_sub_token (x rx : list ascii) :
  clean_base x = true -> x <> [] ->
  exists v x',
    next_sub (x ++ NUL :: rx) = Done (v, x' ++ NUL :: rx) /\
    tokens x = v :: tokens x' /\
    clean_base x' = true /\
    (length x' < length x)%nat.
Proof.
  intros Hc Hne.
  destruct (clean_base_parts _ Hc) as (Hn & Ha & He & Ht).
  destruct x as [|c r]; [contradiction|].
  unfold next_sub; cbn [app].
  assert (Hc0 : is_nul c = false).
  { unfold nul_free in Hn; simpl in Hn; apply andb_true_iff in Hn.
    destruct Hn as [Hn _]; apply negb_true_iff in Hn; exact Hn. }
  rewrite Hc0.
  change (c :: r ++ NUL :: rx) with ((c :: r) ++ NUL :: rx).
  rewrite skip_seps_base.
  pose proof (skip_run_nonempty (c :: r) Hne He) as Hsk.
  destruct (skip_run_suffix (c :: r)) as [pre Hpre].
  pose proof (skip_run_length (c :: r)) as Hlen.
  rewrite (tokens_eq (c :: r)) in Ht |- *.
  destruct (skip_run (c :: r)) as [|d rest] eqn:Hs; [contradiction|].
  cbn [app].
  rewrite isdigit_is_digit.
  assert (Had : (code_point d <? 128) = true).
  { unfold ascii7 in Ha; rewrite Hpre, forallb_app in Ha.
    apply andb_true_iff in Ha; destruct Ha as [_ Ha]; simpl in Ha.
    apply andb_true_iff in Ha; destruct Ha as [Ha _]; exact Ha. }
  destruct (is_digit d) eqn:Hd.
  - rewrite (strtol_at_digit d (rest ++ NUL :: rx)) by (rewrite isdigit_is_digit; exact Hd).
    rewrite strtol_digits_run; cbn [fst snd].
    cbn [decimal_run after_run]; rewrite Hd.
    assert (Hnd : is_digit NUL = false) by reflexivity.
    rewrite (decimal_run_app_stop rest rx NUL Hnd), (after_run_app_stop rest rx NUL Hnd).
    fold (decimal (d :: decimal_run rest)).
    cbn [forallb] in Ht; apply andb_true_iff in Ht; destruct Ht as [Hv Ht'].
    exists (decimal (d :: decimal_run rest)), (after_run rest).
    split; [|split; [reflexivity|split]].
    + rewrite to_int_small; [reflexivity|].
      split; [|apply Z.ltb_lt; exact Hv].
      unfold decimal; apply decimal_nonneg_from; [lia|].
      cbn [forallb]; rewrite Hd; apply decimal_run_digits.
    + destruct (after_run_suffix rest) as [pre2 Hpre2].
      apply (suffix_clean (pre ++ d :: pre2)); [|exact Ht'].
      rewrite <- app_assoc; cbn [app]; rewrite <- Hpre2, <- Hpre; exact Hc.
    + pose proof (after_run_length rest); simpl in *; lia.
  - cbn [forallb] in Ht; apply andb_true_iff in Ht; destruct Ht as [Hv Ht'].
    exists (code_point d), rest.
    split; [|split; [reflexivity|split]].
    + unfold char_to_int. fold (code_point d). rewrite Had; reflexivity.
    + apply (suffix_clean (pre ++ [d])); [|exact Ht'].
      rewrite <- app_assoc; cbn [app]; rewrite <- Hpre; exact Hc.
    + simpl in *; lia.
Qed.

Lemma tokens_nil : tokens [] = [].
Proof. rewrite tokens_eq; reflexivity. Qed.

Lemma compare_tokens_nil_r (xs : list Z) :
  compare_tokens xs [] =
  match xs with
  | [] => 0
  | x :: xs' => if compare x 0 =? 0 then compare_tokens xs' [] else compare x 0
  end.
Proof. destruct xs; reflexivity. Qed.

(** The loop of [cmp_versions] on two clean bases, each followed by its
    NUL, computes the reference's token comparison. *)
Lemma cmp_versions_loop_refines (n : nat) :
  forall (x y rx ry : list ascii),
    (length x + length y < n)%nat ->
    clean_base x = true -> clean_base y = true ->
    cmp_versions_loop (x ++ NUL :: rx) (y ++ NUL :: ry) 0 =
    Done (compare_tokens (tokens x) (tokens y)).
Proof.
  induction n as [|n IH]; intros x y rx ry Hlen Hx Hy; [lia|].
  rewrite cmp_versions_loop_eq.
  destruct x as [|cx x'], y as [|cy y'].
  - rewrite tokens_nil; reflexivity.
  - (* the first base is exhausted *)
    destruct (next_sub_token (cy :: y') ry Hy) as (v & y2 & Eb & Tb & Cb & Lb);
      [discriminate|].
    assert (Hn : is_nul cy = false).
    { apply clean_base_parts in Hy; destruct Hy as (Hn & _).
      unfold nul_free in Hn; simpl in Hn; apply andb_true_iff in Hn.
      destruct Hn as [Hn _]; apply negb_true_iff in Hn; exact Hn. }
    cbn [app]. unfold loop_cond. 
    change (is_nul NUL) with true; cbn [negb]. rewrite Hn; cbn [negb].
    rewrite next_sub_at_nul.
    change (cy :: y' ++ NUL :: ry) with ((cy :: y') ++ NUL :: ry).
    rewrite Eb, Tb, tokens_nil, cmp_ints_compare.
    cbn [compare_tokens compare_padding].
    destruct (compare 0 v =? 0) eqn:E; [|reflexivity].
    apply Z.eqb_eq in E; rewrite E.
    rewrite <- (app_nil_l (NUL :: rx)).
    rewrite (IH [] y2 rx ry); [rewrite tokens_nil; reflexivity| |reflexivity|exact Cb].
    simpl in *; lia.
  - destruct (next_sub_token (cx :: x') rx Hx) as (v & x2 & Ea & Ta & Ca & La);
      [discriminate|].
    assert (Hn : is_nul cx = false).
    { apply clean_base_parts in Hx; destruct Hx as (Hn & _).
      unfold nul_free in Hn; simpl in Hn; apply andb_true_iff in Hn.
      destruct Hn as [Hn _]; apply negb_true_iff in Hn; exact Hn. }
    cbn [app]. unfold loop_cond. rewrite Hn; cbn [negb].
    rewrite next_sub_at_nul.
    change (cx :: x' ++ NUL :: rx) with ((cx :: x') ++ NUL :: rx).
    rewrite Ea, Ta, tokens_nil, cmp_ints_compare.
    cbn [compare_tokens].
    destruct (compare v 0 =? 0) eqn:E; [|reflexivity].
    apply Z.eqb_eq in E; rewrite E.
    rewrite <- (app_nil_l (NUL :: ry)).
    rewrite (IH x2 [] rx ry); [rewrite tokens_nil; reflexivity| |exact Ca|reflexivity].
    simpl in *; lia.
  - destruct (next_sub_token (cx :: x') rx Hx) as (v & x2 & Ea & Ta & Ca & La);
      [discriminate|].
    destruct (next_sub_token (cy :: y') ry Hy) as (w & y2 & Eb & Tb & Cb & Lb);
      [discriminate|].
    assert (Hn : is_nul cx = false).
    { apply clean_base_parts in Hx; destruct Hx as (Hn & _).
      unfold nul_free in Hn; simpl in Hn; apply andb_true_iff in Hn.
      destruct Hn as [Hn _]; apply negb_true_iff in Hn; exact Hn. }
    rewrite Ea, Eb, Ta, Tb, cmp_ints_compare.
    cbn [app]. unfold loop_cond. rewrite Hn; cbn [negb].
    cbn [compare_tokens].
    destruct (compare v w =? 0) eqn:E; [|reflexivity].
    apply Z.eqb_eq in E; rewrite E.
    apply IH; [simpl in *; lia|exact Ca|exact Cb].
Qed.

(** **** parse_version against the reference parse *)

Lemma cstr_nul_free (x : list ascii) : nul_free x = true -> cstr x = x.
Proof.
  unfold nul_free; induction x as [|c x IH]; simpl; [reflexivity|].
  intros H; apply andb_true_iff in H; destruct H as [Hc Hx].
  apply negb_true_iff in Hc; rewrite Hc, (IH Hx); reflexivity.
Qed.

Lemma cstr_app_nul (x r : list ascii) : nul_free x = true -> cstr (x ++ NUL :: r) = x.
Proof.
  unfold nul_free; induction x as [|c x IH]; simpl; [reflexivity|].
  intros H; apply andb_true_iff in H; destruct H as [Hc Hx].
  apply negb_true_iff in Hc; rewrite Hc, (IH Hx); reflexivity.
Qed.

(** Writing a NUL at [j] cuts the string at [j], or leaves it alone when
    the string ends before. *)
Lemma cstr_poke (j : nat) (x : list ascii) : cstr (poke_nul j x) = firstn j (cstr x).
Proof.
  revert j; induction x as [|c x IH]; intros j; simpl.
  - destruct j; reflexivity.
  - destruct j as [|j]; simpl.
    + reflexivity.
    + destruct (is_nul c); simpl; [reflexivity|rewrite IH; reflexivity].
Qed.

(** A buffer that holds a NUL is its string, the NUL, and the rest. *)
Lemma cstr_split (x : list ascii) :
  In NUL x -> exists r, x = cstr x ++ NUL :: r.
Proof.
  induction x as [|c x IH]; intros H; [destruct H|].
  simpl. destruct (is_nul c) eqn:Hc.
  - apply Ascii.eqb_eq in Hc; subst c; exists x; reflexivity.
  - destruct H as [H|H].
    + subst c; discriminate Hc.
    + destruct (IH H) as [r Hr]; exists r; simpl; congruence.
Qed.

Lemma poke_nul_length (j : nat) (x : list ascii) : length (poke_nul j x) = length x.
Proof.
  revert j; induction x as [|c x IH]; intros j; [destruct j; reflexivity|].
  destruct j; simpl; [reflexivity|rewrite IH; reflexivity].
Qed.

Lemma poke_nul_app_left (j : nat) (x r : list ascii) :
  (j < length x)%nat -> poke_nul j (x ++ r) = poke_nul j x ++ r.
Proof.
  revert j; induction x as [|c x IH]; intros j H; simpl in *; [lia|].
  destruct j; simpl; [reflexivity|rewrite IH by lia; reflexivity].
Qed.

Lemma poke_nul_at_end (x r : list ascii) (c : ascii) :
  poke_nul (length x) (x ++ c :: r) = x ++ NUL :: r.
Proof.
  induction x as [|d x IH]; simpl; [reflexivity|rewrite IH; reflexivity].
Qed.

Lemma skipn_poke (j : nat) (x : list ascii) :
  skipn (S j) (poke_nul j x) = skipn (S j) x.
Proof.
  revert j; induction x as [|c x IH]; intros j; [destruct j; reflexivity|].
  destruct j; simpl; [reflexivity|apply IH].
Qed.

(** A NUL written over a byte that is not a digit changes no decimal run
    and leaves no white space or sign at the head of a text. *)
Lemma decimal_run_skipn_poke (x : list ascii) :
  forall (i k : nat),
    (forall c, nth_error x i = Some c -> is_digit c = false) ->
    decimal_run (skipn k (poke_nul i x)) = decimal_run (skipn k x).
Proof.
  induction x as [|c x IH]; intros i k H; [destruct i, k; reflexivity|].
  destruct i as [|i], k as [|k]; simpl.
  - rewrite (H c eq_refl); reflexivity.
  - reflexivity.
  - destruct (is_digit c); [|reflexivity].
    f_equal; exact (IH i O H).
  - apply IH; exact H.
Qed.

Lemma plain_head_skipn_poke (x r : list ascii) :
  forall (i k : nat),
    plain_head (skipn k x ++ NUL :: r) = true ->
    plain_head (skipn k (poke_nul i x) ++ NUL :: r) = true.
Proof.
  induction x as [|c x IH]; intros i k H; [destruct i, k; exact H|].
  destruct i as [|i], k as [|k]; simpl in *; auto.
Qed.

Lemma plain_head_app_nul (x r : list ascii) :
  plain_head x = true -> plain_head (x ++ NUL :: r) = true.
Proof. destruct x; [reflexivity|exact (fun H => H)]. Qed.

(** [rindex] on a buffer is the reference's last position in the string. *)
Lemma rindex_last_index (x r : list ascii) (ch : ascii) :
  nul_free x = true -> rindex (x ++ NUL :: r) ch = last_index ch x.
Proof.
  unfold nul_free; induction x as [|c x IH]; simpl; [reflexivity|].
  intros H; apply andb_true_iff in H; destruct H as [Hc Hx].
  apply negb_true_iff in Hc; rewrite Hc, (IH Hx); reflexivity.
Qed.

Lemma last_index_app (ch : ascii) (a b : list ascii) :
  last_index ch (a ++ b) =
  match last_index ch b with
  | Some i => Some (length a + i)%nat
  | None => last_index ch a
  end.
Proof.
  induction a as [|c a IH]; simpl.
  - destruct (last_index ch b); reflexivity.
  - rewrite IH. destruct (last_index ch b); reflexivity.
Qed.

Lemma last_index_absent (ch : ascii) (l : list ascii) :
  forallb (fun c => negb (Ascii.eqb c ch)) l = true -> last_index ch l = None.
Proof.
  induction l as [|c l IH]; simpl; [reflexivity|].
  intros H; apply andb_true_iff in H; destruct H as [Hc Hl].
  apply negb_true_iff in Hc; rewrite (IH Hl), Hc; reflexivity.
Qed.

Lemma last_index_found (ch : ascii) (l : list ascii) (i : nat) :
  last_index ch l = Some i -> (i < length l)%nat /\ nth_error l i = Some ch.
Proof.
  revert i; induction l as [|c l IH]; intros i; simpl; [discriminate|].
  destruct (last_index ch l) as [j|].
  - intros E; injection E as <-. destruct (IH j eq_refl); split; [lia|assumption].
  - destruct (Ascii.eqb_spec c ch) as [->|]; [|discriminate].
    intros E; injection E as <-; split; [lia|reflexivity].
Qed.

(** The string is what precedes its first range operator, then either
    nothing or the operator and a tail. *)
Lemma truncate_split (s : list ascii) :
  s = truncate s \/
  exists op tl, s = truncate s ++ op :: tl /\ is_range_op op = true /\
                skipn (S (length (truncate s))) s = tl.
Proof.
  induction s as [|c s IH]; simpl; [left; reflexivity|].
  destruct (is_range_op c) eqn:Hc; simpl.
  - right; exists c, s; auto.
  - destruct IH as [IH|(op & tl & E & Hop & Hs)].
    + left; congruence.
    + right; exists op, tl; repeat split; [congruence|exact Hop|exact Hs].
Qed.

Lemma truncate_no_op (s : list ascii) :
  forallb (fun c => negb (is_range_op c)) (truncate s) = true.
Proof.
  induction s as [|c s IH]; simpl; [reflexivity|].
  destruct (is_range_op c) eqn:Hc; simpl; [reflexivity|].
  rewrite Hc; exact IH.
Qed.

Definition is_special (c : ascii) : bool :=
  is_range_op c || Ascii.eqb c "," || Ascii.eqb c "_".

Lemma forallb_weaken {A} (f g : A -> bool) (l : list A) :
  (forall x, f x = true -> g x = true) -> forallb f l = true -> forallb g l = true.
Proof.
  intros H; induction l as [|x l IH]; simpl; [reflexivity|].
  intros E; apply andb_true_iff in E; destruct E as [E1 E2].
  rewrite (H x E1), (IH E2); reflexivity.
Qed.

Lemma not_special (c ch : ascii) :
  is_special ch = true -> negb (is_special c) = true -> negb (Ascii.eqb c ch) = true.
Proof.
  intros Hch Hc; apply negb_true_iff in Hc; apply negb_true_iff.
  destruct (Ascii.eqb_spec c ch) as [->|]; [congruence|reflexivity].
Qed.

Lemma nul_free_truncate (s : list ascii) :
  nul_free s = true -> nul_free (truncate s) = true.
Proof.
  unfold nul_free; induction s as [|c s IH]; simpl; [reflexivity|].
  intros H; apply andb_true_iff in H; destruct H as [Hc Hs].
  destruct (is_range_op c); simpl; [reflexivity|].
  rewrite Hc, (IH Hs); reflexivity.
Qed.

(** A suffix number the code reads as the reference does: no white space
    and no sign before the digits, and a value that fits an [int]. *)
Definition plain_number (post : list ascii) : bool :=
  plain_head post && small (number post).

Definition suffix_ok (ch : ascii) (t : list ascii) : bool :=
  match last_index ch t with
  | Some i => plain_number (skipn (S i) t)
  | None => true
  end.

(** The version strings on which the code is compared with the reference:
    no byte after the first range operator is a range operator, a comma or
    an underscore; both suffix numbers are plain; the base is clean. *)
Definition canonical (s : list ascii) : bool :=
  nul_free s &&
  forallb (fun c => negb (is_special c)) (skipn (S (length (truncate s))) s) &&
  suffix_ok "," (truncate s) &&
  suffix_ok "_" (truncate s) &&
  clean_base (base (parse s)).

Lemma read_number_poked (t r : list ascii) (i k : nat) :
  (forall c, nth_error t i = Some c -> is_digit c = false) ->
  plain_number (skipn k t) = true ->
  to_int (fst (strtol (skipn k (poke_nul i t) ++ NUL :: r))) = number (skipn k t).
Proof.
  intros Hi Hp; unfold plain_number in Hp.
  apply andb_true_iff in Hp; destruct Hp as [Hh Hs].
  rewrite strtol_plain
    by (apply plain_head_skipn_poke, plain_head_app_nul; exact Hh).
  rewrite decimal_run_app_stop by reflexivity.
  rewrite (decimal_run_skipn_poke t i k Hi).
  apply to_int_small; split; [apply number_nonneg|].
  unfold small in Hs; apply Z.ltb_lt in Hs; exact Hs.
Qed.

Lemma read_number (post r : list ascii) :
  plain_number post = true ->
  to_int (fst (strtol (post ++ NUL :: r))) = number post.
Proof.
  intros Hp; unfold plain_number in Hp.
  apply andb_true_iff in Hp; destruct Hp as [Hh Hs].
  rewrite strtol_plain by (apply plain_head_app_nul; exact Hh).
  rewrite decimal_run_app_stop by reflexivity.
  apply to_int_small; split; [apply number_nonneg|].
  unfold small in Hs; apply Z.ltb_lt in Hs; exact Hs.
Qed.

Lemma skipn_within (k : nat) (x r : list ascii) :
  (k <= length x)%nat -> skipn k (x ++ r) = skipn k x ++ r.
Proof.
  intros H; rewrite skipn_app.
  replace (k - length x)%nat with O by lia; reflexivity.
Qed.

(** The buffer after the two range operators were overwritten: the
    truncated string, a NUL, and a rest the walk never reaches; the comma
    and the underscore [rindex] found are those of the truncated string. *)
Lemma buffer_after_range_ops (s : list ascii) :
  nul_free s = true ->
  forallb (fun c => negb (is_special c)) (skipn (S (length (truncate s))) s) = true ->
  rindex (strdup s) "," = last_index "," (truncate s) /\
  rindex (strdup s) "_" = last_index "_" (truncate s) /\
  exists r,
    poke_opt (rindex (strdup s) ">") (poke_opt (rindex (strdup s) "<") (strdup s)) =
    truncate s ++ NUL :: r.
Proof.
  intros Hn Ht.
  unfold strdup; rewrite (cstr_nul_free s Hn).
  rewrite !(rindex_last_index s [] _ Hn).
  pose proof (truncate_no_op s) as Hop.
  assert (Hlt : last_index "<" (truncate s) = None).
  { apply last_index_absent; revert Hop; apply forallb_weaken.
    intros c Hc; apply negb_true_iff in Hc; unfold is_range_op in Hc.
    apply orb_false_iff in Hc; destruct Hc as [Hc _]; rewrite Hc; reflexivity. }
  assert (Hgt : last_index ">" (truncate s) = None).
  { apply last_index_absent; revert Hop; apply forallb_weaken.
    intros c Hc; apply negb_true_iff in Hc; unfold is_range_op in Hc.
    apply orb_false_iff in Hc; destruct Hc as [_ Hc]; rewrite Hc; reflexivity. }
  destruct (truncate_split s) as [E|(op & tl & E & Hopc & Hs)].
  - rewrite <- E in *. rewrite Hlt, Hgt; simpl.
    repeat split; exists []; reflexivity.
  - rewrite Hs in Ht. remember (truncate s) as t eqn:Et.
    clear Et Hs Hn; subst s.
    assert (Habs : forall ch, is_special ch = true -> last_index ch tl = None).
    { intros ch Hch; apply last_index_absent; revert Ht; apply forallb_weaken.
      intros c; apply not_special; exact Hch. }
    rewrite !last_index_app; cbn [last_index].
    rewrite !Habs by reflexivity.
    unfold is_range_op in Hopc; apply orb_true_iff in Hopc.
    destruct Hopc as [Hc|Hc]; apply Ascii.eqb_eq in Hc; subst op;
      repeat match goal with
        | |- context [Ascii.eqb ?a ?b] =>
            let v := eval vm_compute in (Ascii.eqb a b) in
            change (Ascii.eqb a b) with v
        end; cbv iota.
    + rewrite Hgt.
      repeat split. exists (tl ++ [NUL]); cbn [poke_opt].
      rewrite Nat.add_0_r, <- app_assoc; simpl; apply poke_nul_at_end.
    + rewrite Hlt.
      repeat split. exists (tl ++ [NUL]); cbn [poke_opt].
      rewrite Nat.add_0_r, <- app_assoc; simpl; apply poke_nul_at_end.
Qed.

(** Where the two cuts leave the string: the base of the reference. *)
Lemma cuts_base_end (t : list ascii) :
  match last_index "_" t with
  | Some j =>
      firstn j match last_index "," t with Some i => firstn i t | None => t end
  | None => match last_index "," t with Some i => firstn i t | None => t end
  end = firstn (base_end t) t.
Proof.
  unfold base_end.
  destruct (last_index "," t) as [i|] eqn:Ei, (last_index "_" t) as [j|] eqn:Ej.
  - rewrite firstn_firstn, Nat.min_comm; reflexivity.
  - destruct (last_index_found _ _ _ Ei) as [Hi _].
    rewrite Nat.min_l by lia; reflexivity.
  - destruct (last_index_found _ _ _ Ej) as [Hj _].
    rewrite Nat.min_r by lia; reflexivity.
  - rewrite Nat.min_id, firstn_all; reflexivity.
Qed.

Lemma buffer_cut (x base : list ascii) :
  In NUL x -> cstr x = base -> exists r, x = base ++ NUL :: r.
Proof. intros H <-; apply cstr_split; exact H. Qed.

(** On a canonical string [parse_version] yields the epoch, the revision
    and, up to the first NUL of its buffer, the base of the reference. *)
Lemma parse_version_refines (s : list ascii) :
  canonical s = true ->
  v_epoch (parse_version s) = epoch (parse s) /\
  v_revision (parse_version s) = revision (parse s) /\
  exists r, v_version (parse_version s) = base (parse s) ++ NUL :: r.
Proof.
  unfold canonical; intros H.
  apply andb_true_iff in H; destruct H as [H _].
  apply andb_true_iff in H; destruct H as [H Hu].
  apply andb_true_iff in H; destruct H as [H Hc].
  apply andb_true_iff in H; destruct H as [Hn Ht].
  destruct (buffer_after_range_ops s Hn Ht) as (Ec & Eu & r1 & Eb).
  pose proof (nul_free_truncate s Hn) as Hnt.
  unfold parse_version, parse, suffix_number.
  rewrite Ec, Eu, Eb; clear Ec Eu Eb.
  unfold suffix_ok in Hc, Hu.
  remember (truncate s) as t eqn:Et; clear Et Ht Hn s.
  assert (Hpos : forall ch i, last_index ch t = Some i ->
                   (i < length t)%nat /\
                   (is_digit ch = false ->
                    forall c, nth_error t i = Some c -> is_digit c = false)).
  { intros ch i E; destruct (last_index_found _ _ _ E) as [L N]; split; [exact L|].
    intros Hd c Hc'; congruence. }
  destruct (last_index "," t) as [i|] eqn:Ei.
  - destruct (Hpos _ _ Ei) as [Li Di]; specialize (Di eq_refl).
    rewrite (poke_nul_app_left i t _ Li).
    rewrite (skipn_within (S i)) by (rewrite poke_nul_length; lia).
    rewrite skipn_poke, (read_number _ _ Hc).
    destruct (last_index "_" t) as [j|] eqn:Ej.
    + destruct (Hpos _ _ Ej) as [Lj Dj]; specialize (Dj eq_refl).
      rewrite (poke_nul_app_left j) by (rewrite poke_nul_length; exact Lj).
      rewrite (skipn_within (S j)) by (rewrite !poke_nul_length; lia).
      rewrite skipn_poke, (read_number_poked t _ i (S j) Di Hu).
      cbn [v_epoch v_revision v_version epoch revision base].
      repeat split.
      rewrite <- cuts_base_end, Ei, Ej.
      apply buffer_cut; [apply in_elt|].
      rewrite <- (poke_nul_app_left j (poke_nul i t))
        by (rewrite poke_nul_length; exact Lj).
      rewrite <- (poke_nul_app_left i t _ Li), !cstr_poke, (cstr_app_nul t r1 Hnt).
      reflexivity.
    + cbn [v_epoch v_revision v_version epoch revision base].
      repeat split.
      rewrite <- cuts_base_end, Ei, Ej.
      apply buffer_cut; [apply in_elt|].
      rewrite <- (poke_nul_app_left i t _ Li), cstr_poke, (cstr_app_nul t r1 Hnt).
      reflexivity.
  - destruct (last_index "_" t) as [j|] eqn:Ej.
    + destruct (Hpos _ _ Ej) as [Lj Dj]; specialize (Dj eq_refl).
      rewrite (poke_nul_app_left j t _ Lj).
      rewrite (skipn_within (S j)) by (rewrite poke_nul_length; lia).
      rewrite skipn_poke, (read_number _ _ Hu).
      cbn [v_epoch v_revision v_version epoch revision base].
      repeat split.
      rewrite <- cuts_base_end, Ei, Ej.
      apply buffer_cut; [apply in_elt|].
      rewrite <- (poke_nul_app_left j t _ Lj), cstr_poke, (cstr_app_nul t r1 Hnt).
      reflexivity.
    + cbn [v_epoch v_revision v_version epoch revision base].
      repeat split.
      rewrite <- cuts_base_end, Ei, Ej.
      exists r1; reflexivity.
Qed.

Lemma mport_version_cmp_bytes_refines (a b : list ascii) :
  canonical a = true -> canonical b = true ->
  mport_version_cmp_bytes a b = Done (version_cmp_bytes a b).
Proof.
  intros Ha Hb.
  destruct (parse_version_refines a Ha) as (Ea & Ra & ra & Va).
  destruct (parse_version_refines b Hb) as (Eb & Rb & rb & Vb).
  unfold canonical in Ha, Hb.
  apply andb_true_iff in Ha; destruct Ha as [_ Ca].
  apply andb_true_iff in Hb; destruct Hb as [_ Cb].
  unfold mport_version_cmp_bytes, version_cmp_bytes, cmp_versions, compare_base.
  rewrite Ea, Eb, Ra, Rb, Va, Vb, !cmp_ints_compare.
  rewrite (cmp_versions_loop_refines
             (S (length (base (parse a)) + length (base (parse b)))))
    by (try assumption; lia).
  cbn [run_bind].
  destruct (compare (epoch (parse a)) (epoch (parse b)) =? 0); [|reflexivity].
  destruct (compare_tokens (tokens (base (parse a))) (tokens (base (parse b))) =? 0);
    reflexivity.
Qed.

(** C2 (counterexample).  The agreement with the reference comparison
    does not hold for every pair of version strings: a number of the base
    is stored in an [int], so 4294967296 becomes 0 and the code finds the
    version 4294967296 equal to the version 0, where the reference
    comparison answers 1. *)
Lemma mport_version_cmp_not_reference :
  mport_version_cmp "4294967296" "0" = Done 0 /\
  version_cmp "4294967296" "0" = 1.
Proof. split; vm_compute; reflexivity. Qed.

(** Further departures from the reference comparison: the last, not the
    first, range operator cuts the string; a suffix found behind a range
    operator is still read; [strtol] accepts a sign in a suffix number. *)
Example mport_version_cmp_other_departures :
  (mport_version_cmp "1<2<3" "1" = Done 1 /\ version_cmp "1<2<3" "1" = 0) /\
  (mport_version_cmp "1.0<2.0_1" "1.0" = Done 1 /\ version_cmp "1.0<2.0_1" "1.0" = 0) /\
  (mport_version_cmp "1.0_-5" "1.0" = Done (-1) /\ version_cmp "1.0_-5" "1.0" = 0).
Proof. repeat split; vm_compute; reflexivity. Qed.

(** A base that ends in a separator makes the walk step over the
    terminator of the string: the comparison then reads the bytes behind
    it, here the former revision, or leaves the allocation. *)
Example cmp_versions_steps_over_terminator :
  (mport_version_cmp "1._1" "1_1" = Done 1 /\ version_cmp "1._1" "1_1" = 0) /\
  mport_version_cmp "1." "1" = Undefined.
Proof. repeat split; vm_compute; reflexivity. Qed.

(** C2 (amended).  For every pair of canonical version strings - no NUL
    byte; behind the first range operator no further range operator, comma
    or underscore; suffix numbers that start with neither white space nor
    a sign and lie below 2^31; a base of bytes below 128 that does not end in a
    separator and whose numbers lie below 2^31 - [mport_version_cmp]
    returns, and its result is the reference comparison: epochs compared
    numerically, then the bases by the lockstep token walk, then the
    revisions; the first step that is not equal decides. *)
Theorem mport_version_cmp_refines (a b : string) :
  canonical (list_ascii_of_string a) = true ->
  canonical (list_ascii_of_string b) = true ->
  mport_version_cmp a b = Done (version_cmp a b).
Proof.
  intros Ha Hb; unfold mport_version_cmp, version_cmp.
  apply mport_version_cmp_bytes_refines; assumption.
Qed.

Lemma mport_version_cmp_refines_witness :
  canonical (list_ascii_of_string "2.0.1_3,1<3.0") = true /\
  canonical (list_ascii_of_string "2.0.a+1_4,1") = true /\
  mport_version_cmp "2.0.1_3,1<3.0" "2.0.a+1_4,1" =
  Done (version_cmp "2.0.1_3,1<3.0" "2.0.a+1_4,1").
Proof.
  split; [vm_compute; reflexivity|].
  split; [vm_compute; reflexivity|].
  apply (mport_version_cmp_refines "2.0.1_3,1<3.0" "2.0.a+1_4,1");
    vm_compute; reflexivity.
Defined.

(** The reference comparison answers 0, -1 or 1. *)
Lemma version_cmp_range (a b : string) :
  version_cmp a b = 0 \/ version_cmp a b = -1 \/ version_cmp a b = 1.
Proof.
  assert (Hc : forall x y, compare x y = 0 \/ compare x y = -1 \/ compare x y = 1).
  { intros x y; unfold compare.
    destruct (x <? y); [auto|]. destruct (y <? x); auto. }
  assert (Hp : forall ys, compare_padding ys = 0 \/ compare_padding ys = -1 \/
                          compare_padding ys = 1).
  { induction ys as [|y ys IH]; simpl; [auto|].
    destruct (compare 0 y =? 0); [exact IH|apply Hc]. }
  assert (Ht : forall xs ys, compare_tokens xs ys = 0 \/ compare_tokens xs ys = -1 \/
                             compare_tokens xs ys = 1).
  { induction xs as [|x xs IH]; intros ys; simpl; [apply Hp|].
    destruct ys as [|y ys].
    - destruct (compare x 0 =? 0); [apply IH|apply Hc].
    - destruct (compare x y =? 0); [apply IH|apply Hc]. }
  unfold version_cmp, version_cmp_bytes, compare_base.
  destruct (compare _ _ =? 0); [|apply Hc].
  destruct (compare_tokens _ _ =? 0); [apply Hc|apply Ht].
Qed.

(** C3 (the code at the failing input).  With the double-bound
    requirement [>=1.4.0<1.5] the baseline 1.0 is reported satisfied (0),
    although the same function reports 1.0 as not satisfying the lower
    bound [>=1.4.0] on its own (-1): the first operator is at index 0 and
    the branch that would check it tests [greater[0] > 0].  The two
    evaluations that the specification lists hold. *)
Theorem require_check_ignores_lower_bound :
  mport_version_require_check "1.0" ">=1.4.0<1.5" = Done 0 /\
  mport_version_require_check "1.0" ">=1.4.0" = Done (-1) /\
  mport_version_require_check "1.0" "<1.5" = Done 0 /\
  mport_version_require_check "1.4.5" ">=1.4.0<1.5" = Done 0 /\
  mport_version_require_check "1.5.0" ">=1.4.0<1.5" = Done (-1).
Proof. repeat split; vm_compute; reflexivity. Qed.

End VersionFacts.

(** ** The metadata store *)
Module StoreFacts.
Import Store.
Open Scope string_scope.
Open Scope Z_scope.

(** The record a query hands out for a stored row: the stored values,
    with the install date cut to 32 bits. *)
Definition fetched (m : mportPackageMeta) : mportPackageMeta :=
  mkMeta (name m) (version m) (origin m) (prefix m) (locked m) (automatic m)
         (sqlite3_column_int (install_date m)).

Lemma populate_meta_columns (m : mportPackageMeta) :
  populate_meta_from_stmt (columns m) = Some (fetched m).
Proof. reflexivity. Qed.

Lemma populate_cells_unfold (cells : Z) (rows : list stmt_row) :
  populate_cells cells rows =
  if cells <=? 0 then Undefined
  else
    match rows with
    | nil => Done (MPORT_OK, nil)
    | cons stmt rest =>
        match populate_meta_from_stmt stmt with
        | None => Done (MPORT_ERR_FATAL, nil)
        | Some pack =>
            run_map (fun r => (fst r, cons pack (snd r)))
                    (populate_cells (cells - 1) rest)
        end
    end.
Proof. destruct rows; reflexivity. Qed.

Lemma populate_cells_columns (rows : list mportPackageMeta) :
  forall cells, Z.of_nat (length rows) < cells ->
    populate_cells cells (map columns rows) = Done (MPORT_OK, map fetched rows).
Proof.
  induction rows as [|m rows IH]; intros cells H; rewrite populate_cells_unfold.
  - simpl in H; destruct (Z.leb_spec cells 0); [lia|reflexivity].
  - cbn [length] in H; destruct (Z.leb_spec cells 0); [lia|].
    cbn [map]; rewrite populate_meta_columns, IH by lia; reflexivity.
Qed.

Lemma populate_cells_overflow (rows : list mportPackageMeta) :
  forall cells, cells <= Z.of_nat (length rows) ->
    populate_cells cells (map columns rows) = Undefined.
Proof.
  induction rows as [|m rows IH]; intros cells H; rewrite populate_cells_unfold.
  - simpl in H; destruct (Z.leb_spec cells 0); [reflexivity|lia].
  - cbn [length] in H; destruct (Z.leb_spec cells 0); [reflexivity|].
    cbn [map]; rewrite populate_meta_columns, IH by lia; reflexivity.
Qed.

(** A vector with room for the rows of the statement: every row is
    handed out. *)
Lemma populate_columns (len : Z) (rows : list mportPackageMeta) :
  Z.of_nat (length rows) <= len ->
  populate_vec_from_stmt len (map columns rows)
  = Done (MPORT_OK, Some (map fetched rows)).
Proof.
  intros H; unfold populate_vec_from_stmt.
  rewrite populate_cells_columns by lia; reflexivity.
Qed.

Lemma populate_overflow (len : Z) (rows : list mportPackageMeta) :
  len < Z.of_nat (length rows) ->
  populate_vec_from_stmt len (map columns rows) = Undefined.
Proof.
  intros H; unfold populate_vec_from_stmt.
  rewrite populate_cells_overflow by lia; reflexivity.
Qed.

Lemma populate_cases (len : Z) (rows : list mportPackageMeta) :
  populate_vec_from_stmt len (map columns rows)
    = Done (MPORT_OK, Some (map fetched rows)) \/
  populate_vec_from_stmt len (map columns rows) = Undefined.
Proof.
  destruct (Z.le_gt_cases (Z.of_nat (length rows)) len) as [H|H].
  - left; apply populate_columns; exact H.
  - right; apply populate_overflow; exact H.
Qed.

Lemma fetched_name (m : mportPackageMeta) : name (fetched m) = name m.
Proof. reflexivity. Qed.

Lemma fetched_version (m : mportPackageMeta) : version (fetched m) = version m.
Proof. reflexivity. Qed.

Lemma fetched_locked (m : mportPackageMeta) : locked (fetched m) = locked m.
Proof. reflexivity. Qed.

Lemma fetched_automatic (m : mportPackageMeta) : automatic (fetched m) = automatic m.
Proof. reflexivity. Qed.

Definition foo : mportPackageMeta :=
  mkMeta "foo" "1.0" "misc/foo" "/usr/local" 0 MPORT_EXPLICIT 0.

(** [foo] requires [bar], and [bar] is not installed (it was deleted with
    force, which leaves the edge behind). *)
Definition dangling_db : tables :=
  mkTables [mkRow foo "clean"] [mkDepends "foo" "bar" ">=2.0" "misc/bar"] [] [] [].

(** C10 (the code at the failing input).  [mport_pkgmeta_get_downdepends]
    counts the rows of [depends], not the rows of the join: with one
    dangling edge the count is 1, the join is empty, and the caller gets
    MPORT_OK with a vector that holds only the sentinel.  The queries that
    count the rows they return give NULL on the same database when nothing
    matches. *)
Theorem get_downdepends_empty_vector :
  mport_pkgmeta_get_downdepends dangling_db foo = Done (MPORT_OK, Some []) /\
  mport_pkgmeta_search_master dangling_db (fun m => String.eqb (name m) "bar")
    = Done (MPORT_OK, None) /\
  mport_pkgmeta_list_locked dangling_db = Done (MPORT_OK, None).
Proof. repeat split; vm_compute; reflexivity. Qed.

End StoreFacts.

(** ** The installer *)
Module InstallerFacts.
Import Store Installer.
Open Scope string_scope.
Open Scope list_scope.
Open Scope Z_scope.

(** *** Phase 2 and its transaction *)

(** The asset loop changes the [assets] table of the connection's view and
    nothing else: not the other tables, not the transaction. *)
Lemma materialize_conn (h : host) (pkg : mportPackageMeta) (err : Z) (e : asset_row)
  (l l' : locals) (jump : option Z) :
  materialize h pkg err e l = Done (l', jump) -> conn l' = conn l.
Proof.
  unfold materialize; intros Hm.
  repeat match type of Hm with
         | context [if ?c then _ else _] => destruct c
         | context [match ?x with _ => _ end] => destruct x
         end; inversion Hm; reflexivity.
Qed.

Lemma install_assets_frame (h : host) (pkg : mportPackageMeta) (err : Z)
  (alist : list asset_row) :
  forall (l l' : locals) (ok : option Z),
    install_assets h pkg err alist l = Done (l', ok) ->
    saved (conn l') = saved (conn l) /\
    packages (live (conn l')) = packages (live (conn l)) /\
    depends (live (conn l')) = depends (live (conn l)) /\
    categories (live (conn l')) = categories (live (conn l)) /\
    conflicts (live (conn l')) = conflicts (live (conn l)).
Proof.
  induction alist as [|e rest IH]; intros l l' ok H; simpl in H.
  - injection H as <- <-; auto.
  - destruct (materialize h pkg err e l) as [[l1 ok1]| |] eqn:Hm; simpl in H;
      try discriminate.
    pose proof (materialize_conn _ _ _ _ _ _ _ Hm) as Hc.
    destruct ok1 as [code|].
    + injection H as <- <-; rewrite Hc; auto.
    + destruct (bound_asset h pkg e l1) as [row| |]; simpl in H; try discriminate.
      apply IH in H; simpl in H.
      rewrite Hc in H; exact H.
Qed.

(** The row that [create_package_row] writes for [pkg]. *)
Definition new_row (pkg : mportPackageMeta) : package_row :=
  mkRow (mkMeta (name pkg) (version pkg) (origin pkg) (prefix pkg)
                0 (automatic pkg) (install_date pkg)) "dirty".




Definition foo : mportPackageMeta :=
  mkMeta "foo" "1.0" "misc/foo" "/usr/local" 0 MPORT_EXPLICIT 100.

Definition no_tables : tables := mkTables [] [] [] [] [].

Definition closed : connection := mkConn no_tables None.


Definition easy : host :=
  mkHost "" 100 false MPORT_OK (fun _ => true) (fun _ => true) (fun _ _ => true)
         (fun _ => true) (fun _ => true) (fun _ => true)
         (fun _ => true) (fun _ => true) (fun _ _ _ => MPORT_OK).




(** *** The update primitive *)

(** Whatever happens in the three phases, the rows of [packages] afterwards
    are rows that were there before, possibly with a new status, and
    possibly the row written for [pkg]. *)
Lemma do_actual_install_packages (h : host) (c c' : connection) (b b' : mportBundleRead)
  (pkg : mportPackageMeta) (ret : Z) :
  do_actual_install h c b pkg = Done (c', b', ret) ->
  packages (live c') = packages (live c) \/
  packages (live c') = packages (live c) ++ [new_row pkg].
Proof.
  intros H.
  unfold do_actual_install, create_package_row in H.
  fold (new_row pkg) in H.
  destruct (insert_package (live c) (new_row pkg)) as [t|] eqn:Hi; simpl in H.
  - assert (Ht : packages t = packages (live c) ++ [new_row pkg]).
    { unfold insert_package in Hi.
      destruct (existsb _ _); [discriminate|]. injection Hi as <-; reflexivity. }
    destruct (chdir_ok h (prefix pkg)); simpl in H.
    + unfold db_begin in H; simpl in H.
      destruct (saved c) as [t0|]; simpl in H.
      all: match type of H with
           | context [install_assets ?hh ?pp ?ee ?al ?ll] =>
               destruct (install_assets hh pp ee al ll) as [[l ok]| |] eqn:Hl; simpl in H;
                 try discriminate
           end.
      all: apply install_assets_frame in Hl; destruct Hl as (_ & Hp & _);
        simpl in Hp; rewrite Ht in Hp.
      all: destruct ok as [code|]; simpl in H;
        [|unfold db_commit in H; destruct (saved (conn l)); simpl in H];
        injection H as <- <- <-; right; exact Hp.
    + injection H as <- <- <-; right; exact Ht.
  - injection H as <- <- <-; left; reflexivity.
Qed.

Lemma install_pkg_packages (h : host) (c c' : connection) (b b' : mportBundleRead)
  (pkg : mportPackageMeta) (ret : Z) :
  mport_bundle_read_install_pkg h c b pkg = Done (c', b', ret) ->
  forall r, In r (packages (live c')) ->
    (exists r', In r' (packages (live c)) /\ row_pkg r = row_pkg r') \/
    row_pkg r = row_pkg (new_row pkg).
Proof.
  intros H r Hr.
  unfold mport_bundle_read_install_pkg in H.
  destruct (pre_install_ok h pkg); simpl in H.
  - destruct (do_actual_install h c b pkg) as [[[c1 b1] ret1]| |] eqn:Ha; simpl in H;
      try discriminate.
    apply do_actual_install_packages in Ha.
    assert (Hc1 : forall x, In x (packages (live c1)) ->
              (exists r', In r' (packages (live c)) /\ row_pkg x = row_pkg r') \/
              row_pkg x = row_pkg (new_row pkg)).
    { intros x Hx. destruct Ha as [Ha|Ha]; rewrite Ha in Hx.
      - left; exists x; auto.
      - apply in_app_or in Hx; destruct Hx as [Hx|[<-|[]]]; [left; exists x|right]; auto. }
    destruct (ret1 =? MPORT_OK); simpl in H.
    + destruct (post_install_ok h pkg); simpl in H.
      * injection H as <- <- <-. simpl in Hr.
        apply in_map_iff in Hr; destruct Hr as (x & Hx & Hin).
        specialize (Hc1 x Hin).
        assert (E : row_pkg r = row_pkg x).
        { destruct (String.eqb _ _) in Hx; subst r; reflexivity. }
        rewrite E; exact Hc1.
      * injection H as <- <- <-; auto.
    + injection H as <- <- <-; auto.
  - injection H as <- <- <-; left; exists r; auto.
Qed.

Lemma update_pkg_packages (h : host) (c c' : connection) (b b' : mportBundleRead)
  (pkg : mportPackageMeta) (ret : Z) :
  mport_bundle_read_update_pkg h c b pkg = Done (c', b', ret) ->
  forall r, In r (packages (live c')) ->
    (exists r', In r' (packages (live c)) /\ row_pkg r = row_pkg r' /\
                name (row_pkg r') <> name pkg) \/
    row_pkg r = row_pkg (new_row pkg).
Proof.
  intros H r Hr.
  unfold mport_bundle_read_update_pkg in H.
  destruct (install_pkg_packages _ _ _ _ _ _ _ H r Hr) as [(r' & Hin & E)|E];
    [left|right; exact E].
  simpl in Hin. apply filter_In in Hin; destruct Hin as [Hin Hne].
  exists r'; repeat split; auto.
  intros Heq; rewrite Heq, String.eqb_refl in Hne; discriminate.
Qed.

(** Every row of the package named like [r0] carries the automatic flag,
    the locked flag and the prefix of [r0]. *)
Definition keeps (r0 : mportPackageMeta) (t : tables) : Prop :=
  forall r, In r (packages t) ->
    name (row_pkg r) = name r0 ->
    automatic (row_pkg r) = automatic r0 /\
    locked (row_pkg r) = locked r0 /\
    prefix (row_pkg r) = prefix r0.

Lemma filter_map_swap {A B} (f : B -> bool) (g : A -> B) (l : list A) :
  filter f (map g l) = map g (filter (fun x => f (g x)) l).
Proof.
  induction l as [|x l IH]; simpl; [reflexivity|].
  destruct (f (g x)); simpl; congruence.
Qed.

Lemma search_by_name (t : tables) (n : string) (r : package_row) (rest : list package_row)
  (found : Z * vec) :
  filter (fun x => String.eqb (name (row_pkg x)) n) (packages t) = r :: rest ->
  mport_pkgmeta_search_master t (fun m => String.eqb (name m) n) = Done found ->
  found = (MPORT_OK, Some (map StoreFacts.fetched (map row_pkg (r :: rest)))).
Proof.
  intros Hf H.
  unfold mport_pkgmeta_search_master, mport_pkgmeta_count in H.
  rewrite filter_map_swap, Hf in H.
  simpl length in H.
  destruct (Z.eqb_spec (Z.of_nat (S (length rest))) 0) as [E|_]; [lia|].
  rewrite StoreFacts.populate_columns in H by (rewrite length_map; simpl length; lia).
  injection H as <-; reflexivity.
Qed.

Lemma update_one_keeps (h : host) (c c' : connection) (b b' : mportBundleRead)
  (pkg r0 : mportPackageMeta) :
  keeps r0 (live c) ->
  update_one h c b pkg = Done (c', b') ->
  keeps r0 (live c').
Proof.
  intros K H.
  unfold update_one in H.
  destruct (mport_pkgmeta_search_master (live c) _) as [found| |] eqn:Hs; simpl in H;
    try discriminate.
  match type of H with
  | context [mport_lock_islocked ?p] => set (pkg1 := p) in *
  end.
  destruct (mport_lock_islocked pkg1 =? MPORT_LOCKED) eqn:Hl;
    [injection H as <- <-; exact K|].
  destruct (check_preconditions h (live c) pkg1 _ =? MPORT_OK); simpl in H;
    [|injection H as <- <-; exact K].
  unfold set_prefix_to_installed in H.
  destruct (filter (fun r => String.eqb (name (row_pkg r)) (name pkg1)) (packages (live c)))
    as [|r rest] eqn:Hf; simpl in H; [injection H as <- <-; exact K|].
  match type of H with
  | context [mport_bundle_read_update_pkg h c b ?p] => set (pkg2 := p) in *
  end.
  destruct (mport_bundle_read_update_pkg h c b pkg2) as [[[c2 b2] ret]| |] eqn:Hu;
    simpl in H; try discriminate.
  injection H as <- <-.
  assert (Hn1 : name pkg1 = name pkg).
  { unfold pkg1. destruct found as [code [[|a l]|]]; destruct code; reflexivity. }
  assert (Hr : In r (packages (live c)) /\ name (row_pkg r) = name pkg).
  { assert (Hin : In r (r :: rest)) by (left; reflexivity).
    rewrite <- Hf in Hin. apply filter_In in Hin; destruct Hin as [Hin E].
    apply String.eqb_eq in E. rewrite <- Hn1; auto. }
  destruct Hr as [Hrin Hrn].
  assert (Hfound :
            found = (MPORT_OK, Some (map StoreFacts.fetched (map row_pkg (r :: rest))))).
  { apply (search_by_name (live c) (name pkg) r rest); [|exact Hs].
    rewrite <- Hn1; exact Hf. }
  assert (Hp1 : automatic pkg1 = automatic (row_pkg r) /\ locked pkg1 = locked (row_pkg r)).
  { unfold pkg1; rewrite Hfound; simpl; auto. }
  destruct Hp1 as [Ha1 Hl1].
  assert (Hl0 : locked pkg1 = 0).
  { unfold mport_lock_islocked in Hl.
    destruct (Z.eqb_spec (locked pkg1) 0); [assumption|discriminate]. }
  intros x Hx Hxn.
  destruct (update_pkg_packages _ _ _ _ _ _ _ Hu x Hx) as [(x' & Hin & E & _)|E].
  - rewrite E in *; apply K; assumption.
  - rewrite E in *; simpl in *.
    assert (Hr0 : name (row_pkg r) = name r0) by congruence.
    destruct (K r Hrin Hr0) as (Ka & Kl & Kp).
    repeat split; congruence.
Qed.

Lemma update_each_keeps (h : host) (r0 : mportPackageMeta) (pkgs : list mportPackageMeta) :
  forall (c c' : connection) (b b' : mportBundleRead),
    keeps r0 (live c) ->
    update_each h c b pkgs = Done (c', b') ->
    keeps r0 (live c').
Proof.
  induction pkgs as [|pkg rest IH]; intros c c' b b' K H; simpl in H.
  - injection H as <- <-; exact K.
  - destruct (update_one h c b pkg) as [[c1 b1]| |] eqn:H1; simpl in H; try discriminate.
    eapply IH; [|exact H].
    eapply update_one_keeps; eassumption.
Qed.

(** C4.  Let the live database hold exactly one row for a package name,
    [r0].  After [mport_update_primative] has processed a bundle, whatever
    the stub of the bundle carries, every row of that name in the live
    database has the automatic flag, the locked flag and the prefix of
    [r0]. *)
Theorem update_preserves_flags_and_prefix (h : host) (c c' : connection)
  (b : mportBundleRead) (r0 : package_row) (ret : Z)
  (Hinstalled :
     filter (fun r => String.eqb (name (row_pkg r)) (name (row_pkg r0)))
            (packages (live c)) = [r0])
  (Hrun : mport_update_primative h c b = Done (c', ret)) :
  forall r, In r (packages (live c')) ->
    name (row_pkg r) = name (row_pkg r0) ->
    automatic (row_pkg r) = automatic (row_pkg r0) /\
    locked (row_pkg r) = locked (row_pkg r0) /\
    prefix (row_pkg r) = prefix (row_pkg r0).
Proof.
  assert (K : keeps (row_pkg r0) (live c)).
  { intros r Hr Hn.
    assert (Hin : In r [r0]).
    { rewrite <- Hinstalled. apply filter_In; split; [exact Hr|].
      apply String.eqb_eq; exact Hn. }
    destruct Hin as [<-|[]]; auto. }
  unfold mport_update_primative in Hrun.
  destruct (mport_pkgmeta_read_stub b) as [code pkgs].
  destruct (code =? MPORT_OK); simpl in Hrun.
  - destruct (update_each h c b pkgs) as [[c1 b1]| |] eqn:He; simpl in Hrun;
      try discriminate.
    injection Hrun as <- <-.
    exact (update_each_keeps h (row_pkg r0) pkgs c c1 b b1 K He).
  - injection Hrun as <- <-; exact K.
Qed.

(** [bar] is installed as a dependency under /opt; the bundle carries
    version 2.1 with prefix /usr/local (and, like every stub, no flags). *)
Definition bar_installed : package_row :=
  mkRow (mkMeta "bar" "2.0" "misc/bar" "/opt" 0 MPORT_AUTOMATIC 50) "clean".

Definition bar_db : connection :=
  mkConn (mkTables [bar_installed] [] [] [] []) None.

Definition bar_bundle : mportBundleRead :=
  mkBundle
    (mkTables [mkRow (mkMeta "bar" "2.1" "misc/bar" "/usr/local" 0 MPORT_EXPLICIT 0) "dirty"]
              [] [] []
              [mkAsset "bar" ASSET_FILE (Some "bin/bar") None None None None])
    ["bin/bar"].

Definition bar_updated : connection :=
  mkConn (mkTables [mkRow (mkMeta "bar" "2.1" "misc/bar" "/opt" 0 MPORT_AUTOMATIC 100) "clean"]
                   [] [] []
                   [mkAsset "bar" ASSET_FILE (Some "/opt/bin/bar")
                            (Some "") (Some "") (Some "") (Some "")])
         None.

Lemma update_preserves_flags_and_prefix_witness :
  mport_update_primative easy bar_db bar_bundle = Done (bar_updated, MPORT_OK) /\
  forall r, In r (packages (live bar_updated)) ->
    name (row_pkg r) = "bar" ->
    automatic (row_pkg r) = MPORT_AUTOMATIC /\
    locked (row_pkg r) = 0 /\
    prefix (row_pkg r) = "/opt".
Proof.
  assert (E : mport_update_primative easy bar_db bar_bundle = Done (bar_updated, MPORT_OK))
    by (vm_compute; reflexivity).
  split; [exact E|].
  exact (update_preserves_flags_and_prefix easy bar_db bar_updated bar_bundle
           bar_installed MPORT_OK eq_refl E).
Defined.

End InstallerFacts.

(** ** The planner *)
Module PlannerFacts.
Import Store Planner.
Open Scope string_scope.
Open Scope list_scope.
Open Scope Z_scope.

(** *** mport_autoremove *)

Lemma insert_sorted_in (x y : mportPackageMeta) (l : list mportPackageMeta) :
  In y (insert_sorted x l) <-> y = x \/ In y l.
Proof.
  induction l as [|z l IH]; simpl.
  - intuition.
  - destruct (row_le x z); simpl; [intuition|].
    rewrite IH; intuition.
Qed.

Lemma order_by_pkg_version_in (y : mportPackageMeta) (l : list mportPackageMeta) :
  In y (order_by_pkg_version l) <-> In y l.
Proof.
  induction l as [|x l IH]; simpl; [reflexivity|].
  rewrite insert_sorted_in, IH; intuition.
Qed.

Lemma insert_sorted_length (x : mportPackageMeta) (l : list mportPackageMeta) :
  length (insert_sorted x l) = S (length l).
Proof.
  induction l as [|z l IH]; simpl; [reflexivity|].
  destruct (row_le x z); simpl; congruence.
Qed.

Lemma order_by_pkg_version_length (l : list mportPackageMeta) :
  length (order_by_pkg_version l) = length l.
Proof.
  induction l as [|x l IH]; simpl; [reflexivity|].
  rewrite insert_sorted_length; congruence.
Qed.

(** Every query of the store returns MPORT_OK when it returns. *)
Lemma get_updepends_code (db : tables) (p : mportPackageMeta) (r : Z * vec) :
  mport_pkgmeta_get_updepends db p = Done r -> fst r = MPORT_OK.
Proof.
  unfold mport_pkgmeta_get_updepends.
  match goal with |- context [if ?c then _ else _] => destruct c end;
    [intros H; inversion H; reflexivity|].
  match goal with
  | |- context [populate_vec_from_stmt ?len (map columns ?rows)] =>
      destruct (StoreFacts.populate_cases len rows) as [E|E]; rewrite E
  end; intros H; inversion H; reflexivity.
Qed.

Lemma get_updepends_returns (db : tables) (p : mportPackageMeta) :
  mport_pkgmeta_get_updepends db p <> Diverges.
Proof.
  unfold mport_pkgmeta_get_updepends.
  match goal with |- context [if ?c then _ else _] => destruct c end;
    [discriminate|].
  match goal with
  | |- context [populate_vec_from_stmt ?len (map columns ?rows)] =>
      destruct (StoreFacts.populate_cases len rows) as [E|E]; rewrite E
  end; discriminate.
Qed.

(** The loop reads the unassigned [start] as soon as it meets a package
    that is not explicit. *)
Lemma autoremove_packs_undefined (db : tables) (packs : list mportPackageMeta) :
  existsb (fun p => negb (automatic p =? MPORT_EXPLICIT)) packs = true ->
  autoremove_packs db packs = Undefined.
Proof.
  induction packs as [|p rest IH]; simpl; [discriminate|].
  destruct (automatic p =? MPORT_EXPLICIT); simpl; [exact IH|].
  intros _.
  pose proof (get_updepends_code db p) as Hc.
  pose proof (get_updepends_returns db p) as Hr.
  destruct (mport_pkgmeta_get_updepends db p) as [r| |]; simpl; try congruence.
  rewrite (Hc r eq_refl); reflexivity.
Qed.

Lemma autoremove_undefined (db : tables) :
  existsb (fun r => negb (automatic (row_pkg r) =? MPORT_EXPLICIT)) (packages db) = true ->
  mport_autoremove db = Undefined.
Proof.
  intros H.
  apply existsb_exists in H; destruct H as (r & Hin & Hr).
  unfold mport_autoremove, mport_pkgmeta_list, mport_pkgmeta_count.
  destruct (packages db) as [|r0 rows] eqn:E; [destruct Hin|].
  rewrite <- E.
  assert (Hlen : (Z.of_nat (length (packages db)) =? 0) = false).
  { rewrite E; simpl length; apply Z.eqb_neq; lia. }
  rewrite Hlen.
  rewrite StoreFacts.populate_columns
    by (rewrite order_by_pkg_version_length, length_map; lia).
  simpl.
  apply autoremove_packs_undefined.
  apply existsb_exists; exists (StoreFacts.fetched (row_pkg r)); split; [|exact Hr].
  apply in_map, order_by_pkg_version_in, in_map; rewrite E; exact Hin.
Qed.

Definition leaf : mportPackageMeta :=
  mkMeta "libleaf" "1.0" "devel/libleaf" "/usr/local" 0 MPORT_AUTOMATIC 0.

(** One package, installed as a dependency, that nothing requires. *)
Definition orphan_db : tables := mkTables [mkRow leaf "clean"] [] [] [] [].

(** C5 (the code at the failing input).  On a database whose only package
    is automatic and required by nothing, [mport_autoremove] deletes
    nothing and returns nothing: it replaces the vector of up-depends by
    the unassigned [start] and reads through it. *)
Theorem autoremove_reads_unassigned_start :
  mport_autoremove orphan_db = Undefined.
Proof. apply autoremove_undefined; reflexivity. Qed.

(** *** The rename-reconciliation branch of mport_upgrade *)

Definition old_pkg : mportPackageMeta :=
  mkMeta "oldname" "1.0" "cat/oldname" "/usr/local" 0 MPORT_EXPLICIT 0.

Definition fresh : upgrade_state := mkState [] [] 0 0 0 0.

Definition origin_match (m : mportPackageMeta) : Z := 2.

Definition renamed (o : string) : Z * option (list mportIndexEntry) :=
  (MPORT_OK, Some [mkIndexEntry "newname" "1.0"]).

Definition no_depends (n : string) : Z * vec := (MPORT_OK, None).

Definition update_succeeds (done : list action) (n : string) : Z := 0.

Definition answer (a : Z) (msg yes no : string) (def : Z) : Z := a.

(** A hash function without collisions: the bytes of the name as the
    digits 1 to 256 of a number in base 257. *)
Fixpoint digits (s : string) : Z :=
  match s with
  | EmptyString => 0
  | String c s' => Z.of_N (N_of_ascii c) + 1 + 257 * digits s'
  end.

(** Released storage that holds no name any more. *)
Definition scrubbed (n : nat) : string := "".

(** C6 (the code at the failing input).  For an installed package whose
    index check is 2 (origin match): when the confirmation callback
    returns MPORT_OK nothing is deleted or installed, and when it returns
    the refusal (-1) the old package is deleted and the replacement
    installed.  The test in the source is [!= MPORT_OK]. *)
Theorem rename_pass_inverts_confirmation :
  option_map (fun r => match r with inl st => actions st | inr _ => [] end)
    (upgrade_one no_depends origin_match update_succeeds renamed
       (answer MPORT_OK) digits scrubbed 1 old_pkg fresh)
  = Some [] /\
  option_map (fun r => match r with inl st => actions st | inr _ => [] end)
    (upgrade_one no_depends origin_match update_succeeds renamed
       (answer (-1)) digits scrubbed 1 old_pkg fresh)
  = Some [Delete "oldname"; Install "newname" MPORT_EXPLICIT].
Proof. split; vm_compute; reflexivity. Qed.

(** *** The processed set of mport_update_down *)

Definition app_pkg : mportPackageMeta :=
  mkMeta "app" "1.0" "misc/app" "/usr/local" 0 MPORT_EXPLICIT 0.

Definition gui_pkg : mportPackageMeta :=
  mkMeta "gui" "1.0" "x11/gui" "/usr/local" 0 MPORT_AUTOMATIC 0.

Definition net_pkg : mportPackageMeta :=
  mkMeta "net" "1.0" "net/net" "/usr/local" 0 MPORT_AUTOMATIC 0.

Definition lib_pkg : mportPackageMeta :=
  mkMeta "lib" "1.0" "devel/lib" "/usr/local" 0 MPORT_AUTOMATIC 0.

(** [app] requires [gui] and [net], and each of them requires [lib]. *)
Definition diamond (n : string) : Z * vec :=
  if String.eqb n "app" then (MPORT_OK, Some [gui_pkg; net_pkg])
  else if String.eqb n "gui" || String.eqb n "net" then (MPORT_OK, Some [lib_pkg])
  else (MPORT_OK, None).

Definition update_available (m : mportPackageMeta) : Z := 1.

(** The application [app] requires the library [lib]; both have a newer
    version in the index; updating [lib] fails, updating [app] works. *)
Definition app_needs_lib (n : string) : Z * vec :=
  if String.eqb n "app" then (MPORT_OK, Some [lib_pkg]) else (MPORT_OK, None).

Definition lib_fails (done : list action) (n : string) : Z :=
  if String.eqb n "lib" then MPORT_ERR_FATAL else 0.

Definition depth (n : string) : nat := if String.eqb n "app" then 1%nat else 0%nat.

(** Released storage that still holds the name [lib]. *)
Definition still_lib (n : nat) : string := "lib".

(** What a run leaves: the calls of [mport_update], the names whose
    pointers are in the processed set, and the value returned. *)
Definition outcome (r : option (upgrade_state * Z))
  : option (list action * list string * Z) :=
  option_map (fun r => (actions (fst r), map slot_key (h (fst r)), snd r)) r.

(** C7 (the code at the failing input).  [mport_update_down] on [app],
    every update succeeding.  The name of [lib] is put into the processed
    set by its address in the vector of the down-depends of [gui], and
    that vector is freed when the call on [gui] ends; the loop over the
    down-depends of [net] then compares [lib] with released storage.  When
    the storage holds other bytes by then, [lib] is taken as not processed:
    it is handed to [mport_update] two more times and its name is put into
    the set a second time.  When the storage still holds the name, [lib]
    is skipped.  What the run does depends on memory that it has freed.
    And a dependency whose update fails does not hold back the package
    that requires it: with [app] requiring [lib] and every update of [lib]
    failing, [app] is updated all the same. *)
Theorem update_down_reads_released_name :
  outcome (mport_update_down diamond update_available update_succeeds digits
             scrubbed 3 app_pkg 0 fresh)
  = Some ([Update "lib" 0; Update "lib" 0; Update "gui" 0; Update "gui" 0;
           Update "lib" 0; Update "lib" 0; Update "net" 0; Update "net" 0;
           Update "app" 0],
          ["lib"; "gui"; "lib"; "net"; "app"], 9) /\
  outcome (mport_update_down diamond update_available update_succeeds digits
             still_lib 3 app_pkg 0 fresh)
  = Some ([Update "lib" 0; Update "lib" 0; Update "gui" 0; Update "gui" 0;
           Update "net" 0; Update "net" 0; Update "app" 0],
          ["lib"; "gui"; "net"; "app"], 7) /\
  option_map (fun r => reads (fst r))
    (mport_update_down diamond update_available update_succeeds digits
       scrubbed 3 app_pkg 0 fresh) = Some 4%nat /\
  outcome (mport_update_down app_needs_lib update_available lib_fails digits
             scrubbed 2 app_pkg 0 fresh)
  = Some ([Update "lib" MPORT_ERR_FATAL; Update "lib" MPORT_ERR_FATAL;
           Update "app" 0], ["app"], 1).
Proof. repeat split; vm_compute; reflexivity. Qed.

(** *** The order of the updates in mport_update_down *)

Section Ordering.

Variable get_down : string -> Z * vec.
Variable check : mportPackageMeta -> Z.
Variable update : list action -> string -> Z.
Variable hash : string -> Z.
Variable released : nat -> string.

(** The down-depends of a package as the planner sees them. *)
Definition deps (n : string) : list mportPackageMeta :=
  match get_down n with
  | (code, Some ds) => if code =? MPORT_OK then ds else []
  | (_, None) => []
  end.

(** The state when the vector [v] of down-depends has been handed out. *)
Definition with_vector (v : nat) (st : upgrade_state) : upgrade_state :=
  mkState (h st) (actions st) (updated st) (total st) v (reads st).

(** One iteration of the loop over the down-depends. *)
Lemma update_depends_cons
  (down : mportPackageMeta -> nat -> upgrade_state -> option (upgrade_state * Z))
  (v : nat) (d : mportPackageMeta) (rest : list mportPackageMeta)
  (st : upgrade_state) (ret : Z) :
  update_depends check update hash released down v (d :: rest) st ret =
  if negb (fst (is_processed hash released st (name d))) then
    match down d v (snd (is_processed hash released st (name d))) with
    | None => None
    | Some (st, r) =>
        if negb (check d =? 0) then
          if negb (snd (do_update update st (name d)) =? 0)
          then update_depends check update hash released down v rest
                 (fst (do_update update st (name d))) (ret + r)
          else update_depends check update hash released down v rest
                 (mark_processed hash released
                    (fst (do_update update st (name d))) (name d) v)
                 (ret + r + 1)
        else update_depends check update hash released down v rest st (ret + r)
    end
  else update_depends check update hash released down v rest
         (snd (is_processed hash released st (name d))) ret.
Proof.
  cbn [update_depends].
  destruct (is_processed hash released st (name d)) as [key st1]; reflexivity.
Qed.

(** One level of [mport_update_down]. *)
Lemma mport_update_down_S (fuel : nat) (pack : mportPackageMeta) (owner : nat)
  (st : upgrade_state) :
  mport_update_down get_down check update hash released (S fuel) pack owner st =
  if negb (fst (get_down (name pack)) =? MPORT_OK) then Some (st, 0)
  else
    match snd (get_down (name pack)) with
    | None =>
        let key := fst (is_processed hash released st (name pack)) in
        let st := snd (is_processed hash released st (name pack)) in
        if negb key then
          if negb (check pack =? 0) then
            if negb (snd (do_update update st (name pack)) =? 0)
            then Some (fst (do_update update st (name pack)), 0)
            else Some (mark_processed hash released
                         (fst (do_update update st (name pack))) (name pack) owner, 1)
          else Some (st, 0)
        else Some (st, 0)
    | Some depends =>
        let v := S (vectors st) in
        match update_depends check update hash released
                (mport_update_down get_down check update hash released fuel)
                v depends (with_vector v st) 0 with
        | None => None
        | Some (st, ret) =>
            if negb (check pack =? 0) then
              if negb (snd (do_update update st (name pack)) =? 0)
              then Some (vec_free v (fst (do_update update st (name pack))), ret)
              else
                let found :=
                  lookup hash released (fst (do_update update st (name pack)))
                         (name pack) in
                Some (vec_free v
                        (if filled (snd found) (fst found) then snd found
                         else insert_at hash (snd found) (fst found) (name pack) owner),
                      ret + 1)
            else Some (vec_free v st, ret)
        end
    end.
Proof.
  cbn [mport_update_down].
  destruct (get_down (name pack)) as [code dv]; cbn [fst snd].
  destruct (negb (code =? MPORT_OK)); [reflexivity|].
  destruct dv as [ds|].
  - unfold with_vector.
    destruct (update_depends _ _ _ _ _ _ ds _ 0) as [[st1 ret1]|]; [|reflexivity].
    destruct (negb (check pack =? 0)); [|reflexivity].
    destruct (do_update update st1 (name pack)) as [st2 r2]; cbn [fst snd].
    destruct (negb (r2 =? 0)); [reflexivity|].
    destruct (lookup hash released st2 (name pack)) as [i st3]; reflexivity.
  - cbv zeta.
    destruct (is_processed hash released st (name pack)) as [key st1]; reflexivity.
Qed.

End Ordering.

End PlannerFacts.

(** ** The exit status of the command *)
Module CliFacts.
Import Store Cli.
Open Scope string_scope.
Open Scope list_scope.
Open Scope Z_scope.


Definition yes (msg y n : string) (def : Z) : Z := MPORT_OK.








End CliFacts.

(** ** More on libmport/version_cmp.c *)
Module VersionLaws.
Import Version VersionSpec VersionFacts.
Open Scope Z_scope.

(** *** The sign of a comparison *)

Definition is_sign (r : Z) : Prop := r = -1 \/ r = 0 \/ r = 1.

Lemma cmp_ints_sign (a b : Z) : is_sign (cmp_ints a b).
Proof. unfold is_sign; destruct (cmp_ints_range a b) as [H|[H|H]]; auto. Qed.

Lemma loop_cond_returns (a b : list ascii) : loop_cond a b <> Diverges.
Proof.
  unfold loop_cond; destruct a as [|ca ra]; [discriminate|].
  destruct (is_nul ca); simpl; [|discriminate].
  destruct b; discriminate.
Qed.

(** The loop ends, with the value it was entered with or with the value of
    a [cmp_ints], or it reads out of bounds. *)
Lemma cmp_versions_loop_sign (n : nat) :
  forall (a b : list ascii) (result : Z),
    (length a + length b < n)%nat ->
    is_sign result ->
    match cmp_versions_loop a b result with
    | Done r => is_sign r
    | Undefined => True
    | Diverges => False
    end.
Proof.
  induction n as [|n IH]; intros a b result Hn Hres; [lia|].
  rewrite cmp_versions_loop_eq.
  pose proof (loop_cond_returns a b) as Rc.
  destruct (loop_cond a b) as [[|]| |] eqn:Hl;
    [|exact Hres|exact I|congruence].
  pose proof (next_sub_returns a) as Ra.
  pose proof (next_sub_returns b) as Rb.
  destruct (next_sub a) as [[a_sub a']| |] eqn:Ha; [|exact I|congruence].
  destruct (next_sub b) as [[b_sub b']| |] eqn:Hb; [|exact I|congruence].
  destruct (cmp_ints a_sub b_sub =? 0); [|apply cmp_ints_sign].
  apply IH; [|apply cmp_ints_sign].
  destruct (next_sub_length _ _ _ Ha) as [La Sa].
  destruct (next_sub_length _ _ _ Hb) as [Lb Sb].
  destruct (loop_cond_true _ _ Hl) as [(c & r & Ec & N)|(c & r & Ec & N)].
  - specialize (Sa _ _ Ec N); lia.
  - specialize (Sb _ _ Ec N); lia.
Qed.

Lemma mport_version_cmp_bytes_sign (a b : list ascii) :
  match mport_version_cmp_bytes a b with
  | Done r => is_sign r
  | Undefined => True
  | Diverges => False
  end.
Proof.
  unfold mport_version_cmp_bytes, cmp_versions.
  destruct (cmp_ints (v_epoch (parse_version a)) (v_epoch (parse_version b)) =? 0);
    [|apply cmp_ints_sign].
  pose proof (cmp_versions_loop_sign
                (S (length (v_version (parse_version a)) +
                    length (v_version (parse_version b))))
                (v_version (parse_version a)) (v_version (parse_version b)) 0) as H.
  destruct (cmp_versions_loop _ _ 0) as [r| |]; simpl;
    [|exact I|apply H; [lia|right; left; reflexivity]].
  destruct (r =? 0); [apply cmp_ints_sign|].
  apply H; [lia|right; left; reflexivity].
Qed.

(** X1.  Whatever the two strings are, [mport_version_cmp] does not loop
    forever, and a value it returns is -1, 0 or 1 (the only other outcome
    is a read outside an allocation). *)
Theorem mport_version_cmp_sign (a b : string) :
  match mport_version_cmp a b with
  | Done r => r = -1 \/ r = 0 \/ r = 1
  | Undefined => True
  | Diverges => False
  end.
Proof. unfold mport_version_cmp; apply mport_version_cmp_bytes_sign. Qed.

(** X2.  A version compared with itself is equal to itself: the call
    returns 0, unless the walk leaves the allocation (a base that ends in a
    separator). *)
Theorem mport_version_cmp_refl (a : string) :
  mport_version_cmp a a = Done 0 \/ mport_version_cmp a a = Undefined.
Proof.
  unfold mport_version_cmp.
  pose proof (mport_version_cmp_bytes_antisym
                (list_ascii_of_string a) (list_ascii_of_string a)) as Hs.
  pose proof (mport_version_cmp_bytes_sign
                (list_ascii_of_string a) (list_ascii_of_string a)) as Hr.
  destruct (mport_version_cmp_bytes (list_ascii_of_string a) (list_ascii_of_string a))
    as [r| |]; [left|right; reflexivity|destruct Hr].
  simpl in Hs; injection Hs as Hs; f_equal; lia.
Qed.

(** *** The order on canonical versions *)

Lemma compare_sign (x y : Z) : is_sign (compare x y).
Proof.
  unfold is_sign, compare; destruct (x <? y); [auto|]; destruct (y <? x); auto.
Qed.

Lemma compare_spec (x y : Z) :
  (x < y /\ compare x y = -1) \/ (x = y /\ compare x y = 0) \/
  (y < x /\ compare x y = 1).
Proof.
  unfold compare; destruct (Z.ltb_spec x y), (Z.ltb_spec y x); lia.
Qed.

(** One step of the lockstep walk, the shorter side padded with 0. *)
Lemma compare_tokens_step (xs ys : list Z) :
  compare_tokens xs ys =
  if compare (hd 0 xs) (hd 0 ys) =? 0 then compare_tokens (tl xs) (tl ys)
  else compare (hd 0 xs) (hd 0 ys).
Proof.
  destruct xs as [|x xs], ys as [|y ys]; reflexivity.
Qed.

Lemma compare_tokens_sign (xs : list Z) : forall ys, is_sign (compare_tokens xs ys).
Proof.
  assert (Hp : forall ys, is_sign (compare_padding ys)).
  { induction ys as [|y ys IH]; simpl; [right; left; reflexivity|].
    destruct (compare 0 y =? 0); [exact IH|apply compare_sign]. }
  induction xs as [|x xs IH]; intros ys; simpl; [apply Hp|].
  destruct ys as [|y ys].
  - destruct (compare x 0 =? 0); [apply IH|apply compare_sign].
  - destruct (compare x y =? 0); [apply IH|apply compare_sign].
Qed.

Lemma compare_tokens_refl (xs : list Z) : compare_tokens xs xs = 0.
Proof.
  induction xs as [|x xs IH]; simpl; [reflexivity|].
  destruct (compare_spec x x) as [[H _]|[[_ H]|[H _]]]; try lia.
  rewrite H; exact IH.
Qed.

(** The walk orders the token sequences: "not greater" is transitive, and
    the two ends compare equal only if both steps did. *)
Lemma compare_tokens_trans (n : nat) :
  forall xs ys zs : list Z,
    (length xs + length ys + length zs < n)%nat ->
    compare_tokens xs ys <= 0 -> compare_tokens ys zs <= 0 ->
    compare_tokens xs zs <= 0 /\
    (compare_tokens xs zs = 0 -> compare_tokens xs ys = 0 /\ compare_tokens ys zs = 0).
Proof.
  induction n as [|n IH]; intros xs ys zs Hn; [lia|].
  assert (Htl : forall l : list Z, length (tl l) = pred (length l))
    by (intros [|? ?]; reflexivity).
  destruct (Nat.eq_dec (length xs + length ys + length zs) 0) as [Hz|Hz].
  { destruct xs, ys, zs; simpl in Hz; try lia; simpl; lia. }
  rewrite (compare_tokens_step xs ys), (compare_tokens_step ys zs),
    (compare_tokens_step xs zs).
  assert (Hl : (length (tl xs) + length (tl ys) + length (tl zs) < n)%nat)
    by (rewrite !Htl; lia).
  specialize (IH (tl xs) (tl ys) (tl zs) Hl).
  generalize dependent (compare_tokens (tl xs) (tl ys)).
  generalize dependent (compare_tokens (tl ys) (tl zs)).
  generalize dependent (compare_tokens (tl xs) (tl zs)).
  intros txz tyz txy IH.
  destruct (compare_spec (hd 0 xs) (hd 0 ys)) as [[H1 E1]|[[H1 E1]|[H1 E1]]];
    destruct (compare_spec (hd 0 ys) (hd 0 zs)) as [[H2 E2]|[[H2 E2]|[H2 E2]]];
    destruct (compare_spec (hd 0 xs) (hd 0 zs)) as [[H3 E3]|[[H3 E3]|[H3 E3]]];
    rewrite E1, E2, E3; simpl; try lia; exact IH.
Qed.

Lemma version_cmp_bytes_sign (a b : list ascii) : is_sign (version_cmp_bytes a b).
Proof.
  unfold version_cmp_bytes, compare_base.
  destruct (compare _ _ =? 0); [|apply compare_sign].
  destruct (compare_tokens _ _ =? 0); [apply compare_sign|apply compare_tokens_sign].
Qed.

(** Epochs first, then the walk, then the revisions. *)
Lemma lexicographic_trans (ea eb ec ra rb rc tab tbc tac : Z) :
  is_sign tab -> is_sign tbc -> is_sign tac ->
  (tab <= 0 -> tbc <= 0 -> tac <= 0 /\ (tac = 0 -> tab = 0 /\ tbc = 0)) ->
  let lex (e e' t r r' : Z) :=
    if compare e e' =? 0 then if t =? 0 then compare r r' else t else compare e e' in
  lex ea eb tab ra rb <= 0 -> lex eb ec tbc rb rc <= 0 ->
  lex ea ec tac ra rc <= 0 /\
  (lex ea ec tac ra rc = 0 -> lex ea eb tab ra rb = 0 /\ lex eb ec tbc rb rc = 0).
Proof.
  unfold is_sign; intros S1 S2 S3 Ht; cbv zeta.
  destruct (compare_spec ea eb) as [[H1 E1]|[[H1 E1]|[H1 E1]]];
  destruct (compare_spec eb ec) as [[H2 E2]|[[H2 E2]|[H2 E2]]];
  destruct (compare_spec ea ec) as [[H3 E3]|[[H3 E3]|[H3 E3]]];
  rewrite E1, E2, E3; simpl; try lia.
  destruct (compare_spec ra rb) as [[H4 E4]|[[H4 E4]|[H4 E4]]];
  destruct (compare_spec rb rc) as [[H5 E5]|[[H5 E5]|[H5 E5]]];
  destruct (compare_spec ra rc) as [[H6 E6]|[[H6 E6]|[H6 E6]]];
  rewrite E4, E5, E6; try lia;
  destruct (Z.eqb_spec tab 0), (Z.eqb_spec tbc 0), (Z.eqb_spec tac 0); lia.
Qed.

Lemma version_cmp_bytes_trans (a b c : list ascii) :
  version_cmp_bytes a b <= 0 -> version_cmp_bytes b c <= 0 ->
  version_cmp_bytes a c <= 0 /\
  (version_cmp_bytes a c = 0 -> version_cmp_bytes a b = 0 /\ version_cmp_bytes b c = 0).
Proof.
  unfold version_cmp_bytes, compare_base.
  apply (lexicographic_trans
           (epoch (parse a)) (epoch (parse b)) (epoch (parse c))
           (revision (parse a)) (revision (parse b)) (revision (parse c)));
    try apply compare_tokens_sign.
  apply (compare_tokens_trans
           (S (length (tokens (base (parse a))) + length (tokens (base (parse b))) +
               length (tokens (base (parse c)))))).
  apply Nat.lt_succ_diag_r.
Qed.

(** X3.  On canonical version strings [mport_version_cmp] is an order:
    when [a] is not greater than [b] and [b] is not greater than [c], the
    call on [a] and [c] returns, [a] is not greater than [c], and [a]
    equals [c] only if [a] equals [b] and [b] equals [c]. *)
Theorem mport_version_cmp_trans (a b c : string) (r1 r2 : Z) :
  canonical (list_ascii_of_string a) = true ->
  canonical (list_ascii_of_string b) = true ->
  canonical (list_ascii_of_string c) = true ->
  mport_version_cmp a b = Done r1 -> r1 <= 0 ->
  mport_version_cmp b c = Done r2 -> r2 <= 0 ->
  exists r3, mport_version_cmp a c = Done r3 /\ r3 <= 0 /\
             (r3 = 0 -> r1 = 0 /\ r2 = 0).
Proof.
  unfold mport_version_cmp; intros Ha Hb Hc.
  rewrite (mport_version_cmp_bytes_refines _ _ Ha Hb),
    (mport_version_cmp_bytes_refines _ _ Hb Hc),
    (mport_version_cmp_bytes_refines _ _ Ha Hc).
  intros E1 L1 E2 L2; injection E1 as <-; injection E2 as <-.
  exists (version_cmp_bytes (list_ascii_of_string a) (list_ascii_of_string c)).
  split; [reflexivity|].
  apply version_cmp_bytes_trans; assumption.
Qed.

Lemma mport_version_cmp_trans_witness :
  exists r3, mport_version_cmp "1.9_3" "1.10" = Done r3 /\ r3 <= 0 /\
             (r3 = 0 -> -1 = 0 /\ 0 = 0).
Proof.
  apply (mport_version_cmp_trans "1.9_3" "1.10" "1.10.0" (-1) 0);
    vm_compute; solve [reflexivity | discriminate].
Defined.

(** *** mport_version_require_check *)

Definition is_operator (c : ascii) : bool :=
  Ascii.eqb c ">" || Ascii.eqb c "<" || Ascii.eqb c "=".

(** A version without NUL and without an operator character. *)
Definition operator_free (v : list ascii) : bool :=
  forallb (fun c => negb (is_operator c)) v.

Definition plain_version (v : list ascii) : bool :=
  nul_free v && operator_free v.

Lemma scan_require_plain (v : list ascii) :
  forall (i : Z) (p : positions),
    operator_free v = true -> scan_require i v p = p.
Proof.
  unfold operator_free; induction v as [|c v IH]; intros i p H; [reflexivity|].
  simpl in H; apply andb_true_iff in H; destruct H as [Hc Hv].
  apply negb_true_iff in Hc; unfold is_operator in Hc.
  apply orb_false_iff in Hc; destruct Hc as [Hc He].
  apply orb_false_iff in Hc; destruct Hc as [Hg Hl].
  cbn [scan_require]; rewrite Hg, Hl, He.
  destruct p; apply IH; exact Hv.
Qed.

Lemma scan_require_app (a b : list ascii) :
  forall (i : Z) (p : positions),
    scan_require i (a ++ b) p =
    scan_require (i + Z.of_nat (length a)) b (scan_require i a p).
Proof.
  induction a as [|c a IH]; intros i p.
  - simpl; rewrite Z.add_0_r; reflexivity.
  - cbn [app scan_require length]; rewrite IH; f_equal; lia.
Qed.

Lemma nul_free_cstr (x : list ascii) : nul_free (cstr x) = true.
Proof.
  unfold nul_free; induction x as [|c x IH]; simpl; [reflexivity|].
  destruct (is_nul c) eqn:Hc; simpl; [reflexivity|].
  rewrite Hc; exact IH.
Qed.

Lemma cstr_length (x : list ascii) : (length (cstr x) <= length x)%nat.
Proof.
  induction x as [|c x IH]; simpl; [lia|].
  destruct (is_nul c); simpl; lia.
Qed.

Lemma operator_free_cstr (x : list ascii) :
  operator_free x = true -> operator_free (cstr x) = true.
Proof.
  unfold operator_free; induction x as [|c x IH]; simpl; [reflexivity|].
  intros H; apply andb_true_iff in H; destruct H as [Hc Hx].
  destruct (is_nul c); simpl; [reflexivity|].
  rewrite Hc, (IH Hx); reflexivity.
Qed.

Lemma cstr_strdup (x : list ascii) : cstr (strdup x) = cstr x.
Proof. unfold strdup; apply cstr_app_nul, nul_free_cstr. Qed.

(** What follows the first NUL of the second argument is never read. *)
Lemma mport_version_cmp_bytes_cut (baseline v r : list ascii) :
  nul_free v = true ->
  mport_version_cmp_bytes baseline (v ++ NUL :: r) = mport_version_cmp_bytes baseline v.
Proof.
  intros Hv; unfold mport_version_cmp_bytes, parse_version, strdup.
  rewrite (cstr_app_nul v r Hv), (cstr_nul_free v Hv); reflexivity.
Qed.

(** X4.  A requirement shorter than two characters, or without any of
    the characters [<], [>] and [=], is an error: the check returns 1
    whatever the baseline. *)
Theorem require_check_malformed (baseline require : string) :
  (length (list_ascii_of_string require) < 2)%nat \/
  operator_free (list_ascii_of_string require) = true ->
  mport_version_require_check baseline require = Done 1.
Proof.
  unfold mport_version_require_check, mport_version_require_check_bytes.
  generalize (list_ascii_of_string require) as r; intros r H.
  rewrite cstr_strdup.
  destruct (Z.ltb_spec (Z.of_nat (length (cstr r))) 2) as [|Hlen]; [reflexivity|].
  destruct H as [H|H]; [pose proof (cstr_length r); lia|].
  rewrite (scan_require_plain (cstr r) 0 _ (operator_free_cstr r H)).
  reflexivity.
Qed.

Lemma require_check_malformed_witness :
  mport_version_require_check "3.1.4" "|" = Done 1 /\
  mport_version_require_check "3.1.4" "2.0" = Done 1.
Proof.
  split.
  - apply (require_check_malformed "3.1.4" "|"); left; simpl; lia.
  - apply (require_check_malformed "3.1.4" "2.0"); right; reflexivity.
Defined.

Definition verdict (holds : bool) : Z := if holds then 0 else -1.

(** The buffer of a requirement made of a prefix without NUL and a plain
    version. *)
Lemma strdup_plain (x : list ascii) : nul_free x = true -> strdup x = x ++ [NUL].
Proof. intros H; unfold strdup; rewrite (cstr_nul_free x H); reflexivity. Qed.

Lemma nul_free_app (x y : list ascii) :
  nul_free (x ++ y) = nul_free x && nul_free y.
Proof. unfold nul_free; apply forallb_app. Qed.

Lemma plain_version_parts (v : list ascii) :
  plain_version v = true -> nul_free v = true /\ operator_free v = true.
Proof. unfold plain_version; intros H; apply andb_true_iff in H; exact H. Qed.

(** A plain version does not start with [=]. *)
Lemma plain_head_not_equal (v r : list ascii) (c : ascii) :
  operator_free v = true -> v <> [] ->
  nth_error (v ++ r) 0 = Some c -> Ascii.eqb c "=" = false.
Proof.
  destruct v as [|d v]; [congruence|].
  unfold operator_free; simpl; intros H _ E; injection E as <-.
  apply andb_true_iff in H; destruct H as [H _].
  apply negb_true_iff in H; unfold is_operator in H.
  apply orb_false_iff in H; destruct H as [_ H]; exact H.
Qed.

Lemma load_0 (c : ascii) (s : list ascii) : load (c :: s) 0 = Done c.
Proof. reflexivity. Qed.

Lemma load_1 (c d : ascii) (s : list ascii) : load (c :: d :: s) 1 = Done d.
Proof. reflexivity. Qed.

Lemma address_1 (c : ascii) (s : list ascii) : address (c :: s) 1 = s.
Proof. reflexivity. Qed.

Lemma address_2 (c d : ascii) (s : list ascii) : address (c :: d :: s) 2 = s.
Proof. reflexivity. Qed.

(** The single-bound branch, for the four operators. *)
Lemma require_check_le (baseline v : list ascii) :
  plain_version v = true ->
  mport_version_require_check_bytes baseline ("<" :: "=" :: v)%char =
  run_map (fun r => verdict (r <=? 0)) (mport_version_cmp_bytes baseline v).
Proof.
  intros Hp; destruct (plain_version_parts v Hp) as [Hn Ho].
  unfold mport_version_require_check_bytes.
  rewrite (strdup_plain ("<" :: "=" :: v)%char Hn).
  rewrite (cstr_app_nul ("<" :: "=" :: v)%char [] Hn).
  destruct (Z.ltb_spec (Z.of_nat (length ("<" :: "=" :: v)%char)) 2) as [Hl|_];
    [simpl length in Hl; lia|].
  cbn [scan_require Ascii.eqb Bool.eqb record_pos greater less equal fst snd].
  rewrite (scan_require_plain v _ _ Ho).
  cbn -[mport_version_cmp_bytes load address].
  rewrite load_0, load_1, address_2; cbn -[mport_version_cmp_bytes].
  rewrite (mport_version_cmp_bytes_cut baseline v [] Hn).
  destruct (mport_version_cmp_bytes baseline v); reflexivity.
Qed.

Lemma require_check_ge (baseline v : list ascii) :
  plain_version v = true ->
  mport_version_require_check_bytes baseline (">" :: "=" :: v)%char =
  run_map (fun r => verdict (r >=? 0)) (mport_version_cmp_bytes baseline v).
Proof.
  intros Hp; destruct (plain_version_parts v Hp) as [Hn Ho].
  unfold mport_version_require_check_bytes.
  rewrite (strdup_plain (">" :: "=" :: v)%char Hn).
  rewrite (cstr_app_nul (">" :: "=" :: v)%char [] Hn).
  destruct (Z.ltb_spec (Z.of_nat (length (">" :: "=" :: v)%char)) 2) as [Hl|_];
    [simpl length in Hl; lia|].
  cbn [scan_require Ascii.eqb Bool.eqb record_pos greater less equal fst snd].
  rewrite (scan_require_plain v _ _ Ho).
  cbn -[mport_version_cmp_bytes load address].
  rewrite load_0, load_1, address_2; cbn -[mport_version_cmp_bytes].
  rewrite (mport_version_cmp_bytes_cut baseline v [] Hn).
  destruct (mport_version_cmp_bytes baseline v); reflexivity.
Qed.

Lemma require_check_lt (baseline v : list ascii) :
  plain_version v = true -> v <> [] ->
  mport_version_require_check_bytes baseline ("<" :: v)%char =
  run_map (fun r => verdict (r <? 0)) (mport_version_cmp_bytes baseline v).
Proof.
  intros Hp Hne; destruct (plain_version_parts v Hp) as [Hn Ho].
  unfold mport_version_require_check_bytes.
  rewrite (strdup_plain ("<" :: v)%char Hn).
  rewrite (cstr_app_nul ("<" :: v)%char [] Hn).
  destruct (Z.ltb_spec (Z.of_nat (length ("<" :: v)%char)) 2) as [Hl|_];
    [destruct v; [congruence|simpl length in Hl; lia]|].
  cbn [scan_require Ascii.eqb Bool.eqb record_pos greater less equal fst snd].
  rewrite (scan_require_plain v _ _ Ho).
  cbn -[mport_version_cmp_bytes load address].
  rewrite load_0, address_1.
  destruct v as [|d v']; [congruence|].
  cbn [app]; rewrite load_1; cbn [run_bind].
  rewrite (plain_head_not_equal (d :: v') [] d Ho Hne eq_refl).
  cbn -[mport_version_cmp_bytes].
  change (d :: v' ++ [NUL]) with ((d :: v') ++ [NUL]).
  rewrite (mport_version_cmp_bytes_cut baseline (d :: v') [] Hn).
  destruct (mport_version_cmp_bytes baseline (d :: v')); reflexivity.
Qed.

Lemma require_check_gt (baseline v : list ascii) :
  plain_version v = true -> v <> [] ->
  mport_version_require_check_bytes baseline (">" :: v)%char =
  run_map (fun r => verdict (r >? 0)) (mport_version_cmp_bytes baseline v).
Proof.
  intros Hp Hne; destruct (plain_version_parts v Hp) as [Hn Ho].
  unfold mport_version_require_check_bytes.
  rewrite (strdup_plain (">" :: v)%char Hn).
  rewrite (cstr_app_nul (">" :: v)%char [] Hn).
  destruct (Z.ltb_spec (Z.of_nat (length (">" :: v)%char)) 2) as [Hl|_];
    [destruct v; [congruence|simpl length in Hl; lia]|].
  cbn [scan_require Ascii.eqb Bool.eqb record_pos greater less equal fst snd].
  rewrite (scan_require_plain v _ _ Ho).
  cbn -[mport_version_cmp_bytes load address].
  rewrite load_0, address_1.
  destruct v as [|d v']; [congruence|].
  cbn [app]; rewrite load_1; cbn [run_bind].
  rewrite (plain_head_not_equal (d :: v') [] d Ho Hne eq_refl).
  cbn -[mport_version_cmp_bytes].
  change (d :: v' ++ [NUL]) with ((d :: v') ++ [NUL]).
  rewrite (mport_version_cmp_bytes_cut baseline (d :: v') [] Hn).
  destruct (mport_version_cmp_bytes baseline (d :: v')); reflexivity.
Qed.

(** X5.  A requirement made of one operator and a version [v] (no NUL,
    no operator character, not empty) is met exactly when the comparison
    of the baseline with [v] says so: [<v] when it is negative, [<=v] when
    it is not positive, [>v] when it is positive, [>=v] when it is not
    negative; the check returns 0 when met and -1 when not. *)
Theorem require_check_single_bound (baseline v : string) :
  plain_version (list_ascii_of_string v) = true ->
  v <> EmptyString ->
  mport_version_require_check baseline ("<" ++ v) =
    run_map (fun r => verdict (r <? 0)) (mport_version_cmp baseline v) /\
  mport_version_require_check baseline ("<=" ++ v) =
    run_map (fun r => verdict (r <=? 0)) (mport_version_cmp baseline v) /\
  mport_version_require_check baseline (">" ++ v) =
    run_map (fun r => verdict (r >? 0)) (mport_version_cmp baseline v) /\
  mport_version_require_check baseline (">=" ++ v) =
    run_map (fun r => verdict (r >=? 0)) (mport_version_cmp baseline v).
Proof.
  intros Hp Hne.
  assert (Hl : list_ascii_of_string v <> []) by (destruct v; [congruence|discriminate]).
  unfold mport_version_require_check, mport_version_cmp; cbn [append list_ascii_of_string].
  repeat split.
  - apply require_check_lt; assumption.
  - apply require_check_le; assumption.
  - apply require_check_gt; assumption.
  - apply require_check_ge; assumption.
Qed.

Lemma require_check_single_bound_witness :
  mport_version_require_check "0.2.1" (">=" ++ "2.0") = Done (-1) /\
  mport_version_require_check "4.1.2" ("<" ++ "5.1") = Done 0.
Proof.
  destruct (require_check_single_bound "0.2.1" "2.0" eq_refl) as (_ & _ & _ & H);
    [discriminate|].
  destruct (require_check_single_bound "4.1.2" "5.1" eq_refl) as (H' & _);
    [discriminate|].
  split; [rewrite H|rewrite H']; vm_compute; reflexivity.
Defined.


(** *** The double bound *)

Lemma store_nul_at (pre r : list ascii) (c : ascii) :
  store_nul (pre ++ c :: r) (Z.of_nat (length pre)) = pre ++ NUL :: r.
Proof. unfold store_nul; rewrite Nat2Z.id; apply poke_nul_at_end. Qed.

Lemma load_after (pre r : list ascii) (c d : ascii) :
  load (pre ++ c :: d :: r) (Z.of_nat (length pre) + 1) = Done d.
Proof.
  unfold load.
  destruct (Z.ltb_spec (Z.of_nat (length pre) + 1) 0); [lia|].
  replace (Z.to_nat (Z.of_nat (length pre) + 1)) with (length pre + 1)%nat by lia.
  rewrite nth_error_app2 by lia.
  replace (length pre + 1 - length pre)%nat with 1%nat by lia; reflexivity.
Qed.

Lemma address_after (pre r : list ascii) (c : ascii) :
  address (pre ++ c :: r) (Z.of_nat (length pre) + 1) = r.
Proof.
  unfold address.
  replace (Z.to_nat (Z.of_nat (length pre) + 1)) with (length pre + 1)%nat by lia.
  rewrite skipn_app, skipn_all2 by lia.
  replace (length pre + 1 - length pre)%nat with 1%nat by lia; reflexivity.
Qed.

(** A lower bound at the head of the requirement and one [<] behind it:
    only what follows the [<] is compared. *)
Lemma require_check_upper_only (baseline pre hi : list ascii) (e0 : Z) :
  nul_free pre = true -> pre <> [] ->
  plain_version hi = true -> hi <> [] ->
  scan_require 0 pre (mkPositions (-1, -1) (-1, -1) (-1, -1)) =
    mkPositions (0, -1) (-1, -1) (e0, -1) ->
  mport_version_require_check_bytes baseline (pre ++ "<"%char :: hi) =
  run_map (fun r => verdict (r <? 0)) (mport_version_cmp_bytes baseline hi).
Proof.
  intros Hpre Hne Hp Hhi Hscan; destruct (plain_version_parts hi Hp) as [Hn Ho].
  assert (Hall : nul_free (pre ++ "<"%char :: hi) = true)
    by (rewrite nul_free_app, Hpre; exact Hn).
  unfold mport_version_require_check_bytes.
  rewrite (strdup_plain _ Hall), (cstr_app_nul _ [] Hall).
  destruct (Z.ltb_spec (Z.of_nat (length (pre ++ "<"%char :: hi))) 2) as [Hl|_].
  { rewrite length_app in Hl; destruct pre, hi; simpl in Hl; try congruence; lia. }
  assert (Hsc : scan_require 0 (pre ++ "<"%char :: hi)
                  (mkPositions (-1, -1) (-1, -1) (-1, -1)) =
                mkPositions (0, -1) (Z.of_nat (length pre), -1) (e0, -1)).
  { rewrite scan_require_app, Hscan.
    change (scan_require (0 + Z.of_nat (length pre)) ("<"%char :: hi)
              (mkPositions (0, -1) (-1, -1) (e0, -1)))
      with (scan_require (0 + Z.of_nat (length pre) + 1) hi
              (mkPositions (0, -1) (0 + Z.of_nat (length pre), -1) (e0, -1))).
    rewrite (scan_require_plain hi _ _ Ho), Z.add_0_l; reflexivity. }
  rewrite Hsc; cbn [greater less equal fst snd].
  assert (Hpos : 0 < Z.of_nat (length pre)) by (destruct pre; [congruence|simpl; lia]).
  change (0 =? -1) with false; change (-1 >? -1) with false;
    change (0 >? -1) with true; change (-1 >? 0) with false;
    change (0 >? 0) with false.
  replace (Z.of_nat (length pre) >? -1) with true by (symmetry; apply Z.gtb_lt; lia).
  replace (Z.of_nat (length pre) >? 0) with true by (symmetry; apply Z.gtb_lt; lia).
  cbn [andb orb negb].
  unfold strdup at 1; rewrite (cstr_app_nul _ [] Hall).
  rewrite <- app_assoc; cbn [app].
  unfold check_bound.
  rewrite !store_nul_at.
  destruct hi as [|d hi']; [congruence|].
  cbn [app]; rewrite load_after, address_after; cbn [run_bind].
  rewrite (plain_head_not_equal (d :: hi') [] d Ho Hhi eq_refl).
  change (d :: hi' ++ [NUL]) with ((d :: hi') ++ [NUL]).
  rewrite (mport_version_cmp_bytes_cut baseline (d :: hi') [] Hn).
  destruct (mport_version_cmp_bytes baseline (d :: hi')) as [r| |] eqn:Hcmp;
    [|reflexivity|reflexivity].
  cbn [run_bind run_map]; unfold verdict.
  destruct (r <? 0) eqn:Hr; [|reflexivity].
  change (0 =? -1) with false; cbv iota.
  rewrite store_nul_at, address_after.
  change (d :: hi' ++ [NUL]) with ((d :: hi') ++ [NUL]).
  rewrite (mport_version_cmp_bytes_cut baseline (d :: hi') [] Hn), Hcmp.
  cbn [run_bind]; rewrite Hr; reflexivity.
Qed.

Lemma list_ascii_of_string_app (s t : string) :
  list_ascii_of_string (s ++ t) = (list_ascii_of_string s ++ list_ascii_of_string t)%list.
Proof. induction s as [|c s IH]; simpl; [reflexivity|rewrite IH; reflexivity]. Qed.

(** X6.  In a double-bound requirement [>=lo<hi] or [>lo<hi] (versions
    without NUL and without operator characters, [hi] not empty) the lower
    bound is never compared: the check gives what the upper bound [<hi]
    alone gives. *)
Theorem require_check_double_bound_is_upper_bound (baseline lo hi : string) :
  plain_version (list_ascii_of_string lo) = true ->
  plain_version (list_ascii_of_string hi) = true ->
  hi <> EmptyString ->
  mport_version_require_check baseline (">=" ++ lo ++ "<" ++ hi) =
    mport_version_require_check baseline ("<" ++ hi) /\
  mport_version_require_check baseline (">" ++ lo ++ "<" ++ hi) =
    mport_version_require_check baseline ("<" ++ hi).
Proof.
  intros Hlo Hhi Hne.
  assert (Hl : list_ascii_of_string hi <> []) by (destruct hi; [congruence|discriminate]).
  destruct (plain_version_parts _ Hlo) as [Hn Ho].
  unfold mport_version_require_check.
  cbn [append list_ascii_of_string].
  rewrite (require_check_lt _ _ Hhi Hl).
  rewrite !list_ascii_of_string_app; cbn [append list_ascii_of_string app].
  split.
  - apply (require_check_upper_only (list_ascii_of_string baseline)
             (">" :: "=" :: list_ascii_of_string lo)%char (list_ascii_of_string hi) 1);
      try assumption; [discriminate|].
    change (scan_require 0 (">" :: "=" :: list_ascii_of_string lo)%char
              (mkPositions (-1, -1) (-1, -1) (-1, -1)))
      with (scan_require (0 + 1 + 1) (list_ascii_of_string lo)
              (mkPositions (0, -1) (-1, -1) (1, -1))).
    apply scan_require_plain; exact Ho.
  - apply (require_check_upper_only (list_ascii_of_string baseline)
             (">" :: list_ascii_of_string lo)%char (list_ascii_of_string hi) (-1));
      try assumption; [discriminate|].
    change (scan_require 0 (">" :: list_ascii_of_string lo)%char
              (mkPositions (-1, -1) (-1, -1) (-1, -1)))
      with (scan_require (0 + 1) (list_ascii_of_string lo)
              (mkPositions (0, -1) (-1, -1) (-1, -1))).
    apply scan_require_plain; exact Ho.
Qed.

Lemma require_check_double_bound_is_upper_bound_witness :
  mport_version_require_check "0.2.1" (">=" ++ "1.4.0" ++ "<" ++ "1.5") = Done 0.
Proof.
  destruct (require_check_double_bound_is_upper_bound "0.2.1" "1.4.0" "1.5"
              eq_refl eq_refl) as [H _]; [discriminate|].
  rewrite H; vm_compute; reflexivity.
Defined.


End VersionLaws.

(** ** The Internet checksum of libmport/ping.c *)
Module PingFacts.
Import Ping.
Open Scope Z_scope.

Lemma byte_value_range (c : ascii) : 0 <= byte_value c < 256.
Proof.
  unfold byte_value; pose proof (N_ascii_bounded c); lia.
Qed.

Lemma load_short_range (lo hi : ascii) : 0 <= load_short lo hi <= 65535.
Proof.
  unfold load_short.
  pose proof (byte_value_range lo); pose proof (byte_value_range hi); lia.
Qed.

Lemma byte_value_of_N (x : Z) :
  0 <= x < 256 -> byte_value (ascii_of_N (Z.to_N x)) = x.
Proof.
  intros H; unfold byte_value; rewrite N_ascii_embedding by lia; lia.
Qed.

Lemma load_store_short (v : Z) :
  0 <= v < 65536 ->
  match store_short v with
  | [lo; hi] => load_short lo hi = v
  | _ => False
  end.
Proof.
  intros H; unfold store_short, load_short.
  rewrite !byte_value_of_N by (apply Z.mod_pos_bound; lia).
  rewrite (Z.mod_small (v / 256)) by (split; [apply Z.div_pos|apply Z.div_lt_upper_bound]; lia).
  pose proof (Z.div_mod v 256); lia.
Qed.

(** The sum of the 16-bit words of a buffer, an odd last byte counted as
    a word of its own. *)
Fixpoint word_sum (buffer : list ascii) : Z :=
  match buffer with
  | lo :: hi :: rest => load_short lo hi + word_sum rest
  | [b] => byte_value b
  | [] => 0
  end.

Lemma word_sum_range (n : nat) :
  forall buffer, (length buffer < n)%nat ->
    0 <= word_sum buffer <= 65535 * ((Z.of_nat (length buffer) + 1) / 2).
Proof.
  induction n as [|n IH]; intros buffer Hn; [lia|].
  destruct buffer as [|lo [|hi rest]].
  - simpl; lia.
  - cbn [word_sum length]; pose proof (byte_value_range lo).
    change ((Z.of_nat 1 + 1) / 2) with 1; lia.
  - cbn [word_sum length] in *.
    pose proof (load_short_range lo hi).
    specialize (IH rest ltac:(lia)).
    replace ((Z.of_nat (S (S (length rest))) + 1) / 2)
      with ((Z.of_nat (length rest) + 1) / 2 + 1); [lia|].
    replace (Z.of_nat (S (S (length rest))) + 1)
      with (Z.of_nat (length rest) + 1 + 1 * 2) by lia.
    rewrite Z.div_add by lia; reflexivity.
Qed.

(** The loop over an object of [length] bytes adds up its words. *)
Lemma sum_shorts_word_sum (n : nat) :
  forall buffer sum, (length buffer < n)%nat ->
    0 <= sum -> sum + word_sum buffer < 2 ^ 64 ->
    sum_shorts buffer (Z.of_nat (length buffer)) sum = Done (sum + word_sum buffer).
Proof.
  induction n as [|n IH]; intros buffer sum Hn Hs Hb; [lia|].
  destruct buffer as [|lo [|hi rest]].
  - simpl; f_equal; lia.
  - cbn [word_sum] in *; pose proof (byte_value_range lo).
    simpl; rewrite Z.mod_small by lia; reflexivity.
  - cbn [word_sum length] in *.
    pose proof (load_short_range lo hi) as Hw.
    pose proof (word_sum_range (S (length rest)) rest ltac:(lia)) as Hr.
    assert (Hg : (Z.of_nat (S (S (length rest))) >? 1) = true) by (apply Z.gtb_lt; lia).
    cbn [sum_shorts]; rewrite Hg.
    replace (Z.of_nat (S (S (length rest))) - 2) with (Z.of_nat (length rest)) by lia.
    rewrite Z.mod_small by lia.
    rewrite IH by lia; f_equal; lia.
Qed.

Lemma word_sum_app (pre : list ascii) :
  forall post, Nat.even (length pre) = true ->
    word_sum (pre ++ post) = word_sum pre + word_sum post.
Proof.
  induction pre as [pre IH] using (induction_ltof1 _ (@length ascii)); unfold ltof in IH.
  intros post He.
  destruct pre as [|lo [|hi rest]]; [reflexivity|discriminate|].
  cbn [app word_sum]; rewrite IH; [lia|simpl; lia|exact He].
Qed.

(** Folding the carries and complementing: what the function returns for
    a sum [x] below 2^32, in terms of [x] modulo 65535. *)
Definition finish (x : Z) : Z :=
  let s := (Z.shiftr x 16 + Z.land x 65535) mod 2 ^ 64 in
  let s := (s + Z.shiftr s 16) mod 2 ^ 64 in
  Z.lnot s mod 2 ^ 16.

Lemma finish_spec (x : Z) :
  0 <= x <= 65535 * 65536 ->
  exists f k, finish x = 65535 - f /\ 0 <= f <= 65535 /\ 0 <= k /\
              x = f + 65535 * k /\ (f = 0 -> x = 0).
Proof.
  intros Hx; unfold finish; cbv zeta.
  assert (Hland : Z.land x 65535 = x mod 2 ^ 16)
    by (change 65535 with (Z.ones 16); apply Z.land_ones; lia).
  rewrite !Hland, !Z.shiftr_div_pow2 by lia.
  change (2 ^ 16) with 65536; change (2 ^ 64) with 18446744073709551616.
  unfold Z.lnot.
  pose proof (Z.div_mod x 65536 ltac:(lia)) as Hd.
  pose proof (Z.mod_pos_bound x 65536 ltac:(lia)) as Hm.
  assert (Hh : 0 <= x / 65536 <= 65535)
    by (split; [apply Z.div_pos; lia|apply Z.div_le_upper_bound; lia]).
  set (h := x / 65536) in *; set (l := x mod 65536) in *.
  rewrite (Z.mod_small (h + l)) by lia.
  destruct (Z_lt_le_dec (h + l) 65536) as [Hlt|Hge].
  - rewrite (Z.div_small (h + l)) by lia.
    rewrite Z.add_0_r, (Z.mod_small (h + l)) by lia.
    exists (h + l), h; repeat split; try lia.
    replace (Z.pred (- (h + l))) with (65535 - (h + l) + (-1) * 65536) by lia.
    rewrite Z.mod_add by lia; apply Z.mod_small; lia.
  - assert (Hq : (h + l) / 65536 = 1).
    { symmetry; apply (Z.div_unique (h + l) 65536 1 (h + l - 65536)); lia. }
    rewrite Hq, (Z.mod_small (h + l + 1)) by lia.
    exists (h + l - 65535), (h + 1); repeat split; try lia.
    replace (Z.pred (- (h + l + 1))) with (65535 - (h + l - 65535) + (-2) * 65536) by lia.
    rewrite Z.mod_add by lia; apply Z.mod_small; lia.
Qed.

Lemma calculateChecksum_finish (buffer : list ascii) :
  Z.of_nat (length buffer) <= 131072 ->
  calculateChecksum buffer (Z.of_nat (length buffer)) = Done (finish (word_sum buffer)) /\
  0 <= word_sum buffer <= 65535 * 65536.
Proof.
  intros Hl.
  pose proof (word_sum_range (S (length buffer)) buffer ltac:(lia)) as Hr.
  assert (Hq : (Z.of_nat (length buffer) + 1) / 2 < 65537)
    by (apply Z.div_lt_upper_bound; lia).
  split; [|nia].
  unfold calculateChecksum.
  rewrite (sum_shorts_word_sum (S (length buffer))) by (try lia; nia).
  reflexivity.
Qed.

Definition zero : ascii := ascii_of_N 0.

(** X7.  The checksum is the Internet checksum: for a packet of even
    length (at most 128 KiB) whose checksum field, at an even offset, holds
    zero, the function returns a 16-bit value, and once that value is
    stored in the field the checksum of the packet is 0, which is the
    receiver's test. *)
Theorem calculateChecksum_verifies (pre post : list ascii) :
  Nat.even (length pre) = true ->
  Nat.even (length post) = true ->
  Z.of_nat (length pre + 2 + length post) <= 131072 ->
  let n := Z.of_nat (length pre + 2 + length post) in
  exists c,
    calculateChecksum (pre ++ [zero; zero] ++ post) n = Done c /\
    0 <= c < 65536 /\
    calculateChecksum (pre ++ store_short c ++ post) n = Done 0.
Proof.
  intros Hpre Hpost Hlen n.
  assert (L0 : length (pre ++ [zero; zero] ++ post) = (length pre + 2 + length post)%nat)
    by (rewrite !length_app; simpl; lia).
  destruct (calculateChecksum_finish (pre ++ [zero; zero] ++ post)) as [E0 R0]; [lia|].
  rewrite L0 in E0; fold n in E0.
  rewrite word_sum_app in R0, E0 by exact Hpre.
  change (word_sum ([zero; zero] ++ post)) with (load_short zero zero + word_sum post)
    in R0, E0.
  change (load_short zero zero) with 0 in R0, E0.
  set (x := word_sum pre + (0 + word_sum post)) in *.
  destruct (finish_spec x R0) as (f & k & Ef & Rf & Hk & Hx & Hz).
  exists (65535 - f); rewrite <- Ef; split; [exact E0|]; rewrite Ef.
  split; [lia|].
  pose proof (load_store_short (65535 - f) ltac:(lia)) as Hls.
  unfold store_short in *.
  set (lo := ascii_of_N (Z.to_N ((65535 - f) mod 256))) in *.
  set (hi := ascii_of_N (Z.to_N (((65535 - f) / 256) mod 256))) in *.
  assert (L1 : length (pre ++ [lo; hi] ++ post) = (length pre + 2 + length post)%nat)
    by (rewrite !length_app; simpl; lia).
  destruct (calculateChecksum_finish (pre ++ [lo; hi] ++ post)) as [E1 R1]; [lia|].
  rewrite L1 in E1; fold n in E1.
  rewrite word_sum_app in R1, E1 by exact Hpre.
  change (word_sum ([lo; hi] ++ post)) with (load_short lo hi + word_sum post) in R1, E1.
  rewrite Hls in R1, E1.
  rewrite E1; f_equal.
  destruct (finish_spec _ R1) as (f' & k' & Ef' & Rf' & Hk' & Hx' & Hz').
  rewrite Ef'.
  assert (Hsum : f' + 65535 * k' = 65535 * (k + 1)) by (unfold x in Hx; lia).
  assert (f' = 65535); [|lia].
  assert (f' <> 0) by (intros E; specialize (Hz' E); unfold x in *; lia).
  assert (Hdiv : f' = 65535 * (k + 1 - k')) by lia.
  nia.
Qed.

Lemma calculateChecksum_verifies_witness :
  exists c,
    calculateChecksum ([ascii_of_N 8; zero] ++ [zero; zero] ++
                       [ascii_of_N 57; ascii_of_N 48; ascii_of_N 1; zero]) 8 = Done c /\
    0 <= c < 65536 /\
    calculateChecksum ([ascii_of_N 8; zero] ++ store_short c ++
                       [ascii_of_N 57; ascii_of_N 48; ascii_of_N 1; zero]) 8 = Done 0.
Proof.
  apply (calculateChecksum_verifies [ascii_of_N 8; zero]
           [ascii_of_N 57; ascii_of_N 48; ascii_of_N 1; zero]);
    [reflexivity|reflexivity|simpl; lia].
Defined.

(** The loop does not tell an object from the same object followed by a
    zero byte. *)
Lemma sum_shorts_pad (n : nat) :
  forall buffer sum, (length buffer < n)%nat ->
    0 <= sum < 2 ^ 64 ->
    sum_shorts (buffer ++ [zero]) (Z.of_nat (length buffer) + 1) sum =
    sum_shorts buffer (Z.of_nat (length buffer)) sum.
Proof.
  induction n as [|n IH]; intros buffer sum Hn Hs; [lia|].
  destruct buffer as [|lo [|hi rest]].
  - simpl. change (byte_value zero) with 0.
    rewrite Z.add_0_r, Z.mod_small by lia; reflexivity.
  - simpl. unfold load_short; change (byte_value zero) with 0.
    rewrite Z.mul_0_r, Z.add_0_r; reflexivity.
  - cbn [app length sum_shorts].
    assert (Hg : (Z.of_nat (S (S (length rest))) >? 1) = true) by (apply Z.gtb_lt; lia).
    assert (Hg' : (Z.of_nat (S (S (length rest))) + 1 >? 1) = true) by (apply Z.gtb_lt; lia).
    rewrite Hg, Hg'.
    replace (Z.of_nat (S (S (length rest))) + 1 - 2) with (Z.of_nat (length rest) + 1) by lia.
    replace (Z.of_nat (S (S (length rest))) - 2) with (Z.of_nat (length rest)) by lia.
    apply IH; [simpl in Hn; lia|apply Z.mod_pos_bound; lia].
Qed.

(** X8.  An odd last byte counts as a 16-bit word whose high byte is
    zero: the checksum of a whole object is the checksum of the object
    followed by one zero byte. *)
Theorem calculateChecksum_zero_padding (buffer : list ascii) :
  calculateChecksum (buffer ++ [zero]) (Z.of_nat (length buffer) + 1) =
  calculateChecksum buffer (Z.of_nat (length buffer)).
Proof.
  unfold calculateChecksum.
  rewrite (sum_shorts_pad (S (length buffer))) by lia; reflexivity.
Qed.

End PingFacts.

(** ** The vectors of libmport/pkgmeta.c *)
Module StoreLaws.
Import Store.
Open Scope string_scope.
Open Scope list_scope.
Open Scope Z_scope.

Definition row_order (a b : mportPackageMeta) : Prop := row_le a b = true.

Lemma row_le_total (a b : mportPackageMeta) : row_le a b = false -> row_le b a = true.
Proof.
  unfold row_le; rewrite (String.compare_antisym (name b) (name a)).
  destruct (String.compare (name a) (name b)) eqn:E; simpl; try discriminate.
  - intros H; destruct (String.leb_total (version a) (version b)); congruence.
  - reflexivity.
Qed.

Lemma insert_sorted_perm (x : mportPackageMeta) (l : list mportPackageMeta) :
  Permutation (insert_sorted x l) (x :: l).
Proof.
  induction l as [|y l IH]; simpl; [apply Permutation_refl|].
  destruct (row_le x y); [apply Permutation_refl|].
  apply perm_trans with (y :: x :: l); [apply perm_skip, IH|apply perm_swap].
Qed.

Lemma insert_sorted_hd (x y : mportPackageMeta) (l : list mportPackageMeta) :
  row_le y x = true -> HdRel row_order y l -> HdRel row_order y (insert_sorted x l).
Proof.
  intros Hyx Hl; destruct l as [|z l]; simpl; [constructor; exact Hyx|].
  destruct (row_le x z); constructor; [exact Hyx|].
  inversion Hl; assumption.
Qed.

Lemma insert_sorted_sorted (x : mportPackageMeta) (l : list mportPackageMeta) :
  Sorted row_order l -> Sorted row_order (insert_sorted x l).
Proof.
  induction l as [|y l IH]; intros Hs; simpl.
  - repeat constructor.
  - destruct (row_le x y) eqn:E.
    + constructor; [exact Hs|constructor; exact E].
    + inversion Hs as [|? ? Hl Hh]; subst.
      constructor; [apply IH; exact Hl|].
      apply insert_sorted_hd; [apply row_le_total; exact E|exact Hh].
Qed.

Lemma order_by_pkg_version_perm (l : list mportPackageMeta) :
  Permutation (order_by_pkg_version l) l.
Proof.
  unfold order_by_pkg_version; induction l as [|x l IH]; simpl; [constructor|].
  apply perm_trans with (x :: fold_right insert_sorted [] l);
    [apply insert_sorted_perm|apply perm_skip, IH].
Qed.

Lemma order_by_pkg_version_sorted (l : list mportPackageMeta) :
  Sorted row_order (order_by_pkg_version l).
Proof.
  unfold order_by_pkg_version; induction l as [|x l IH]; simpl; [constructor|].
  apply insert_sorted_sorted, IH.
Qed.

(** A vector filled from [len] rows, [len] being their number. *)
Lemma length_filter_map {A B} (f : A -> B) (p : B -> bool) (l : list A) :
  length (filter (fun a => p (f a)) l) = length (filter p (map f l)).
Proof.
  induction l as [|a l IH]; simpl; [reflexivity|].
  destruct (p (f a)); simpl; rewrite IH; reflexivity.
Qed.

(** The records of a vector: the stored rows [rows], each as a query
    hands it out. *)
Definition hands_out (l rows : list mportPackageMeta) : Prop :=
  l = map StoreFacts.fetched rows.

Lemma list_vector (db : tables) :
  exists v, mport_pkgmeta_list db = Done (MPORT_OK, v) /\
    match v with
    | None => packages db = []
    | Some l =>
        l <> [] /\
        exists rows,
          Permutation rows (map row_pkg (packages db)) /\ Sorted row_order rows /\
          hands_out l rows
    end.
Proof.
  unfold mport_pkgmeta_list, mport_pkgmeta_count.
  destruct (packages db) as [|r rows] eqn:E; [exists None; split; reflexivity|].
  rewrite <- E.
  assert (Hn : (Z.of_nat (length (packages db)) =? 0) = false)
    by (rewrite E; apply Z.eqb_neq; simpl; lia).
  rewrite Hn.
  pose proof (order_by_pkg_version_perm (map row_pkg (packages db))) as Hp.
  rewrite StoreFacts.populate_columns
    by (rewrite (Permutation_length Hp), length_map; lia).
  eexists; split; [reflexivity|].
  split.
  - intros El; apply map_eq_nil in El; rewrite El in Hp; apply Permutation_nil in Hp.
    rewrite E in Hp; discriminate.
  - eexists; split; [exact Hp|split; [apply order_by_pkg_version_sorted|reflexivity]].
Qed.

Lemma list_locked_vector (db : tables) :
  exists v, mport_pkgmeta_list_locked db = Done (MPORT_OK, v) /\
    match v with
    | None => forall r, In r (packages db) -> locked (row_pkg r) <> 1
    | Some l =>
        l <> [] /\
        exists rows,
          Permutation rows
            (filter (fun m => locked m =? 1) (map row_pkg (packages db))) /\
          Sorted row_order rows /\
          hands_out l rows
    end.
Proof.
  unfold mport_pkgmeta_list_locked, mport_pkgmeta_count.
  rewrite (length_filter_map row_pkg (fun m => locked m =? 1)).
  set (rows := filter (fun m => locked m =? 1) (map row_pkg (packages db))).
  pose proof (order_by_pkg_version_perm rows) as Hp.
  destruct rows as [|m rows'] eqn:E.
  - exists None; split; [reflexivity|].
    intros r Hin Hl.
    assert (Hm : In (row_pkg r) (filter (fun m => locked m =? 1) (map row_pkg (packages db)))).
    { apply filter_In; split; [apply in_map; exact Hin|rewrite Hl; reflexivity]. }
    fold rows in Hm; rewrite E in Hm; destruct Hm.
  - rewrite <- E in *.
    assert (Hn : (Z.of_nat (length rows) =? 0) = false)
      by (rewrite E; apply Z.eqb_neq; simpl; lia).
    rewrite Hn, StoreFacts.populate_columns by (rewrite (Permutation_length Hp); lia).
    eexists; split; [reflexivity|].
    split.
    + intros El; apply map_eq_nil in El; rewrite El in Hp; apply Permutation_nil in Hp.
      rewrite E in Hp; discriminate.
    + eexists; split; [exact Hp|split; [apply order_by_pkg_version_sorted|reflexivity]].
Qed.

(** A row that [populate_meta_from_stmt] refuses ends the filling of the
    vector. *)
Lemma populate_refused (pre : list mportPackageMeta) (bad : stmt_row)
  (rest : list stmt_row) :
  populate_meta_from_stmt bad = None ->
  forall cells, Z.of_nat (length pre) < cells ->
    populate_cells cells (map columns pre ++ bad :: rest)
    = Done (MPORT_ERR_FATAL, map StoreFacts.fetched pre).
Proof.
  intros Hbad; induction pre as [|m pre IH]; intros cells H;
    rewrite StoreFacts.populate_cells_unfold.
  - simpl in H; destruct (Z.leb_spec cells 0); [lia|].
    cbn [map app]; rewrite Hbad; reflexivity.
  - cbn [length] in H; destruct (Z.leb_spec cells 0); [lia|].
    cbn [map app]; rewrite StoreFacts.populate_meta_columns, IH by lia; reflexivity.
Qed.

(** X9.  On tables whose text columns hold no NULL, [mport_pkgmeta_list]
    and [mport_pkgmeta_list_locked] return MPORT_OK without writing past
    their vector; the vector is NULL exactly when no row qualifies, and
    otherwise holds every installed (respectively every locked) package
    once, ordered by name and then by version, each record with the stored
    install date cut to 32 bits.  A row with a NULL in [pkg], [version],
    [origin], [lang] or [prefix] makes [populate_vec_from_stmt] return
    MPORT_ERR_FATAL. *)
Theorem mport_pkgmeta_list_sorted (db : tables) :
  (exists v, mport_pkgmeta_list db = Done (MPORT_OK, v) /\
     match v with
     | None => packages db = []
     | Some l =>
         l <> [] /\
         exists rows,
           Permutation rows (map row_pkg (packages db)) /\ Sorted row_order rows /\
           l = map (fun m => mkMeta (name m) (version m) (origin m) (prefix m)
                               (locked m) (automatic m)
                               (sqlite3_column_int (install_date m))) rows
     end) /\
  (exists v, mport_pkgmeta_list_locked db = Done (MPORT_OK, v) /\
     match v with
     | None => forall r, In r (packages db) -> locked (row_pkg r) <> 1
     | Some l =>
         l <> [] /\
         exists rows,
           Permutation rows
             (filter (fun m => locked m =? 1) (map row_pkg (packages db))) /\
           Sorted row_order rows /\
           l = map (fun m => mkMeta (name m) (version m) (origin m) (prefix m)
                               (locked m) (automatic m)
                               (sqlite3_column_int (install_date m))) rows
     end) /\
  (forall (pre : list mportPackageMeta) (bad : stmt_row) (rest : list stmt_row)
          (len : Z),
     populate_meta_from_stmt bad = None ->
     Z.of_nat (length pre) <= len ->
     run_map fst (populate_vec_from_stmt len (map columns pre ++ bad :: rest))
     = Done MPORT_ERR_FATAL).
Proof.
  split; [apply list_vector|split; [apply list_locked_vector|]].
  intros pre bad rest len Hbad Hlen; unfold populate_vec_from_stmt.
  rewrite (populate_refused pre bad rest Hbad) by lia; reflexivity.
Qed.

Lemma mport_pkgmeta_list_sorted_witness :
  run_map fst
    (populate_vec_from_stmt 2
       [columns StoreFacts.foo;
        mkStmtRow (Some "bar") None (Some "misc/bar") (Some "") (Some "/usr/local")
                  0 0 0])
  = Done MPORT_ERR_FATAL.
Proof.
  exact (proj2 (proj2 (mport_pkgmeta_list_sorted (mkTables [] [] [] [] [])))
           [StoreFacts.foo]
           (mkStmtRow (Some "bar") None (Some "misc/bar") (Some "") (Some "/usr/local")
                      0 0 0)
           [] 2 eq_refl ltac:(simpl; lia)).
Defined.

Lemma search_master_rows (db : tables) (where_ : mportPackageMeta -> bool) :
  mport_pkgmeta_search_master db where_ =
  Done (MPORT_OK,
        match filter where_ (map row_pkg (packages db)) with
        | [] => None
        | rows => Some (map StoreFacts.fetched rows)
        end).
Proof.
  unfold mport_pkgmeta_search_master, mport_pkgmeta_count.
  rewrite (length_filter_map row_pkg where_).
  destruct (filter where_ (map row_pkg (packages db))) as [|m rows] eqn:E;
    [reflexivity|].
  rewrite <- E.
  assert (Hn : (Z.of_nat (length (filter where_ (map row_pkg (packages db)))) =? 0) = false)
    by (rewrite E; apply Z.eqb_neq; simpl; lia).
  rewrite Hn, StoreFacts.populate_columns, E by lia; reflexivity.
Qed.

(** X10.  [mport_pkgmeta_search_master] returns MPORT_OK with exactly
    the rows of [packages] that satisfy the where clause, in the order of
    the table, each record with the stored install date cut to 32 bits, and
    with NULL instead of a vector when there is none. *)
Theorem search_master_exact (db : tables) (where_ : mportPackageMeta -> bool) :
  mport_pkgmeta_search_master db where_ =
  Done (MPORT_OK,
        match filter where_ (map row_pkg (packages db)) with
        | [] => None
        | rows =>
            Some (map (fun m => mkMeta (name m) (version m) (origin m) (prefix m)
                                  (locked m) (automatic m)
                                  (sqlite3_column_int (install_date m))) rows)
        end).
Proof. apply search_master_rows. Qed.

Definition dated : tables :=
  mkTables [mkRow (mkMeta "foo" "1.0" "misc/foo" "/usr/local" 0 0 4102444800) "clean"]
           [] [] [] [].

(** A package installed on 2100-01-01 is handed out with a date in
    1963. *)
Example install_date_after_2038 :
  mport_pkgmeta_list dated
  = Done (MPORT_OK, Some [mkMeta "foo" "1.0" "misc/foo" "/usr/local" 0 0 (-192522496)]).
Proof. vm_compute; reflexivity. Qed.

(** *** The dependency queries when package names are unique *)

Definition names (db : tables) : list string :=
  map (fun r => name (row_pkg r)) (packages db).

Lemma filter_unique_name (rows : list mportPackageMeta) (n : string) :
  NoDup (map name rows) ->
  (length (filter (fun m => String.eqb (name m) n) rows) <= 1)%nat.
Proof.
  induction rows as [|m rows IH]; intros Hd; simpl; [lia|].
  inversion Hd as [|? ? Hnot Hd']; subst.
  destruct (String.eqb_spec (name m) n) as [E|E]; [|apply IH; exact Hd'].
  simpl.
  assert (Hnone : filter (fun m => String.eqb (name m) n) rows = []).
  { clear IH Hd Hd'; induction rows as [|m' rows IH]; [reflexivity|].
    simpl; destruct (String.eqb_spec (name m') n) as [E'|E'].
    - exfalso; apply Hnot; left; congruence.
    - apply IH; intros Hin; apply Hnot; right; exact Hin. }
  rewrite Hnone; simpl; lia.
Qed.

(** A join that selects edges by [sel] and matches each edge with the
    package named [key] has at most one row per selected edge. *)
Lemma join_length (db : tables) (key : depends_row -> string) (sel : depends_row -> bool) :
  NoDup (names db) ->
  (length (join db (fun m d => String.eqb (name m) (key d) && sel d)) <=
   length (filter sel (depends db)))%nat.
Proof.
  intros Hd; unfold join, names in *.
  rewrite <- map_map in Hd.
  induction (depends db) as [|d ds IH]; simpl; [lia|].
  rewrite length_app.
  destruct (sel d); simpl.
  - pose proof (filter_unique_name (map row_pkg (packages db)) (key d) Hd) as H1.
    erewrite filter_ext in H1
      by (intros m; rewrite <- (andb_true_r (String.eqb (name m) (key d))); reflexivity).
    lia.
  - erewrite (filter_ext _ (fun _ => false))
      by (intros m; apply andb_false_r).
    assert (Hnil : forall l : list mportPackageMeta, filter (fun _ => false) l = [])
      by (induction l; simpl; auto).
    rewrite Hnil; simpl; exact IH.
Qed.

Lemma join_In (db : tables) (on_ : mportPackageMeta -> depends_row -> bool)
  (m : mportPackageMeta) :
  In m (join db on_) <->
  In m (map row_pkg (packages db)) /\ exists d, In d (depends db) /\ on_ m d = true.
Proof.
  unfold join; rewrite in_flat_map; split.
  - intros (d & Hd & Hm); apply filter_In in Hm; destruct Hm as [Hm Ho].
    split; [exact Hm|exists d; split; assumption].
  - intros (Hm & d & Hd & Ho); exists d; split; [exact Hd|].
    apply filter_In; split; assumption.
Qed.

(** The record handed out for the stored row [m0] is [m]. *)
Definition handed_out (m0 m : mportPackageMeta) : Prop :=
  m = mkMeta (name m0) (version m0) (origin m0) (prefix m0) (locked m0) (automatic m0)
             (sqlite3_column_int (install_date m0)).

(** X11.  When no two rows of [packages] have the same name, the two
    dependency queries return MPORT_OK without writing past their vector,
    and a vector they return holds installed packages only, each record
    with the stored install date cut to 32 bits: for
    [mport_pkgmeta_get_downdepends] the packages that [pkg] has an edge to,
    for [mport_pkgmeta_get_updepends] those that have an edge to [pkg]. *)
Theorem depends_queries_in_bounds (db : tables) (pkg : mportPackageMeta) :
  NoDup (names db) ->
  (exists v, mport_pkgmeta_get_downdepends db pkg = Done (MPORT_OK, v) /\
     forall l, v = Some l ->
       forall m, In m l <->
         exists m0, handed_out m0 m /\
           In m0 (map row_pkg (packages db)) /\
           exists d, In d (depends db) /\ dep_pkg d = name pkg /\
                     depend_pkgname d = name m0) /\
  (exists v, mport_pkgmeta_get_updepends db pkg = Done (MPORT_OK, v) /\
     forall l, v = Some l ->
       forall m, In m l <->
         exists m0, handed_out m0 m /\
           In m0 (map row_pkg (packages db)) /\
           exists d, In d (depends db) /\ depend_pkgname d = name pkg /\
                     dep_pkg d = name m0).
Proof.
  intros Hd; split.
  - unfold mport_pkgmeta_get_downdepends.
    destruct (_ =? 0); [exists None; split; [reflexivity|discriminate]|].
    pose proof (join_length db depend_pkgname
                  (fun d => String.eqb (dep_pkg d) (name pkg)) Hd) as Hl.
    rewrite StoreFacts.populate_columns by lia.
    eexists; split; [reflexivity|].
    intros l E m; injection E as <-.
    rewrite in_map_iff; split.
    + intros (m0 & <- & Hm); apply join_In in Hm; destruct Hm as (Hm & d & Hin & Ho).
      exists m0; split; [reflexivity|split; [exact Hm|exists d; split; [exact Hin|]]].
      apply andb_true_iff in Ho; destruct Ho as [H1 H2].
      apply String.eqb_eq in H1, H2; split; congruence.
    + intros (m0 & -> & Hm & d & Hin & H1 & H2).
      exists m0; split; [reflexivity|apply join_In; split; [exact Hm|]].
      exists d; split; [exact Hin|].
      apply andb_true_iff; split; apply String.eqb_eq; congruence.
  - unfold mport_pkgmeta_get_updepends.
    destruct (_ =? 0); [exists None; split; [reflexivity|discriminate]|].
    pose proof (join_length db dep_pkg
                  (fun d => String.eqb (depend_pkgname d) (name pkg)) Hd) as Hl.
    rewrite StoreFacts.populate_columns by lia.
    eexists; split; [reflexivity|].
    intros l E m; injection E as <-.
    rewrite in_map_iff; split.
    + intros (m0 & <- & Hm); apply join_In in Hm; destruct Hm as (Hm & d & Hin & Ho).
      exists m0; split; [reflexivity|split; [exact Hm|exists d; split; [exact Hin|]]].
      apply andb_true_iff in Ho; destruct Ho as [H1 H2].
      apply String.eqb_eq in H1, H2; split; congruence.
    + intros (m0 & -> & Hm & d & Hin & H1 & H2).
      exists m0; split; [reflexivity|apply join_In; split; [exact Hm|]].
      exists d; split; [exact Hin|].
      apply andb_true_iff; split; apply String.eqb_eq; congruence.
Qed.

Definition lib : mportPackageMeta := mkMeta "lib" "1.0" "devel/lib" "/usr/local" 0 1 0.
Definition app : mportPackageMeta := mkMeta "app" "2.0" "misc/app" "/usr/local" 0 0 0.

Definition app_db : tables :=
  mkTables [mkRow lib "clean"; mkRow app "clean"]
           [mkDepends "app" "lib" ">=1.0" "devel/lib"] [] [] [].

Lemma depends_queries_in_bounds_witness :
  mport_pkgmeta_get_downdepends app_db app = Done (MPORT_OK, Some [lib]) /\
  exists v, mport_pkgmeta_get_updepends app_db lib = Done (MPORT_OK, v).
Proof.
  assert (Hd : NoDup (names app_db)).
  { repeat constructor; simpl; intuition discriminate. }
  destruct (depends_queries_in_bounds app_db lib Hd) as [_ (v & Hv & _)].
  split; [reflexivity|exists v; exact Hv].
Defined.

End StoreLaws.

(** ** More on the bundle installer (src/unnamed/part_005) *)
Module InstallerLaws.
Import Store Installer InstallerFacts.
Open Scope string_scope.
Open Scope list_scope.
Open Scope Z_scope.

(** The number of payload entries an asset list reads from the archive. *)
Definition file_assets (alist : list asset_row) : nat :=
  length (filter (fun e => is_file_type (asset_type e)) alist).

(** The mode of [e], when [e] is a directory entry with a mode, can be
    set. *)
Definition mode_change_ok (h : host) (e : asset_row) : bool :=
  negb (type_in (asset_type e)
          [ASSET_DIR; ASSET_DIRRM; ASSET_DIRRMTRY; ASSET_DIR_OWNER_MODE]
        && is_set (asset_mode e)) ||
  match asset_data e, asset_mode e with
  | Some d, Some m => dirmode_ok h m d
  | _, _ => false
  end.

Definition mode_changes_ok (h : host) (alist : list asset_row) : bool :=
  forallb (mode_change_ok h) alist.

Lemma materialize_bundle (h : host) (pkg : mportPackageMeta) (err : Z) (e : asset_row)
  (l l' : locals) :
  materialize h pkg err e l = Done (l', None) ->
  conn l' = conn l /\
  entries (bundle l') =
    skipn (if is_file_type (asset_type e) then 1 else 0) (entries (bundle l)).
Proof.
  unfold materialize, or_fatal.
  destruct (asset_type e); cbn [asset_type_eqb type_in existsb is_file_type orb];
    repeat match goal with
      | |- context [match ?x with _ => _ end] => destruct x eqn:?
      end; intros H; try discriminate; inversion H; subst; simpl; auto.
Qed.

(** A jump to ERROR carries MPORT_ERR_FATAL, except after a mode change
    of a directory that failed. *)
Lemma materialize_jump (h : host) (pkg : mportPackageMeta) (err : Z) (e : asset_row)
  (l l' : locals) (code : Z) :
  materialize h pkg err e l = Done (l', Some code) ->
  code = MPORT_ERR_FATAL \/ (code = err /\ mode_change_ok h e = false).
Proof.
  unfold materialize, or_fatal, mode_change_ok.
  destruct (asset_type_eqb (asset_type e) ASSET_CWD).
  { destruct (chdir_ok h _); intros H; inversion H; auto. }
  destruct (type_in (asset_type e) _) eqn:Hdir.
  { unfold make_directory; intros H; injection H as _ H.
    destruct (negb (mkdirp_ok h _)); [injection H as <-; auto|].
    destruct (is_set (asset_mode e)) eqn:Hset; cbn [andb negb orb] in *.
    - destruct (match asset_data e, asset_mode e with
                | Some d, Some m => dirmode_ok h m d
                | _, _ => false
                end) eqn:Hm; cbn [negb] in H.
      + destruct (_ && _); [injection H as <-; auto|discriminate].
      + injection H as <-; right; auto.
    - destruct (_ && _); [injection H as <-; auto|discriminate]. }
  destruct (asset_type_eqb (asset_type e) ASSET_EXEC).
  { destruct (asset_data e); [|discriminate].
    destruct (exec_ok h _); intros H; inversion H; auto. }
  destruct (is_file_type (asset_type e)); [|discriminate].
  destruct (entries (bundle l)); destruct (asset_data e); try discriminate.
  - intros H; inversion H; auto.
  - destruct (extract_ok h _); intros H; inversion H; auto.
Qed.

Lemma install_assets_jump (h : host) (pkg : mportPackageMeta) (err : Z)
  (alist : list asset_row) :
  forall (l l' : locals) (code : Z),
    install_assets h pkg err alist l = Done (l', Some code) ->
    code = MPORT_ERR_FATAL \/ (code = err /\ mode_changes_ok h alist = false).
Proof.
  induction alist as [|e rest IH]; intros l l' code H; simpl in H; [discriminate|].
  destruct (materialize h pkg err e l) as [[l1 [c1|]]| |] eqn:Hm; simpl in H;
    try discriminate.
  - injection H as <- <-.
    destruct (materialize_jump _ _ _ _ _ _ _ Hm) as [E|[E Hf]]; [left; exact E|right].
    split; [exact E|]; unfold mode_changes_ok; simpl; rewrite Hf; reflexivity.
  - destruct (bound_asset h pkg e l1) as [row| |]; simpl in H; try discriminate.
    destruct (IH _ _ _ H) as [E|[E Hf]]; [left; exact E|right].
    split; [exact E|]; unfold mode_changes_ok in *; simpl; rewrite Hf.
    apply andb_false_r.
Qed.

Lemma bound_asset_row (h : host) (pkg : mportPackageMeta) (e row : asset_row) (l : locals) :
  bound_asset h pkg e l = Done row ->
  asset_pkg row = name pkg /\ asset_type row = asset_type e.
Proof.
  unfold bound_asset.
  repeat match goal with
    | |- context [if ?c then _ else _] => destruct c
    | |- context [match ?x with _ => _ end] => destruct x
    end; intros H; try discriminate; injection H as <-; auto.
Qed.

(** The asset loop, when it runs to its end: one row per asset, in the
    order of the list, and one archive entry per file asset. *)
Lemma install_assets_rows (h : host) (pkg : mportPackageMeta) (err : Z)
  (alist : list asset_row) :
  forall (l l' : locals),
    install_assets h pkg err alist l = Done (l', None) ->
    exists rows,
      assets (live (conn l')) = assets (live (conn l)) ++ rows /\
      map asset_type rows = map asset_type alist /\
      Forall (fun r => asset_pkg r = name pkg) rows /\
      entries (bundle l') = skipn (file_assets alist) (entries (bundle l)).
Proof.
  induction alist as [|e rest IH]; intros l l' H; simpl in H.
  - injection H as <-; exists []; rewrite app_nil_r; repeat split; constructor.
  - destruct (materialize h pkg err e l) as [[l1 ok1]| |] eqn:Hm; simpl in H;
      try discriminate.
    destruct ok1 as [code|]; [discriminate|].
    destruct (materialize_bundle _ _ _ _ _ _ Hm) as [Hc He].
    destruct (bound_asset h pkg e l1) as [row| |] eqn:Hb; simpl in H; try discriminate.
    destruct (bound_asset_row _ _ _ _ _ Hb) as [Hp Ht].
    apply IH in H; destruct H as (rows & Ha & Hty & Hall & Hen); simpl in *.
    exists (row :: rows); rewrite Ha, Hc, <- app_assoc; simpl.
    repeat split; [congruence|constructor; assumption|].
    rewrite Hen, He; unfold file_assets; simpl.
    destruct (is_file_type (asset_type e)); simpl; [|reflexivity].
    destruct (entries (bundle l)) as [|x xs]; [rewrite skipn_nil|]; reflexivity.
Qed.

(** The two ways in which [do_actual_install] returns MPORT_OK: every row
    written and the transaction committed, or a jump to ERROR with no error
    recorded, the transaction still open. *)
Lemma do_actual_install_ok (h : host) (c c' : connection) (b b' : mportBundleRead)
  (pkg : mportPackageMeta) :
  saved c = None ->
  do_actual_install h c b pkg = Done (c', b', MPORT_OK) ->
  packages (live c') = packages (live c) ++ [new_row pkg] /\
  packages (committed c') = packages (live c) ++ [new_row pkg] /\
  ((saved c' = None /\
    exists rows,
      assets (live c') = assets (live c) ++ rows /\
      map asset_type rows =
        map asset_type (mport_bundle_read_get_assetlist b pkg ACTUALINSTALL) /\
      Forall (fun r => asset_pkg r = name pkg) rows /\
      entries b' =
        skipn (file_assets (mport_bundle_read_get_assetlist b pkg ACTUALINSTALL))
              (entries b)) \/
   (saved c' <> None /\ err_code h = MPORT_OK /\
    mode_changes_ok h (mport_bundle_read_get_assetlist b pkg ACTUALINSTALL) = false /\
    assets (committed c') = assets (live c))).
Proof.
  intros Hs H.
  unfold do_actual_install, create_package_row in H.
  fold (new_row pkg) in H.
  destruct (insert_package (live c) (new_row pkg)) as [t|] eqn:Hi; simpl in H;
    [|discriminate].
  assert (Ht : packages t = packages (live c) ++ [new_row pkg] /\ assets t = assets (live c)).
  { unfold insert_package in Hi.
    destruct (existsb _ _); [discriminate|]. injection Hi as <-; split; reflexivity. }
  destruct Ht as [Htp Hta].
  destruct (chdir_ok h (prefix pkg)); simpl in H; [|discriminate].
  unfold db_begin in H; simpl in H; rewrite Hs in H; simpl in H.
  match type of H with
  | context [install_assets ?hh ?pp ?ee ?al ?ll] =>
      destruct (install_assets hh pp ee al ll) as [[l ok]| |] eqn:Hl; simpl in H;
        try discriminate
  end.
  pose proof (install_assets_frame _ _ _ _ _ _ _ Hl) as (Hsv & Hp & _).
  simpl in Hsv, Hp.
  destruct ok as [code|]; simpl in H.
  - injection H as <- <- ->.
    destruct (install_assets_jump _ _ _ _ _ _ _ Hl) as [E|[E Hf]]; [discriminate|].
    split; [congruence|].
    split; [unfold committed; rewrite Hsv; simpl; exact Htp|].
    right; split; [rewrite Hsv; discriminate|].
    split; [symmetry; exact E|split; [exact Hf|]].
    unfold committed; rewrite Hsv; simpl; exact Hta.
  - apply install_assets_rows in Hl; destruct Hl as (rows & Ha & Hty & Hall & Hen).
    simpl in *.
    unfold db_commit in H; rewrite Hsv in H; simpl in H.
    injection H as <- <-; simpl.
    split; [congruence|]; split; [unfold committed; simpl; congruence|].
    left; split; [reflexivity|].
    exists rows; rewrite Ha, Hta; auto.
Qed.

Lemma install_pkg_ok (h : host) (c c' : connection) (b b' : mportBundleRead)
  (pkg : mportPackageMeta) :
  mport_bundle_read_install_pkg h c b pkg = Done (c', b', MPORT_OK) ->
  exists c1,
    do_actual_install h c b pkg = Done (c1, b', MPORT_OK) /\
    c' = fst (mark_complete c1 pkg).
Proof.
  intros H.
  unfold mport_bundle_read_install_pkg in H.
  destruct (pre_install_ok h pkg); simpl in H; [|discriminate].
  destruct (do_actual_install h c b pkg) as [[[c1 b1] ret1]| |] eqn:Ha; simpl in H;
    try discriminate.
  destruct (Z.eqb_spec ret1 MPORT_OK) as [->|Hne]; simpl in H;
    [|injection H as _ _ E; congruence].
  destruct (post_install_ok h pkg); simpl in H; [|discriminate].
  injection H as <- <-; exists c1; split; reflexivity.
Qed.

(** X12.  When no mode change of a directory fails, a successful
    [mport_bundle_read_install_pkg] leaves no transaction open; every row
    of [packages] with the name of the package is in state clean, and one
    of them carries the name, version, origin, prefix, automatic flag and
    install date of the record handed in, with [locked] 0 whatever the
    record says. *)
Theorem install_ok_marks_clean (h : host) (c c' : connection) (b b' : mportBundleRead)
  (pkg : mportPackageMeta) :
  saved c = None ->
  mode_changes_ok h (mport_bundle_read_get_assetlist b pkg ACTUALINSTALL) = true ->
  mport_bundle_read_install_pkg h c b pkg = Done (c', b', MPORT_OK) ->
  saved c' = None /\
  In (mkRow (mkMeta (name pkg) (version pkg) (origin pkg) (prefix pkg) 0
                    (automatic pkg) (install_date pkg)) "clean")
     (packages (live c')) /\
  forall r, In r (packages (live c')) ->
    name (row_pkg r) = name pkg -> row_status r = "clean".
Proof.
  intros Hs Hmode H.
  destruct (install_pkg_ok _ _ _ _ _ _ H) as (c1 & Ha & ->).
  destruct (do_actual_install_ok _ _ _ _ _ _ Hs Ha) as (Hp & _ & [[Hsv _]|(_ & _ & Hf & _)]);
    [|congruence].
  simpl; split; [exact Hsv|]; split.
  - apply in_map_iff; exists (new_row pkg); split.
    + simpl; rewrite String.eqb_refl; reflexivity.
    + rewrite Hp; apply in_or_app; right; left; reflexivity.
  - intros r Hr Hn; apply in_map_iff in Hr; destruct Hr as (x & Hx & _).
    destruct (String.eqb_spec (name (row_pkg x)) (name pkg)) as [E|E]; subst r;
      [reflexivity|contradiction].
Qed.

Definition one_file : mportBundleRead :=
  mkBundle
    (mkTables [mkRow foo "dirty"] [] [] []
       [mkAsset "foo" ASSET_FILE (Some "bin/foo") None None None None;
        mkAsset "foo" ASSET_POSTEXEC (Some "true") None None None None])
    ["bin/foo"].

Lemma install_ok_marks_clean_witness :
  exists c' b',
    mport_bundle_read_install_pkg easy closed one_file foo = Done (c', b', MPORT_OK) /\
    saved c' = None /\
    forall r, In r (packages (live c')) -> name (row_pkg r) = name foo ->
              row_status r = "clean".
Proof.
  eexists; eexists; split; [vm_compute; reflexivity|].
  match goal with
  | |- saved ?c = None /\ _ =>
      destruct (install_ok_marks_clean easy closed c one_file
                  (mkBundle (stub one_file) []) foo eq_refl eq_refl) as (Hs & _ & Hc)
  end; [vm_compute; reflexivity|].
  split; [exact Hs|exact Hc].
Defined.

(** X13.  When no mode change of a directory fails, after a successful
    [do_actual_install] the [assets] table has grown by one row per entry
    of the bundle's asset list for the install phase, in the order of the
    list, each under the name of the package and with the type of its
    entry; and the archive has been advanced by one payload entry per file
    asset (file, sample, shell and info entries). *)
Theorem install_ok_records_assets (h : host) (c c' : connection) (b b' : mportBundleRead)
  (pkg : mportPackageMeta) :
  saved c = None ->
  mode_changes_ok h (mport_bundle_read_get_assetlist b pkg ACTUALINSTALL) = true ->
  do_actual_install h c b pkg = Done (c', b', MPORT_OK) ->
  saved c' = None /\
  exists rows,
    assets (live c') = assets (live c) ++ rows /\
    map asset_type rows =
      map asset_type (mport_bundle_read_get_assetlist b pkg ACTUALINSTALL) /\
    Forall (fun r => asset_pkg r = name pkg) rows /\
    entries b' =
      skipn (file_assets (mport_bundle_read_get_assetlist b pkg ACTUALINSTALL)) (entries b).
Proof.
  intros Hs Hmode H.
  destruct (do_actual_install_ok _ _ _ _ _ _ Hs H) as (_ & _ & [Hr|(_ & _ & Hf & _)]);
    [exact Hr|congruence].
Qed.

Lemma install_ok_records_assets_witness :
  exists c' b' rows,
    do_actual_install easy closed one_file foo = Done (c', b', MPORT_OK) /\
    assets (live c') = rows /\ map asset_type rows = [ASSET_FILE] /\ entries b' = [].
Proof.
  eexists; eexists; eexists; split; [vm_compute; reflexivity|].
  match goal with
  | |- assets (live ?c) = _ /\ _ =>
      destruct (install_ok_records_assets easy closed c one_file
                  (mkBundle (stub one_file) []) foo eq_refl eq_refl)
        as (_ & rows & Ha & Hty & _ & He)
  end; [vm_compute; reflexivity|].
  split; [reflexivity|]; split; [vm_compute; reflexivity|reflexivity].
Defined.

(** *** Success without a commit *)

(** X29.  [mport_bundle_read_install_pkg] can return MPORT_OK with the
    transaction of phase 2 still open.  This happens only when [setmode]
    or [chmod] failed on a directory entry while no error was recorded:
    the jump to ERROR then returns MPORT_OK, and what is committed is the
    packages row that phase 2 starts with, in state dirty, and no asset
    row of this install. *)
Theorem install_ok_without_commit (h : host) (c c' : connection)
  (b b' : mportBundleRead) (pkg : mportPackageMeta) :
  saved c = None ->
  mport_bundle_read_install_pkg h c b pkg = Done (c', b', MPORT_OK) ->
  saved c' <> None ->
  err_code h = MPORT_OK /\
  mode_changes_ok h (mport_bundle_read_get_assetlist b pkg ACTUALINSTALL) = false /\
  packages (committed c') = packages (live c) ++ [new_row pkg] /\
  assets (committed c') = assets (live c).
Proof.
  intros Hs H Hopen.
  destruct (install_pkg_ok _ _ _ _ _ _ H) as (c1 & Ha & ->).
  simpl in Hopen.
  destruct (do_actual_install_ok _ _ _ _ _ _ Hs Ha)
    as (_ & Hp & [[Hsv _]|(Hsv & He & Hf & Has)]); [contradiction|].
  split; [exact He|split; [exact Hf|]].
  unfold committed in *; simpl.
  destruct (saved c1); [split; assumption|contradiction].
Qed.

(** A host on which the mode of a directory cannot be set. *)
Definition no_chmod : host :=
  mkHost "" 100 false MPORT_OK (fun _ => true) (fun _ => true) (fun _ _ => false)
         (fun _ => true) (fun _ => true) (fun _ => true)
         (fun _ => true) (fun _ => true) (fun _ _ _ => MPORT_OK).

(** A directory with a mode, then a file. *)
Definition dir_and_file : mportBundleRead :=
  mkBundle
    (mkTables [mkRow foo "dirty"] [] [] []
       [mkAsset "foo" ASSET_DIR (Some "share/foo") None None None (Some "755");
        mkAsset "foo" ASSET_FILE (Some "bin/foo") None None None None])
    ["bin/foo"].

Lemma install_ok_without_commit_witness :
  mport_bundle_read_install_pkg no_chmod closed dir_and_file foo
  = Done (mkConn (mkTables [mkRow foo "clean"] [] [] [] [])
                 (Some (mkTables [mkRow foo "dirty"] [] [] [] [])),
          dir_and_file, MPORT_OK) /\
  assets (committed (mkConn (mkTables [mkRow foo "clean"] [] [] [] [])
                            (Some (mkTables [mkRow foo "dirty"] [] [] [] [])))) = [].
Proof.
  assert (E : mport_bundle_read_install_pkg no_chmod closed dir_and_file foo
              = Done (mkConn (mkTables [mkRow foo "clean"] [] [] [] [])
                             (Some (mkTables [mkRow foo "dirty"] [] [] [] [])),
                      dir_and_file, MPORT_OK)) by (vm_compute; reflexivity).
  split; [exact E|].
  destruct (install_ok_without_commit no_chmod closed _ dir_and_file _ foo eq_refl E)
    as (_ & _ & _ & Ha); [discriminate|exact Ha].
Defined.

(** *** What an install leaves alone *)

Definition others {A} (key : A -> string) (n : string) (l : list A) : list A :=
  filter (fun x => negb (String.eqb (key x) n)) l.

Lemma others_app_own {A} (key : A -> string) (n : string) (l own : list A) :
  Forall (fun x => key x = n) own -> others key n (l ++ own) = others key n l.
Proof.
  intros H; unfold others; rewrite filter_app.
  assert (E : filter (fun x => negb (String.eqb (key x) n)) own = []).
  { induction H as [|x own Hx _ IH]; simpl; [reflexivity|].
    rewrite Hx, String.eqb_refl; exact IH. }
  rewrite E, app_nil_r; reflexivity.
Qed.

Lemma Forall_filter_key {A} (key : A -> string) (n : string) (l : list A) :
  Forall (fun x => key x = n) (filter (fun x => String.eqb (key x) n) l).
Proof.
  apply Forall_forall; intros x Hx; apply filter_In in Hx.
  apply String.eqb_eq; tauto.
Qed.

(** The rows of the other packages, table by table. *)
Definition others_of (n : string) (t : tables) : tables :=
  mkTables (others (fun r => name (row_pkg r)) n (packages t))
           (others dep_pkg n (depends t))
           (others cat_pkg n (categories t))
           (others con_pkg n (conflicts t))
           (others asset_pkg n (assets t)).

Lemma install_assets_others (h : host) (pkg : mportPackageMeta) (err : Z)
  (alist : list asset_row) :
  forall (l l' : locals) (ok : option Z),
    install_assets h pkg err alist l = Done (l', ok) ->
    others asset_pkg (name pkg) (assets (live (conn l'))) =
    others asset_pkg (name pkg) (assets (live (conn l))).
Proof.
  induction alist as [|e rest IH]; intros l l' ok H; simpl in H.
  - injection H as <- <-; reflexivity.
  - destruct (materialize h pkg err e l) as [[l1 ok1]| |] eqn:Hm; simpl in H;
      try discriminate.
    pose proof (materialize_conn _ _ _ _ _ _ _ Hm) as Hc.
    destruct ok1 as [code|].
    + injection H as <- <-; rewrite Hc; reflexivity.
    + destruct (bound_asset h pkg e l1) as [row| |] eqn:Hb; simpl in H; try discriminate.
      destruct (bound_asset_row _ _ _ _ _ Hb) as [Hp _].
      apply IH in H; simpl in H; rewrite H, Hc.
      apply others_app_own; repeat constructor; exact Hp.
Qed.

Lemma do_actual_install_others (h : host) (c c' : connection) (b b' : mportBundleRead)
  (pkg : mportPackageMeta) (ret : Z) :
  do_actual_install h c b pkg = Done (c', b', ret) ->
  others_of (name pkg) (live c') = others_of (name pkg) (live c).
Proof.
  intros H.
  unfold do_actual_install, create_package_row in H.
  fold (new_row pkg) in H.
  destruct (insert_package (live c) (new_row pkg)) as [t|] eqn:Hi; simpl in H;
    [|injection H as <- <- <-; reflexivity].
  assert (Ht : t = mkTables (packages (live c) ++ [new_row pkg]) (depends (live c))
                     (categories (live c)) (conflicts (live c)) (assets (live c))).
  { unfold insert_package in Hi.
    destruct (existsb _ _); [discriminate|]. injection Hi as <-; reflexivity. }
  subst t.
  assert (Hbase :
    others_of (name pkg)
      (mkTables (packages (live c) ++ [new_row pkg])
         (depends (live c) ++
            filter (fun d => String.eqb (dep_pkg d) (name pkg)) (depends (stub b)))
         (categories (live c) ++
            filter (fun d => String.eqb (cat_pkg d) (name pkg)) (categories (stub b)))
         (conflicts (live c) ++
            filter (fun d => String.eqb (con_pkg d) (name pkg)) (conflicts (stub b)))
         (assets (live c))) = others_of (name pkg) (live c)).
  { unfold others_of; simpl.
    rewrite (others_app_own (fun r => name (row_pkg r))) by (repeat constructor).
    rewrite !others_app_own by apply Forall_filter_key.
    reflexivity. }
  destruct (chdir_ok h (prefix pkg)); simpl in H;
    [|injection H as <- <- <-; exact Hbase].
  unfold db_begin in H; simpl in H.
  destruct (saved c) as [t0|]; simpl in H.
  all: match type of H with
       | context [install_assets ?hh ?pp ?ee ?al ?ll] =>
           destruct (install_assets hh pp ee al ll) as [[l ok]| |] eqn:Hl; simpl in H;
             try discriminate
       end.
  all: pose proof (install_assets_frame _ _ _ _ _ _ _ Hl) as (_ & Hp & Hd & Hca & Hco);
    apply install_assets_others in Hl; simpl in *.
  all: assert (Hlive : others_of (name pkg) (live (conn l)) = others_of (name pkg) (live c))
         by (rewrite <- Hbase; unfold others_of; simpl; rewrite Hp, Hd, Hca, Hco, Hl;
             reflexivity).
  all: destruct ok as [code|]; simpl in H;
    [|unfold db_commit in H; destruct (saved (conn l)); simpl in H];
    injection H as <- <- <-; exact Hlive.
Qed.

(** X14.  Whatever its outcome, [mport_bundle_read_install_pkg] leaves
    the rows of every other package as they were, in all five tables: it
    adds rows under the name of its package and changes the state of rows
    of that name only. *)
Theorem install_leaves_other_packages (h : host) (c c' : connection)
  (b b' : mportBundleRead) (pkg : mportPackageMeta) (ret : Z) :
  mport_bundle_read_install_pkg h c b pkg = Done (c', b', ret) ->
  others_of (name pkg) (live c') = others_of (name pkg) (live c).
Proof.
  intros H.
  unfold mport_bundle_read_install_pkg in H.
  destruct (pre_install_ok h pkg); simpl in H; [|injection H as <- <- <-; reflexivity].
  destruct (do_actual_install h c b pkg) as [[[c1 b1] ret1]| |] eqn:Ha; simpl in H;
    try discriminate.
  apply do_actual_install_others in Ha.
  destruct (ret1 =? MPORT_OK); simpl in H; [|injection H as <- <- <-; exact Ha].
  destruct (post_install_ok h pkg); simpl in H; [|injection H as <- <- <-; exact Ha].
  injection H as <- <- <-; rewrite <- Ha.
  unfold others_of, others; simpl; f_equal.
  induction (packages (live c1)) as [|r rows IH]; simpl; [reflexivity|].
  destruct (String.eqb_spec (name (row_pkg r)) (name pkg)) as [E|E]; simpl.
  - rewrite E, String.eqb_refl; exact IH.
  - destruct (String.eqb_spec (name (row_pkg r)) (name pkg)); [contradiction|].
    simpl; rewrite IH; reflexivity.
Qed.

Lemma install_leaves_other_packages_witness :
  exists c' b' ret,
    mport_bundle_read_install_pkg easy bar_db one_file foo = Done (c', b', ret) /\
    others_of "foo" (live c') = others_of "foo" (live bar_db).
Proof.
  eexists; eexists; eexists; split; [vm_compute; reflexivity|].
  match goal with
  | |- others_of _ (live ?c) = _ =>
      apply (install_leaves_other_packages easy bar_db c one_file
               (mkBundle (stub one_file) []) foo MPORT_OK)
  end.
  vm_compute; reflexivity.
Defined.

End InstallerLaws.

(** ** More on the upgrade planner (src/unnamed/part_002) *)
Module PlannerLaws.
Import Store Planner PlannerFacts.
Open Scope string_scope.
Open Scope list_scope.
Open Scope Z_scope.

Section Effects.

Variable get_down : string -> Z * vec.
Variable check : mportPackageMeta -> Z.
Variable update : list action -> string -> Z.
Variable hash : string -> Z.
Variable released : nat -> string.

(** A call of [mport_update] that returned 0. *)
Definition succeeded (a : action) : bool :=
  match a with
  | Update _ r => r =? 0
  | _ => false
  end.

Definition successes (acts : list action) : Z :=
  Z.of_nat (length (filter succeeded acts)).

(** What the run has done and counted, the processed set apart. *)
Definition log (st : upgrade_state) : list action * Z * Z :=
  (actions st, updated st, total st).

Lemma log_lookup (st : upgrade_state) (n : string) :
  log (snd (lookup hash released st n)) = log st.
Proof. unfold lookup; destruct (ohash_qlookup _ _ _ _ _); reflexivity. Qed.

Lemma log_is_processed (st : upgrade_state) (n : string) :
  log (snd (is_processed hash released st n)) = log st.
Proof.
  unfold is_processed.
  pose proof (log_lookup st n) as H.
  destruct (lookup hash released st n); exact H.
Qed.

Lemma log_mark_processed (st : upgrade_state) (n : string) (v : nat) :
  log (mark_processed hash released st n v) = log st.
Proof.
  unfold mark_processed.
  pose proof (log_lookup st n) as H.
  destruct (lookup hash released st n); exact H.
Qed.

(** What a part of the run adds to the state: calls of [mport_update] on
    packages whose index check is not 0, [ret] of them successful. *)
Definition effect (st st' : upgrade_state) (ret : Z) : Prop :=
  exists added,
    actions st' = actions st ++ added /\
    successes added = ret /\
    Forall (fun a => exists m r, a = Update (name m) r /\ check m <> 0) added /\
    updated st' = updated st /\ total st' = total st.

Lemma successes_app (a b : list action) : successes (a ++ b) = successes a + successes b.
Proof. unfold successes; rewrite filter_app, length_app; lia. Qed.

Lemma effect_log (st st' : upgrade_state) : log st' = log st -> effect st st' 0.
Proof.
  unfold log; intros H; injection H as Ha Hu Ht.
  exists []; rewrite app_nil_r; repeat split; auto.
Qed.

Lemma effect_refl (st : upgrade_state) : effect st st 0.
Proof. apply effect_log; reflexivity. Qed.

Lemma effect_trans (a b c : upgrade_state) (r1 r2 : Z) :
  effect a b r1 -> effect b c r2 -> effect a c (r1 + r2).
Proof.
  intros (n1 & L1 & S1 & C1 & U1 & T1) (n2 & L2 & S2 & C2 & U2 & T2).
  exists (n1 ++ n2); repeat split.
  - rewrite L2, L1, app_assoc; reflexivity.
  - rewrite successes_app; lia.
  - apply Forall_app; split; assumption.
  - congruence.
  - congruence.
Qed.

Lemma effect_then_log (a b c : upgrade_state) (r : Z) :
  effect a b r -> log c = log b -> effect a c r.
Proof.
  intros H1 H2; replace r with (r + 0) by lia.
  eapply effect_trans; [exact H1|apply effect_log; exact H2].
Qed.

Lemma effect_update (st : upgrade_state) (m : mportPackageMeta) :
  check m <> 0 ->
  effect st (fst (do_update update st (name m)))
         (if snd (do_update update st (name m)) =? 0 then 1 else 0).
Proof.
  intros Hc; simpl.
  exists [Update (name m) (update (actions st) (name m))]; simpl; repeat split; auto.
  - unfold successes; simpl.
    destruct (update (actions st) (name m) =? 0); reflexivity.
  - repeat constructor; eauto.
Qed.

(** The loop over the down-depends, given what the recursive call adds. *)
Lemma update_depends_effect
  (down : mportPackageMeta -> nat -> upgrade_state -> option (upgrade_state * Z))
  (Hdown : forall d v st st' r, down d v st = Some (st', r) -> effect st st' r)
  (v : nat) :
  forall (ds : list mportPackageMeta) (st st' : upgrade_state) (ret ret' : Z),
    update_depends check update hash released down v ds st ret = Some (st', ret') ->
    effect st st' (ret' - ret).
Proof.
  induction ds as [|d rest IH]; intros st st' ret ret' H.
  - injection H as <- <-; rewrite Z.sub_diag; apply effect_refl.
  - rewrite update_depends_cons in H.
    pose proof (effect_log _ _ (log_is_processed st (name d))) as E0.
    destruct (fst (is_processed hash released st (name d))); cbn [negb] in H.
    { apply IH in H.
      replace (ret' - ret) with (0 + (ret' - ret)) by lia.
      eapply effect_trans; eassumption. }
    destruct (down d v _) as [[st1 r1]|] eqn:E1; [|discriminate].
    apply Hdown in E1.
    destruct (Z.eqb_spec (check d) 0) as [Hz|Hnz]; cbn [negb] in H.
    + apply IH in H.
      replace (ret' - ret) with (0 + (r1 + (ret' - (ret + r1)))) by lia.
      eapply effect_trans; [exact E0|]; eapply effect_trans; eassumption.
    + pose proof (effect_update st1 d Hnz) as E2.
      destruct (snd (do_update update st1 (name d)) =? 0); cbn [negb] in H;
        apply IH in H.
      * replace (ret' - ret) with (0 + (r1 + (1 + (ret' - (ret + r1 + 1))))) by lia.
        eapply effect_trans; [exact E0|]; eapply effect_trans; [exact E1|].
        eapply effect_trans; [|exact H].
        eapply effect_then_log; [exact E2|apply log_mark_processed].
      * replace (ret' - ret) with (0 + (r1 + (0 + (ret' - (ret + r1))))) by lia.
        eapply effect_trans; [exact E0|]; eapply effect_trans; [exact E1|].
        eapply effect_trans; [exact E2|exact H].
Qed.

Lemma update_down_effect (fuel : nat) :
  forall (pack : mportPackageMeta) (owner : nat) (st st' : upgrade_state) (ret : Z),
    mport_update_down get_down check update hash released fuel pack owner st
      = Some (st', ret) ->
    effect st st' ret.
Proof.
  induction fuel as [|fuel IH]; intros pack owner st st' ret H; [discriminate|].
  rewrite mport_update_down_S in H.
  destruct (fst (get_down (name pack)) =? MPORT_OK); cbn [negb] in H;
    [|injection H as <- <-; apply effect_refl].
  destruct (snd (get_down (name pack))) as [ds|].
  - cbv zeta in H.
    destruct (update_depends check update hash released _ _ ds _ 0)
      as [[st1 ret1]|] eqn:E1; [|discriminate].
    apply (update_depends_effect _ IH) in E1; rewrite Z.sub_0_r in E1.
    assert (E0 : effect st st1 ret1).
    { replace ret1 with (0 + ret1) by lia.
      eapply effect_trans; [|exact E1]. apply effect_log; reflexivity. }
    clear E1.
    destruct (Z.eqb_spec (check pack) 0) as [Hz|Hnz]; cbn [negb] in H.
    { injection H as <- <-. eapply effect_then_log; [exact E0|reflexivity]. }
    pose proof (effect_update st1 pack Hnz) as E2.
    destruct (snd (do_update update st1 (name pack)) =? 0); cbn [negb] in H;
      injection H as <- <-.
    + eapply effect_trans; [exact E0|].
      eapply effect_then_log; [exact E2|].
      pose proof (log_lookup (fst (do_update update st1 (name pack))) (name pack)) as Hl.
      destruct (filled _ _); exact Hl.
    + replace ret1 with (ret1 + 0) by lia.
      eapply effect_trans; [exact E0|].
      eapply effect_then_log; [exact E2|reflexivity].
  - cbv zeta in H.
    pose proof (effect_log _ _ (log_is_processed st (name pack))) as E0.
    destruct (fst (is_processed hash released st (name pack))); cbn [negb] in H;
      [injection H as <- <-; exact E0|].
    destruct (Z.eqb_spec (check pack) 0) as [Hz|Hnz]; cbn [negb] in H;
      [injection H as <- <-; exact E0|].
    pose proof (effect_update (snd (is_processed hash released st (name pack)))
                  pack Hnz) as E2.
    revert H E2.
    destruct (snd (do_update update (snd (is_processed hash released st (name pack)))
                     (name pack)) =? 0); cbn [negb];
      intros H E2; injection H as <- <-.
    + replace 1 with (0 + 1) by lia.
      eapply effect_trans; [exact E0|].
      eapply effect_then_log; [exact E2|apply log_mark_processed].
    + replace 0 with (0 + 0) by lia.
      eapply effect_trans; [exact E0|exact E2].
Qed.

(** *** Termination on acyclic graphs *)

Lemma update_depends_returns
  (down : mportPackageMeta -> nat -> upgrade_state -> option (upgrade_state * Z))
  (v : nat) :
  forall (ds : list mportPackageMeta),
    (forall d st, In d ds -> exists st' r, down d v st = Some (st', r)) ->
    forall (st : upgrade_state) (ret : Z),
    exists st' ret',
      update_depends check update hash released down v ds st ret = Some (st', ret').
Proof.
  induction ds as [|d rest IH]; intros Hdown st ret; [eexists; eexists; reflexivity|].
  assert (Hrest : forall st ret, exists st' ret',
             update_depends check update hash released down v rest st ret
             = Some (st', ret')).
  { apply IH; intros d' st0 Hd; apply Hdown; right; exact Hd. }
  rewrite update_depends_cons.
  destruct (fst (is_processed hash released st (name d))); cbn [negb]; [apply Hrest|].
  destruct (Hdown d (snd (is_processed hash released st (name d))) (or_introl eq_refl))
    as (st1 & r1 & ->).
  destruct (negb (check d =? 0)); [|apply Hrest].
  destruct (negb (snd (do_update update st1 (name d)) =? 0)); apply Hrest.
Qed.

Lemma update_down_returns (rank : string -> nat)
  (Hacyclic : forall n d, In d (deps get_down n) -> (rank (name d) < rank n)%nat)
  (fuel : nat) :
  forall (pack : mportPackageMeta) (owner : nat) (st : upgrade_state),
    (rank (name pack) < fuel)%nat ->
    exists st' ret,
      mport_update_down get_down check update hash released fuel pack owner st
      = Some (st', ret).
Proof.
  induction fuel as [|fuel IH]; intros pack owner st Hf; [lia|].
  rewrite mport_update_down_S.
  pose proof (Hacyclic (name pack)) as Hd; unfold deps in Hd.
  destruct (get_down (name pack)) as [code dv]; cbn [fst snd] in *.
  destruct (code =? MPORT_OK); cbn [negb]; [|eexists; eexists; reflexivity].
  destruct dv as [ds|]; cbv zeta.
  - destruct (update_depends_returns
                (mport_update_down get_down check update hash released fuel)
                (S (vectors st)) ds) with (st := with_vector (S (vectors st)) st)
                                          (ret := 0)
      as (st1 & ret1 & ->).
    { intros d st0 Hin; apply IH; specialize (Hd d Hin); lia. }
    destruct (negb (check pack =? 0)); [|eexists; eexists; reflexivity].
    destruct (negb (snd (do_update update st1 (name pack)) =? 0));
      eexists; eexists; reflexivity.
  - destruct (negb (fst (is_processed hash released st (name pack))));
      [|eexists; eexists; reflexivity].
    destruct (negb (check pack =? 0)); [|eexists; eexists; reflexivity].
    destruct (negb (snd (do_update update _ (name pack)) =? 0));
      eexists; eexists; reflexivity.
Qed.

End Effects.

(** X15.  On an acyclic dependency graph [mport_update_down] returns, and
    the value it returns is the number of [mport_update] calls of the run
    that returned 0; the counters [updated] and [total] of the caller are
    left as they were. *)
Theorem update_down_counts_successes
  (get_down : string -> Z * vec) (check : mportPackageMeta -> Z)
  (update : list action -> string -> Z) (hash : string -> Z)
  (released : nat -> string) (rank : string -> nat)
  (fuel : nat) (pack : mportPackageMeta) (owner : nat)
  (h0 : list slot) (v0 n0 : nat)
  (Hacyclic : forall n d, In d (deps get_down n) -> (rank (name d) < rank n)%nat)
  (Hfuel : (rank (name pack) < fuel)%nat) :
  exists st' ret,
    mport_update_down get_down check update hash released fuel pack owner
      (mkState h0 [] 0 0 v0 n0) = Some (st', ret) /\
    ret = successes (actions st') /\
    updated st' = 0 /\ total st' = 0.
Proof.
  destruct (update_down_returns get_down check update hash released rank Hacyclic
              fuel pack owner (mkState h0 [] 0 0 v0 n0) Hfuel) as (st' & ret & E).
  exists st', ret; split; [exact E|].
  apply update_down_effect in E.
  destruct E as (added & L & S & _ & U & T); simpl in L, U, T.
  rewrite L; split; [symmetry; exact S|split; assumption].
Qed.

Lemma update_down_counts_successes_witness :
  exists st' ret,
    mport_update_down app_needs_lib update_available lib_fails digits scrubbed 2
      app_pkg 0 (mkState [] [] 0 0 0 0) = Some (st', ret) /\
    ret = successes (actions st') /\
    updated st' = 0 /\ total st' = 0.
Proof.
  apply (update_down_counts_successes app_needs_lib update_available lib_fails
           digits scrubbed depth 2 app_pkg 0 [] 0 0).
  - intros n d. unfold deps, app_needs_lib.
    destruct (String.eqb_spec n "app") as [->|Hne]; simpl; [|intros []].
    intros [<-|[]]; vm_compute; lia.
  - vm_compute; lia.
Defined.

(** X16.  On an acyclic dependency graph [mport_update_down] deletes and
    installs nothing, and it calls [mport_update] only on packages whose
    index check is not 0; when no index check is non-zero the run does
    nothing. *)
Theorem update_down_updates_checked_only
  (get_down : string -> Z * vec) (check : mportPackageMeta -> Z)
  (update : list action -> string -> Z) (hash : string -> Z)
  (released : nat -> string) (rank : string -> nat)
  (fuel : nat) (pack : mportPackageMeta) (owner : nat)
  (h0 : list slot) (v0 n0 : nat)
  (Hacyclic : forall n d, In d (deps get_down n) -> (rank (name d) < rank n)%nat)
  (Hfuel : (rank (name pack) < fuel)%nat) :
  exists st' ret,
    mport_update_down get_down check update hash released fuel pack owner
      (mkState h0 [] 0 0 v0 n0) = Some (st', ret) /\
    (forall a, In a (actions st') ->
       exists m r, a = Update (name m) r /\ check m <> 0) /\
    ((forall m, check m = 0) -> actions st' = [] /\ ret = 0).
Proof.
  destruct (update_down_returns get_down check update hash released rank Hacyclic
              fuel pack owner (mkState h0 [] 0 0 v0 n0) Hfuel) as (st' & ret & E).
  exists st', ret; split; [exact E|].
  apply update_down_effect in E.
  destruct E as (added & L & S & C & _); simpl in L.
  rewrite L; split; [apply Forall_forall; exact C|].
  intros Hz; destruct added as [|a added]; [split; [reflexivity|symmetry; exact S]|].
  inversion C as [|? ? (m & r & _ & Hm) _]; subst.
  specialize (Hz m); contradiction.
Qed.

Lemma update_down_updates_checked_only_witness :
  exists st' ret,
    mport_update_down app_needs_lib update_available lib_fails digits scrubbed 2
      app_pkg 0 (mkState [] [] 0 0 0 0) = Some (st', ret) /\
    (forall a, In a (actions st') ->
       exists m r, a = Update (name m) r /\ update_available m <> 0) /\
    ((forall m, update_available m = 0) -> actions st' = [] /\ ret = 0).
Proof.
  apply (update_down_updates_checked_only app_needs_lib update_available lib_fails
           digits scrubbed depth 2 app_pkg 0 [] 0 0).
  - intros n d. unfold deps, app_needs_lib.
    destruct (String.eqb_spec n "app") as [->|Hne]; simpl; [|intros []].
    intros [<-|[]]; vm_compute; lia.
  - vm_compute; lia.
Defined.

(** X17.  A dependency that needs an update is handed to [mport_update]
    twice: once at the end of its own [mport_update_down] and once more by
    the loop of the package that depends on it, whether the first call
    succeeded or not. *)
Theorem update_down_updates_dependency_twice
  (get_down : string -> Z * vec) (check : mportPackageMeta -> Z)
  (update : list action -> string -> Z) (hash : string -> Z)
  (released : nat -> string) (p d : mportPackageMeta) (owner : nat) :
  get_down (name p) = (MPORT_OK, Some [d]) ->
  get_down (name d) = (MPORT_OK, None) ->
  check d <> 0 -> check p <> 0 ->
  let r1 := update [] (name d) in
  let r2 := update [Update (name d) r1] (name d) in
  let r3 := update [Update (name d) r1; Update (name d) r2] (name p) in
  option_map (fun r => actions (fst r))
    (mport_update_down get_down check update hash released 2 p owner fresh) =
  Some [Update (name d) r1; Update (name d) r2; Update (name p) r3].
Proof.
  intros Hp Hd Hcd Hcp r1 r2 r3.
  rewrite mport_update_down_S, Hp; cbn [fst snd Z.eqb MPORT_OK negb]; cbv zeta.
  rewrite update_depends_cons.
  unfold is_processed, mark_processed, lookup, filled, insert_at, vec_free,
    with_vector, do_update, fresh;
    cbn [h actions updated total vectors reads ohash_qlookup ohash_find nth_error
         negb fst snd].
  rewrite mport_update_down_S, Hd; cbn [fst snd Z.eqb MPORT_OK negb]; cbv zeta.
  unfold is_processed, mark_processed, lookup, filled, insert_at, vec_free,
    with_vector, do_update;
    cbn [h actions updated total vectors reads ohash_qlookup ohash_find nth_error
         negb fst snd app].
  destruct (Z.eqb_spec (check d) 0) as [|_]; [contradiction|cbn [negb]].
  destruct (Z.eqb_spec (check p) 0) as [|_]; [contradiction|].
  fold r1.
  destruct (r1 =? 0);
    cbn [negb fst snd h actions updated total vectors reads app ohash_qlookup
         ohash_insert slot_hv slot_key slot_released slot_vector];
    fold r2.
  all: rewrite ?Z.eqb_refl, ?String.eqb_refl;
    cbn [negb fst snd h actions updated total vectors reads app ohash_qlookup
         ohash_insert slot_hv slot_key slot_released slot_vector].
  all: destruct (r2 =? 0);
    cbn [negb update_depends fst snd h actions updated total vectors reads app
         ohash_qlookup ohash_insert slot_hv slot_key slot_released slot_vector];
    rewrite ?Z.eqb_refl, ?String.eqb_refl;
    cbn [negb update_depends fst snd h actions updated total vectors reads app
         ohash_qlookup ohash_insert slot_hv slot_key slot_released slot_vector];
    fold r3; destruct (r3 =? 0); cbn [negb option_map fst actions];
    repeat match goal with
      | |- context [if ?c then _ else _] => destruct c
      | |- context [let '(_, _) := ?c in _] => destruct c
      end; reflexivity.
Qed.

Lemma update_down_updates_dependency_twice_witness :
  option_map (fun r => actions (fst r))
    (mport_update_down app_needs_lib update_available (fun _ _ => 0) digits scrubbed
       2 app_pkg 0 fresh) =
  Some [Update "lib" 0; Update "lib" 0; Update "app" 0].
Proof.
  apply (update_down_updates_dependency_twice app_needs_lib update_available
           (fun _ _ => 0) digits scrubbed app_pkg lib_pkg 0);
    solve [reflexivity | discriminate].
Defined.

(** *** mport_autoremove *)

Definition explicit_only (db : tables) : bool :=
  forallb (fun r => automatic (row_pkg r) =? MPORT_EXPLICIT) (packages db).

Lemma autoremove_packs_explicit (db : tables) (packs : list mportPackageMeta) :
  forallb (fun p => automatic p =? MPORT_EXPLICIT) packs = true ->
  autoremove_packs db packs = Done (db, MPORT_OK).
Proof.
  induction packs as [|p rest IH]; simpl; [reflexivity|].
  intros H; apply andb_true_iff in H; destruct H as [Hp Hr].
  rewrite Hp; apply IH; exact Hr.
Qed.

(** X18.  [mport_autoremove] removes nothing.  On a database without
    automatic packages it returns MPORT_OK and leaves every table as it
    was; as soon as one installed package is automatic, the loop iterates
    over the local [start], which is never assigned. *)
Theorem autoremove_removes_nothing (db : tables) :
  mport_autoremove db =
  if explicit_only db then Done (db, MPORT_OK) else Undefined.
Proof.
  unfold explicit_only.
  destruct (forallb _ (packages db)) eqn:He.
  - unfold mport_autoremove.
    destruct (StoreLaws.list_vector db) as (v & Hv & Hl).
    rewrite Hv; cbn [run_bind MPORT_OK Z.eqb negb].
    destruct v as [l|]; [|reflexivity].
    destruct Hl as (_ & rows & Hp & _ & ->).
    apply autoremove_packs_explicit.
    apply forallb_forall; intros m Hm.
    apply in_map_iff in Hm; destruct Hm as (m0 & <- & Hm).
    apply (Permutation_in _ Hp), in_map_iff in Hm; destruct Hm as (r & <- & Hr).
    rewrite forallb_forall in He; apply (He r Hr).
  - apply autoremove_undefined.
    rewrite <- negb_false_iff, <- He; clear He.
    induction (packages db) as [|r rows IH]; simpl; [reflexivity|].
    rewrite negb_orb, negb_involutive, IH; reflexivity.
Qed.

End PlannerLaws.

(** ** More on the command line front end *)
Module CliLaws.
Import Store Cli Dispatch.
Open Scope string_scope.
Open Scope list_scope.
Open Scope Z_scope.

(** *** The exit status of the per-argument commands *)

(** The code of the last call that failed, looking back from the end. *)
Fixpoint last_failure (codes : list Z) : option Z :=
  match codes with
  | [] => None
  | c :: rest =>
      match last_failure rest with
      | Some x => Some x
      | None => if c =? 0 then None else Some c
      end
  end.

(** The codes the calls return, the [i]-th argument first. *)
Fixpoint codes_from (code : nat -> string -> Z) (args : list string) (i : nat) : list Z :=
  match args with
  | [] => []
  | a :: rest => code i a :: codes_from code rest (S i)
  end.

Lemma each_argument_last_failure (call : each_command -> nat -> string -> outcome)
  (code : nat -> string -> Z) (cmd : each_command) :
  (forall i a, call cmd i a = Returned (code i a)) ->
  forall (args : list string) (i : nat) (resultCode : Z),
    each_argument call cmd args i resultCode =
    Returned (match last_failure (codes_from code args i) with
              | Some c => c
              | None => resultCode
              end).
Proof.
  intros Hc; induction args as [|a rest IH]; intros i resultCode; [reflexivity|].
  cbn [each_argument codes_from last_failure]; rewrite Hc, IH.
  destruct (last_failure (codes_from code rest (S i))); [reflexivity|].
  destruct (code i a =? 0); reflexivity.
Qed.

(** X19.  [mport add], [mport install], and [mport cpe] and [mport purl]
    with arguments exit with the code of the last call that failed; when
    every call returns 0 the status is 1, the value [resultCode] is
    initialised with and that no branch of these commands replaces by
    MPORT_OK. *)
Theorem per_argument_exit_status (p : process)
  (call : each_command -> nat -> string -> outcome) (code : nat -> string -> Z)
  (cmd : each_command) (arg : string) (rest : list string) :
  mport_instance_init p = MPORT_OK ->
  mport_index_load p = MPORT_OK ->
  (forall i a, call cmd i a = Returned (code i a)) ->
  main_each p call cmd arg rest =
    exit_status (match last_failure (codes_from code (arg :: rest) 1) with
                 | Some c => c
                 | None => MPORT_ERR_FATAL
                 end) /\
  ((forall i a, code i a = 0) -> main_each p call cmd arg rest = 1).
Proof.
  intros Hi Hl Hc.
  assert (E : main_each p call cmd arg rest =
              exit_status (match last_failure (codes_from code (arg :: rest) 1) with
                           | Some c => c
                           | None => MPORT_ERR_FATAL
                           end)).
  { unfold main_each, loadIndex; rewrite Hi, Hl; cbn [Z.eqb MPORT_OK negb orb].
    rewrite (each_argument_last_failure call code cmd Hc).
    destruct cmd; reflexivity. }
  split; [exact E|].
  intros Hz; rewrite E.
  assert (Hn : forall args i, last_failure (codes_from code args i) = None).
  { induction args as [|a args IH]; intros i; [reflexivity|].
    cbn [codes_from last_failure]; rewrite IH, Hz; reflexivity. }
  rewrite Hn; reflexivity.
Qed.

Definition willing : process :=
  mkProcess false MPORT_OK MPORT_OK MPORT_OK MPORT_OK (fun _ _ _ _ => MPORT_OK).

Lemma per_argument_exit_status_witness :
  main_each willing (fun _ _ _ => Returned 0) Install "gmake" ["vim"] = 1.
Proof.
  apply (per_argument_exit_status willing (fun _ _ _ => Returned 0) (fun _ _ => 0)
           Install "gmake" ["vim"]); reflexivity.
Defined.

(** *** mport version -t *)

(** X20.  [mport version -t v1 v2] prints [=], [<] or [>] and exits with
    status 0, 255 or 1 respectively, according to whether
    [mport_version_cmp] returned 0, -1 or 1; it never prints anything else
    when the comparison returns. *)
Theorem version_t_status (p : process) (v1 v2 : string) :
  mport_instance_init p = MPORT_OK ->
  match Version.mport_version_cmp v1 v2 with
  | Done r =>
      (r = 0 /\ main_version_t p (Some v1) (Some v2) = Done (Some "="%char, 0)) \/
      (r = -1 /\ main_version_t p (Some v1) (Some v2) = Done (Some "<"%char, 255)) \/
      (r = 1 /\ main_version_t p (Some v1) (Some v2) = Done (Some ">"%char, 1))
  | Undefined => main_version_t p (Some v1) (Some v2) = Undefined
  | Diverges => False
  end.
Proof.
  intros Hi; unfold main_version_t; rewrite Hi; cbn [Z.eqb MPORT_OK negb].
  pose proof (VersionLaws.mport_version_cmp_bytes_sign
                (list_ascii_of_string v1) (list_ascii_of_string v2)) as Hs.
  unfold Version.mport_version_cmp.
  destruct (Version.mport_version_cmp_bytes _ _) as [r| |]; [|reflexivity|exact Hs].
  destruct Hs as [->|[->| ->]]; [right; left|left|right; right]; split; reflexivity.
Qed.

Lemma version_t_status_witness :
  main_version_t willing (Some "1.9") (Some "1.10") = Done (Some "<"%char, 255).
Proof.
  pose proof (version_t_status willing "1.9" "1.10" eq_refl) as H.
  replace (Version.mport_version_cmp "1.9" "1.10") with (@Done Z (-1)) in H
    by (vm_compute; reflexivity).
  destruct H as [[H _]|[[_ H]|[H _]]]; [discriminate|exact H|discriminate].
Defined.

(** *** deleteMany *)

Lemma search_lower_returns (db : tables) (arg : string) :
  exists v, search_lower db arg = Done (MPORT_OK, v).
Proof.
  unfold search_lower; rewrite StoreLaws.search_master_rows; eexists; reflexivity.
Qed.

Lemma count_packages_returns (db : tables) (args : list string) :
  exists n, count_packages db args = Done n.
Proof.
  induction args as [|a args [n IH]]; [exists 0; reflexivity|].
  cbn [count_packages]; destruct (search_lower_returns db a) as [v ->]; rewrite IH.
  cbn [run_bind]; destruct v; eexists; reflexivity.
Qed.

(** X21.  [deleteMany] deletes nothing unless the user confirms: when
    the confirmation callback does not answer MPORT_OK, the function
    returns MPORT_ERR_WARN and the database is as it was, whatever the
    arguments. *)
Theorem deleteMany_needs_confirmation (p : process) (db : tables) (args : list string) :
  confirm_cb p "Proceed with deinstalling packages?" "Delete" "Don't delete" 0
    <> MPORT_OK ->
  deleteMany p db args = Done (db, MPORT_ERR_WARN).
Proof.
  intros Hno; unfold deleteMany.
  destruct (count_packages_returns db args) as [n ->]; cbn [run_bind].
  destruct (n =? 0); [reflexivity|].
  destruct (Z.eqb_spec (confirm_cb p "Proceed with deinstalling packages?" "Delete"
                          "Don't delete" 0) MPORT_OK); [contradiction|reflexivity].
Qed.

Definition refusing : process :=
  mkProcess true MPORT_OK MPORT_OK MPORT_OK MPORT_OK (fun _ _ _ _ => -1).

Lemma deleteMany_needs_confirmation_witness :
  deleteMany refusing StoreLaws.app_db ["app"; "lib"] =
  Done (StoreLaws.app_db, MPORT_ERR_WARN).
Proof.
  apply (deleteMany_needs_confirmation refusing StoreLaws.app_db ["app"; "lib"]).
  discriminate.
Defined.

End CliLaws.

(** ** The mirror selection *)
Module MirrorFacts.
Import Version VersionFacts Mirror.
Open Scope string_scope.
Open Scope list_scope.
Open Scope Z_scope.

(** No NUL and no [/]. *)
Definition label (s : list ascii) : bool :=
  forallb (fun c => negb (is_nul c) && negb (Ascii.eqb c "/")) s.

Lemma strchr_label (s r : list ascii) :
  label s = true -> strchr (s ++ "/"%char :: r) "/" = Done (Some (length s)).
Proof.
  unfold label; induction s as [|c s IH]; simpl; [reflexivity|].
  intros H; apply andb_true_iff in H; destruct H as [Hc Hs].
  apply andb_true_iff in Hc; destruct Hc as [Hn Hl].
  apply negb_true_iff in Hn, Hl; rewrite Hn, Hl, (IH Hs); reflexivity.
Qed.

Lemma strchr_label_end (s r : list ascii) :
  label s = true -> strchr (s ++ NUL :: r) "/" = Done None.
Proof.
  unfold label; induction s as [|c s IH]; simpl; [reflexivity|].
  intros H; apply andb_true_iff in H; destruct H as [Hc Hs].
  apply andb_true_iff in Hc; destruct Hc as [Hn Hl].
  apply negb_true_iff in Hn, Hl; rewrite Hn, Hl, (IH Hs); reflexivity.
Qed.

Lemma label_nul_free (s : list ascii) : label s = true -> nul_free s = true.
Proof.
  unfold label, nul_free; apply forallb_weaken.
  intros c H; apply andb_true_iff in H; tauto.
Qed.

Lemma skipn_past (pre r : list ascii) (a b : ascii) :
  skipn (length pre + 2) (pre ++ a :: b :: r) = r.
Proof.
  rewrite skipn_app, skipn_all2 by lia.
  replace (length pre + 2 - length pre)%nat with 2%nat by lia; reflexivity.
Qed.

(** X22.  For a url [scheme://host] or [scheme://host/path] (no [/] in
    the scheme or the host, a host of at most 255 bytes) the name handed to
    [ping] is the host. *)
Theorem hostname_of_url (scheme host path : list ascii) :
  label scheme = true -> label host = true -> (length host <= 255)%nat ->
  hostname (scheme ++ "/"%char :: "/"%char :: host ++ [NUL]) = Done host /\
  hostname (scheme ++ "/"%char :: "/"%char :: host ++ "/"%char :: path ++ [NUL])
    = Done host.
Proof.
  intros Hs Hh Hl; unfold hostname; split.
  - rewrite (strchr_label scheme _ Hs); cbn [run_bind].
    rewrite poke_nul_at_end, skipn_past.
    rewrite (strchr_label_end host [] Hh); cbn [run_bind].
    unfold strlcpy; rewrite (cstr_app_nul host [] (label_nul_free host Hh)).
    rewrite firstn_all2 by (simpl; lia); reflexivity.
  - rewrite (strchr_label scheme _ Hs); cbn [run_bind].
    rewrite poke_nul_at_end, skipn_past.
    rewrite (strchr_label host _ Hh); cbn [run_bind].
    rewrite poke_nul_at_end.
    unfold strlcpy; rewrite (cstr_app_nul host _ (label_nul_free host Hh)).
    rewrite firstn_all2 by (simpl; lia); reflexivity.
Qed.

Lemma hostname_of_url_witness :
  hostname (list_ascii_of_string "https://www.midnightbsd.org/ftp/" ++ [NUL])
  = Done (list_ascii_of_string "www.midnightbsd.org").
Proof.
  destruct (hostname_of_url (list_ascii_of_string "https:")
              (list_ascii_of_string "www.midnightbsd.org")
              (list_ascii_of_string "ftp/") eq_refl eq_refl) as [_ H];
    [simpl; lia|exact H].
Defined.

(** *** The fastest mirror *)

Section Select.

Variable ping : nat -> list ascii -> Z.

(** The [i]-th mirror answered in [rtt] milliseconds. *)
Definition answered (mirrors : list mportMirrorEntry) (first : nat)
  (i : nat) (m : mportMirrorEntry) (rtt : Z) : Prop :=
  (first <= i)%nat /\ nth_error mirrors (i - first) = Some m /\
  exists h, hostname (url m) = Done h /\ ping i h = rtt /\ rtt <> -1.

Lemma try_mirrors_spec (mirrors : list mportMirrorEntry) :
  forall (first : nat) (fastest : Z) (chosen : string) (f : Z) (c : string),
    try_mirrors ping mirrors first fastest chosen = Done (f, c) ->
    f <= fastest /\
    (forall i m rtt, answered mirrors first i m rtt -> f <= rtt) /\
    ((f = fastest /\ c = chosen) \/
     (f < fastest /\ exists i m, answered mirrors first i m f /\ country m = c)).
Proof.
  induction mirrors as [|m rest IH]; intros first fastest chosen f c H.
  - injection H as <- <-; split; [lia|]; split; [|left; auto].
    intros i m rtt (_ & Hn & _); destruct (i - first)%nat; discriminate.
  - cbn [try_mirrors] in H.
    destruct (hostname (url m)) as [hn| |] eqn:Hh; cbn [run_bind] in H; try discriminate.
    assert (Hlift : forall i m' rtt, answered rest (S first) i m' rtt ->
                      answered (m :: rest) first i m' rtt).
    { intros i m' rtt (Hi & Hn & Hx); split; [lia|]; split; [|exact Hx].
      replace (i - first)%nat with (S (i - S first)) by lia; exact Hn. }
    assert (Hhere : forall i m' rtt, answered (m :: rest) first i m' rtt ->
                      (i = first /\ m' = m /\ rtt = ping first hn) \/
                      answered rest (S first) i m' rtt).
    { intros i m' rtt (Hi & Hn & Hx).
      destruct (Nat.eq_dec i first) as [->|Hne].
      - left; rewrite Nat.sub_diag in Hn; injection Hn as <-.
        destruct Hx as (h' & Eh & Ep & _); rewrite Hh in Eh; injection Eh as <-; auto.
      - right; split; [lia|]; split; [|exact Hx].
        replace (i - first)%nat with (S (i - S first)) in Hn by lia; exact Hn. }
    destruct (Z.eqb_spec (ping first hn) (-1)) as [Em|Em]; cbn [negb andb] in H.
    + apply IH in H; destruct H as (Hle & Hmin & Hc).
      split; [exact Hle|]; split.
      * intros i m' rtt Ha; destruct (Hhere _ _ _ Ha) as [(-> & -> & ->)|Ha'];
          [destruct Ha as (_ & _ & h' & Eh & Ep & Hr); rewrite Hh in Eh;
           injection Eh as <-; congruence|eauto].
      * destruct Hc as [Hc|(Hlt & i & m' & Ha & Ec)]; [left; exact Hc|right].
        split; [exact Hlt|]; exists i, m'; auto.
    + destruct (Z.ltb_spec (ping first hn) fastest) as [Hlt|Hge].
      * apply IH in H; destruct H as (Hle & Hmin & Hc).
        split; [lia|]; split.
        -- intros i m' rtt Ha; destruct (Hhere _ _ _ Ha) as [(-> & -> & ->)|Ha'];
             [exact Hle|eauto].
        -- right; destruct Hc as [[-> ->]|(Hlt' & i & m' & Ha & Ec)].
           ++ split; [exact Hlt|]; exists first, m; split; [|reflexivity].
              split; [lia|]; split; [rewrite Nat.sub_diag; reflexivity|].
              exists hn; auto.
           ++ split; [lia|]; exists i, m'; auto.
      * apply IH in H; destruct H as (Hle & Hmin & Hc).
        split; [exact Hle|]; split.
        -- intros i m' rtt Ha; destruct (Hhere _ _ _ Ha) as [(-> & -> & ->)|Ha'];
             [lia|eauto].
        -- destruct Hc as [Hc|(Hlt & i & m' & Ha & Ec)]; [left; exact Hc|right].
           split; [exact Hlt|]; exists i, m'; auto.
Qed.

End Select.

(** X23.  [selectMirror] stores the country of a fastest mirror: when
    it returns, no mirror answered in less time than the chosen one, the
    chosen one answered in less than 1000 ms, and when no mirror did the
    region stored is "us". *)
Theorem selectMirror_chooses_fastest (ping : nat -> list ascii -> Z)
  (mirrors : list mportMirrorEntry) (mport_setting_set : string -> Z)
  (mport_err_code : Z) (chosen : string) (code : Z) :
  selectMirror ping (Some mirrors) mport_setting_set mport_err_code
    = Done (chosen, code) ->
  (chosen = "us" /\
   forall i m rtt, answered ping mirrors 0 i m rtt -> 1000 <= rtt) \/
  (exists i m f,
     answered ping mirrors 0 i m f /\ country m = chosen /\ f < 1000 /\
     forall j m' rtt, answered ping mirrors 0 j m' rtt -> f <= rtt).
Proof.
  unfold selectMirror; intros H.
  destruct (try_mirrors ping mirrors 0 1000 "us") as [[f c]| |] eqn:E;
    cbn [run_bind] in H; try discriminate.
  assert (Hc : c = chosen).
  { destruct (negb (mport_setting_set c =? MPORT_OK)); injection H as <- _; reflexivity. }
  subst c.
  apply try_mirrors_spec in E; destruct E as (Hle & Hmin & Hcase).
  destruct Hcase as [[-> ->]|(Hlt & i & m & Ha & Ec)].
  - left; split; [reflexivity|exact Hmin].
  - right; exists i, m, f; auto.
Qed.

Definition near : mportMirrorEntry :=
  mkMirror "de" (list_ascii_of_string "https://de.example.org/" ++ [NUL]).

Definition far : mportMirrorEntry :=
  mkMirror "jp" (list_ascii_of_string "https://jp.example.org/" ++ [NUL]).

Definition times (i : nat) (h : list ascii) : Z :=
  match i with O => 300 | _ => 40 end.

Lemma selectMirror_chooses_fastest_witness :
  selectMirror times (Some [far; near]) (fun _ => MPORT_OK) 1 = Done ("de", MPORT_OK) /\
  exists i m f, answered times [far; near] 0 i m f /\ country m = "de" /\ f < 1000.
Proof.
  split; [vm_compute; reflexivity|].
  destruct (selectMirror_chooses_fastest times [far; near] (fun _ => MPORT_OK) 1
              "de" MPORT_OK) as [[H _]|(i & m & f & Ha & Ec & Hf & _)];
    [vm_compute; reflexivity|discriminate|].
  exists i, m, f; auto.
Defined.

End MirrorFacts.

(** ** Sample files *)
Module SampleFacts.
Import Version Sample.
Open Scope string_scope.
Open Scope list_scope.
Open Scope Z_scope.

Lemma fill_eq (input : list ascii) (argv : list (list ascii)) :
  fill input argv =
  match strsep input with
  | ([], None) => argv
  | ([], Some rest) => fill rest argv
  | (tok, None) => argv ++ [tok]
  | (tok, Some rest) =>
      if (3 <=? length (argv ++ [tok]))%nat then argv ++ [tok]
      else fill rest (argv ++ [tok])
  end.
Proof.
  funelim (fill input argv).
  all: repeat match goal with
         | H : ?x = _ |- context [match ?x with _ => _ end] => rewrite H
         end; reflexivity.
Qed.

(** Free of blanks and tabs. *)
Definition plain (w : list ascii) : bool := forallb (fun c => negb (is_blank c)) w.

(** Blanks and tabs only. *)
Definition blank (g : list ascii) : bool := forallb is_blank g.

(** A word: not empty, free of blanks and tabs. *)
Definition word (w : list ascii) : bool :=
  match w with [] => false | _ => plain w end.

Lemma strsep_plain (w : list ascii) : plain w = true -> strsep w = (w, None).
Proof.
  induction w as [|c w IH]; simpl; [reflexivity|].
  intros H; apply andb_true_iff in H; destruct H as [Hc Hw].
  apply negb_true_iff in Hc; rewrite Hc, (IH Hw); reflexivity.
Qed.

Lemma strsep_word (w : list ascii) (c : ascii) (r : list ascii) :
  plain w = true -> is_blank c = true -> strsep (w ++ c :: r) = (w, Some r).
Proof.
  intros Hw Hc; induction w as [|x w IH]; simpl; [rewrite Hc; reflexivity|].
  simpl in Hw; apply andb_true_iff in Hw; destruct Hw as [Hx Hw].
  apply negb_true_iff in Hx; rewrite Hx, (IH Hw); reflexivity.
Qed.

Lemma fill_blank (g : list ascii) (argv : list (list ascii)) :
  blank g = true -> fill g argv = argv.
Proof.
  induction g as [|c g IH]; intros H; rewrite fill_eq; simpl; [reflexivity|].
  simpl in H; apply andb_true_iff in H; destruct H as [Hc Hg].
  rewrite Hc; exact (IH Hg).
Qed.

Lemma fill_gap (g s : list ascii) (argv : list (list ascii)) :
  blank g = true -> fill (g ++ s) argv = fill s argv.
Proof.
  induction g as [|c g IH]; intros H; [reflexivity|].
  simpl in H; apply andb_true_iff in H; destruct H as [Hc Hg].
  rewrite fill_eq; simpl; rewrite Hc; exact (IH Hg).
Qed.

Lemma fill_last (w : list ascii) (argv : list (list ascii)) :
  word w = true -> fill w argv = argv ++ [w].
Proof.
  intros H; rewrite fill_eq; destruct w as [|c w]; [discriminate|].
  rewrite (strsep_plain _ H); reflexivity.
Qed.

Lemma fill_word (w : list ascii) (c : ascii) (r : list ascii)
  (argv : list (list ascii)) :
  word w = true -> is_blank c = true ->
  fill (w ++ c :: r) argv =
  if (3 <=? length (argv ++ [w]))%nat then argv ++ [w] else fill r (argv ++ [w]).
Proof.
  intros H Hc; rewrite fill_eq; destruct w as [|x w]; [discriminate|].
  rewrite (strsep_word _ c r H Hc); reflexivity.
Qed.

(** The text after the first word: each further word behind a gap that
    is not empty. *)
Definition further (items : list (list ascii * list ascii)) : list ascii :=
  concat (map (fun i => fst i ++ snd i) items).

Definition gap_and_word (i : list ascii * list ascii) : bool :=
  match fst i with [] => false | _ => blank (fst i) end && word (snd i).

Lemma fill_line (items : list (list ascii * list ascii)) :
  forall (w0 tail : list ascii) (argv : list (list ascii)),
    word w0 = true -> forallb gap_and_word items = true -> blank tail = true ->
    (length argv < 3)%nat ->
    fill (w0 ++ further items ++ tail) argv
    = argv ++ firstn (3 - length argv) (w0 :: map snd items).
Proof.
  induction items as [|[g w] items IH]; intros w0 tail argv H0 Hi Ht Hl.
  - cbn [further map concat app]; destruct tail as [|c t].
    + rewrite app_nil_r, (fill_last _ _ H0).
      destruct (3 - length argv)%nat eqn:E; [lia|]; cbn [firstn map].
      rewrite firstn_nil; reflexivity.
    + simpl in Ht; apply andb_true_iff in Ht; destruct Ht as [Hc Ht].
      rewrite (fill_word _ _ _ _ H0 Hc), (fill_blank _ _ Ht).
      destruct (3 - length argv)%nat eqn:E; [lia|]; cbn [firstn map].
      rewrite firstn_nil; destruct (3 <=? _)%nat; reflexivity.
  - cbn [forallb] in Hi; apply andb_true_iff in Hi; destruct Hi as [Hgw Hi].
    unfold gap_and_word in Hgw; cbn [fst snd] in Hgw.
    apply andb_true_iff in Hgw; destruct Hgw as [Hg Hw].
    destruct g as [|c g]; [discriminate|].
    simpl in Hg; apply andb_true_iff in Hg; destruct Hg as [Hc Hg].
    unfold further; cbn [map concat fst snd]; fold (further items).
    replace (w0 ++ (((c :: g) ++ w) ++ further items) ++ tail)
      with (w0 ++ c :: (g ++ w ++ further items ++ tail))
      by (rewrite <- !app_assoc; reflexivity).
    rewrite (fill_word _ _ _ _ H0 Hc), length_app; cbn [length map].
    destruct (Nat.leb_spec 3 (length argv + 1)) as [L|L].
    + replace (3 - length argv)%nat with 1%nat by lia; reflexivity.
    + rewrite (fill_gap _ _ _ Hg), (IH w tail (argv ++ [w0]) Hw Hi Ht)
        by (rewrite length_app; simpl; lia).
      rewrite length_app; cbn [length].
      replace (3 - length argv)%nat with (S (3 - (length argv + 1))) by lia.
      cbn [firstn]; rewrite <- app_assoc; reflexivity.
Qed.

(** X24.  [parse_sample] returns the first three words of its input:
    the words are the runs free of blanks and tabs, however many blanks and
    tabs lie before, between and after them; an input of blanks and tabs only
    has none. *)
Theorem parse_sample_first_three_words
  (g0 w0 : list ascii) (items : list (list ascii * list ascii)) (tail : list ascii) :
  blank g0 = true -> word w0 = true -> forallb gap_and_word items = true ->
  blank tail = true ->
  parse_sample true (g0 ++ w0 ++ further items ++ tail)
    = Some (firstn 3 (w0 :: map snd items)) /\
  parse_sample true g0 = Some [].
Proof.
  intros Hg H0 Hi Ht; unfold parse_sample; split.
  - rewrite (fill_gap _ _ _ Hg), (fill_line items w0 tail [] H0 Hi Ht) by (simpl; lia).
    reflexivity.
  - rewrite (fill_blank _ _ Hg); reflexivity.
Qed.

Lemma parse_sample_first_three_words_witness :
  parse_sample true (list_ascii_of_string " a.sample  b c d ")
  = Some (map list_ascii_of_string ["a.sample"; "b"; "c"]).
Proof.
  exact (proj1 (parse_sample_first_three_words
                  (list_ascii_of_string " ") (list_ascii_of_string "a.sample")
                  [(list_ascii_of_string "  ", list_ascii_of_string "b");
                   (list_ascii_of_string " ", list_ascii_of_string "c");
                   (list_ascii_of_string " ", list_ascii_of_string "d")]
                  (list_ascii_of_string " ") eq_refl eq_refl eq_refl eq_refl)).
Defined.

Section Host.

Variable root : list ascii.
Variable mport_file_exists : list ascii -> bool.
Variable mport_copy_file : list ascii -> list ascii -> Z.
Variable mport_err_code : Z.

(** Where a name of the packing list lies: as it is when it starts with a
    slash, under the root and the current directory otherwise. *)
Definition place (cwd x : list ascii) : list ascii :=
  if starts_with_slash x then x else root ++ cwd ++ "/"%char :: x.

(** What a copy attempted only when the target is missing leaves. *)
Definition copied_if_missing (from to : list ascii)
  : option (list ascii * list ascii) * Z :=
  if mport_file_exists to then (None, MPORT_OK)
  else (Some (from, to),
        if mport_copy_file from to =? MPORT_OK then MPORT_OK else mport_err_code).

Lemma plain_app (a b : list ascii) : plain (a ++ b) = plain a && plain b.
Proof. apply forallb_app. Qed.

Lemma word_plain (w : list ascii) : word w = true -> plain w = true.
Proof. destruct w; [discriminate|exact (fun H => H)]. Qed.

Lemma place_word (cwd x : list ascii) :
  plain root = true -> plain cwd = true -> word x = true ->
  word (place cwd x) = true.
Proof.
  intros Hr Hc Hx; unfold place; destruct (starts_with_slash x); [exact Hx|].
  assert (P : plain (root ++ cwd ++ "/"%char :: x) = true).
  { rewrite !plain_app, Hr, Hc; simpl; exact (word_plain _ Hx). }
  destruct (root ++ cwd ++ "/"%char :: x) eqn:E; [|exact P].
  apply app_eq_nil in E; destruct E as [_ E].
  apply app_eq_nil in E; destruct E as [_ E]; discriminate.
Qed.

Lemma place_length (cwd x : list ascii) :
  (length (place cwd x) <= length (root ++ cwd ++ "/"%char :: x))%nat.
Proof.
  unfold place; destruct (starts_with_slash x); [|lia].
  rewrite !length_app; simpl; lia.
Qed.

Lemma bounded_fits (size : nat) (s : list ascii) :
  (length s <= pred size)%nat -> bounded size s = s.
Proof. intros H; unfold bounded; apply firstn_all2; exact H. Qed.

Lemma starts_with_slash_app (a b : list ascii) :
  a <> [] -> starts_with_slash (a ++ b) = starts_with_slash a.
Proof. destruct a; [congruence|reflexivity]. Qed.

(** The buffer [nonSample] before [parse_sample] cuts it. *)
Lemma buffer_of_entry (cwd file : list ascii) :
  (length (root ++ cwd ++ "/"%char :: file) <= 1023)%nat ->
  (if negb (starts_with_slash file)
   then bounded FILENAME_MAX (root ++ cwd ++ "/"%char :: file)
   else bounded (FILENAME_MAX * 2) file) = place cwd file.
Proof.
  intros L; unfold place; destruct (starts_with_slash file); cbn [negb].
  - apply bounded_fits; rewrite !length_app in L; simpl in *; lia.
  - apply bounded_fits; simpl; lia.
Qed.

(** X25.  An entry of two names, [a] then [b], copies the installed
    [a] to [b], each taken under the root and the current directory unless
    it starts with a slash, and only when [b] does not exist yet: an existing
    [b] is never overwritten. *)
Theorem create_sample_file_two_names (cwd a b : list ascii) (sep : ascii) :
  plain root = true -> plain cwd = true -> word a = true -> word b = true ->
  is_blank sep = true ->
  (length (root ++ cwd ++ "/"%char :: a ++ sep :: b) <= 1023)%nat ->
  create_sample_file root mport_file_exists mport_copy_file mport_err_code true
    cwd (a ++ sep :: b)
  = Done (copied_if_missing (place cwd a) (place cwd b)).
Proof.
  intros Hr Hc Ha Hb Hs L.
  assert (Na : a <> []) by (destruct a; [discriminate|congruence]).
  unfold create_sample_file.
  rewrite (buffer_of_entry cwd (a ++ sep :: b) L).
  assert (E : place cwd (a ++ sep :: b) = place cwd a ++ sep :: b).
  { unfold place; rewrite (starts_with_slash_app a _ Na).
    destruct (starts_with_slash a); [reflexivity|].
    rewrite <- !app_assoc; reflexivity. }
  rewrite E; unfold parse_sample.
  pose proof (place_word cwd a Hr Hc Ha) as Wa.
  rewrite (fill_word _ _ _ _ Wa Hs); cbn [app length Nat.leb].
  rewrite (fill_last _ _ Hb); cbn [app nth_error nth].
  assert (Lb : (length (root ++ cwd ++ "/"%char :: b) <= 1023)%nat).
  { rewrite !length_app in *; simpl in *; rewrite length_app in L; simpl in L; lia. }
  assert (Pb : (if starts_with_slash b then bounded FILENAME_MAX b
                else bounded FILENAME_MAX (root ++ cwd ++ "/"%char :: b))
               = place cwd b).
  { unfold place; destruct (starts_with_slash b); apply bounded_fits; simpl;
      [rewrite !length_app in Lb; simpl in Lb; lia|exact Lb]. }
  rewrite Pb; unfold copied_if_missing.
  destruct (mport_file_exists (place cwd b)); cbn [negb]; [reflexivity|].
  destruct (mport_copy_file (place cwd a) (place cwd b) =? MPORT_OK); reflexivity.
Qed.

Lemma strcasestr_first (find : list ascii) (n : nat) :
  forall s : list ascii,
    (forall i, (i < n)%nat -> matches find (skipn i s) = false) ->
    matches find (skipn n s) = true ->
    strcasestr s find = Some n.
Proof.
  induction n as [|n IH]; intros s Hbefore Hat.
  - destruct s; simpl in *; rewrite Hat; reflexivity.
  - pose proof (Hbefore O ltac:(lia)) as H0; cbn [skipn] in H0.
    destruct s as [|c s].
    + simpl in Hat; congruence.
    + cbn [strcasestr]; rewrite H0, (IH s); [reflexivity| |exact Hat].
      intros i Hi; exact (Hbefore (S i) ltac:(lia)).
Qed.

(** X26.  An entry of one name [stem ++ suffix], where [suffix] is the
    first [.sample] of the placed name in any case of letters: the copy goes
    to the placed name cut before that suffix, only when nothing exists
    there, and its source is the entry as the packing list has it, not the
    placed name. *)
Theorem create_sample_file_one_name (cwd stem suffix rest : list ascii) :
  plain root = true -> plain cwd = true ->
  word (stem ++ suffix ++ rest) = true -> stem <> [] ->
  (length (root ++ cwd ++ "/"%char :: stem ++ suffix ++ rest) <= 1023)%nat ->
  matches (list_ascii_of_string ".sample") (suffix ++ rest) = true ->
  (forall i, (i < length (place cwd stem))%nat ->
     matches (list_ascii_of_string ".sample")
       (skipn i (place cwd stem ++ suffix ++ rest)) = false) ->
  create_sample_file root mport_file_exists mport_copy_file mport_err_code true
    cwd (stem ++ suffix ++ rest)
  = Done (copied_if_missing (stem ++ suffix ++ rest) (place cwd stem)).
Proof.
  intros Hr Hc Hw Ns L Hat Hbefore.
  unfold create_sample_file.
  rewrite (buffer_of_entry cwd _ L).
  assert (E : place cwd (stem ++ suffix ++ rest) = place cwd stem ++ suffix ++ rest).
  { unfold place; rewrite (starts_with_slash_app stem _ Ns).
    destruct (starts_with_slash stem); [reflexivity|].
    rewrite <- !app_assoc; reflexivity. }
  pose proof (place_word cwd _ Hr Hc Hw) as W.
  unfold parse_sample; rewrite (fill_last _ _ W); cbn [app nth_error].
  rewrite (strsep_plain _ (word_plain _ W)); cbn [fst].
  rewrite E, (strcasestr_first _ (length (place cwd stem)));
    [|exact Hbefore|rewrite skipn_app, skipn_all, Nat.sub_diag; exact Hat].
  rewrite firstn_app, firstn_all, Nat.sub_diag; cbn [firstn]; rewrite app_nil_r.
  unfold copied_if_missing.
  destruct (mport_file_exists (place cwd stem)); cbn [negb]; [reflexivity|].
  destruct (mport_copy_file _ _ =? MPORT_OK); reflexivity.
Qed.

End Host.

Lemma create_sample_file_two_names_witness :
  create_sample_file (list_ascii_of_string "/r") (fun _ => false) (fun _ _ => 0) 1 true
    (list_ascii_of_string "/usr/local")
    (list_ascii_of_string "etc/a.conf.sample etc/a.conf")
  = Done (Some (list_ascii_of_string "/r/usr/local/etc/a.conf.sample",
                list_ascii_of_string "/r/usr/local/etc/a.conf"), MPORT_OK).
Proof.
  exact (create_sample_file_two_names (list_ascii_of_string "/r") (fun _ => false)
           (fun _ _ => 0) 1 (list_ascii_of_string "/usr/local")
           (list_ascii_of_string "etc/a.conf.sample")
           (list_ascii_of_string "etc/a.conf") " "%char
           eq_refl eq_refl eq_refl eq_refl eq_refl
           ltac:(simpl; lia)).
Defined.

Lemma create_sample_file_one_name_witness :
  create_sample_file (list_ascii_of_string "/r") (fun _ => false) (fun _ _ => 0) 1 true
    (list_ascii_of_string "/l") (list_ascii_of_string "a.SAMPLE")
  = Done (Some (list_ascii_of_string "a.SAMPLE", list_ascii_of_string "/r/l/a"),
          MPORT_OK).
Proof.
  refine (create_sample_file_one_name (list_ascii_of_string "/r") (fun _ => false)
            (fun _ _ => 0) 1 (list_ascii_of_string "/l")
            (list_ascii_of_string "a") (list_ascii_of_string ".SAMPLE") []
            eq_refl eq_refl eq_refl _ _ eq_refl _).
  - discriminate.
  - simpl; lia.
  - intros i Hi; do 6 (destruct i as [|i]; [reflexivity|]).
    vm_compute in Hi; lia.
Defined.

End SampleFacts.

(** ** Listing the installed packages *)
Module ListPrintFacts.
Import Version Store ListPrint.
Open Scope string_scope.
Open Scope list_scope.
Open Scope Z_scope.

Lemma compare_lt_trans (a b c : string) :
  String.compare a b = Lt -> String.compare b c = Lt -> String.compare a c = Lt.
Proof.
  intros H1 H2; apply OrderedTypeEx.String_as_OT.cmp_lt.
  apply OrderedTypeEx.String_as_OT.lt_trans with b;
    apply OrderedTypeEx.String_as_OT.cmp_lt; assumption.
Qed.

Lemma leb_trans (a b c : string) :
  String.leb a b = true -> String.leb b c = true -> String.leb a c = true.
Proof.
  unfold String.leb.
  destruct (String.compare a b) eqn:E1; try discriminate;
    destruct (String.compare b c) eqn:E2; try discriminate; intros _ _.
  - apply String.compare_eq_iff in E1, E2; subst.
    destruct (String.compare c c) eqn:E; try reflexivity.
    pose proof (String.compare_antisym c c) as A; rewrite E in A; discriminate.
  - apply String.compare_eq_iff in E1; subst; rewrite E2; reflexivity.
  - apply String.compare_eq_iff in E2; subst; rewrite E1; reflexivity.
  - rewrite (compare_lt_trans _ _ _ E1 E2); reflexivity.
Qed.

Lemma row_le_trans (a b c : mportPackageMeta) :
  row_le a b = true -> row_le b c = true -> row_le a c = true.
Proof.
  unfold row_le.
  destruct (String.compare (name a) (name b)) eqn:E1; try discriminate;
    destruct (String.compare (name b) (name c)) eqn:E2; try discriminate.
  - apply String.compare_eq_iff in E1; rewrite E1, E2; apply leb_trans.
  - apply String.compare_eq_iff in E1; rewrite E1, E2; reflexivity.
  - apply String.compare_eq_iff in E2; rewrite <- E2, E1; reflexivity.
  - rewrite (compare_lt_trans _ _ _ E1 E2); reflexivity.
Qed.

(** Every row of [l] is at or after [x]. *)
Definition from (x : mportPackageMeta) (l : list mportPackageMeta) : Prop :=
  Forall (fun y => row_le x y = true) l.

Lemma insert_sorted_first (x : mportPackageMeta) (l : list mportPackageMeta) :
  from x l -> insert_sorted x l = x :: l.
Proof.
  intros H; destruct l as [|y l]; [reflexivity|].
  simpl; inversion H as [|? ? Hy _]; subst; rewrite Hy; reflexivity.
Qed.

Lemma from_filter (f : mportPackageMeta -> bool) (x : mportPackageMeta)
  (l : list mportPackageMeta) : from x l -> from x (filter f l).
Proof.
  unfold from; rewrite !Forall_forall; intros H y Hy.
  apply filter_In in Hy; apply H; tauto.
Qed.

Lemma filter_insert_sorted (f : mportPackageMeta -> bool) (x : mportPackageMeta)
  (l : list mportPackageMeta) :
  StronglySorted (fun a b => row_le a b = true) l ->
  filter f (insert_sorted x l)
  = if f x then insert_sorted x (filter f l) else filter f l.
Proof.
  induction l as [|y l IH]; intros Hs.
  - simpl; destruct (f x); reflexivity.
  - inversion Hs as [|? ? Hl Hy]; subst.
    cbn [insert_sorted]; destruct (row_le x y) eqn:E.
    + cbn [filter]; destruct (f x) eqn:Fx; [|reflexivity].
      symmetry; apply (insert_sorted_first x (if f y then y :: filter f l else filter f l)).
      assert (Hx : from x l).
      { unfold from; rewrite Forall_forall in *; intros z Hz.
        apply row_le_trans with y; [exact E|apply Hy; exact Hz]. }
      destruct (f y); [constructor; [exact E|]|]; apply from_filter; exact Hx.
    + cbn [filter]; rewrite (IH Hl).
      destruct (f y), (f x); cbn [insert_sorted]; rewrite ?E; reflexivity.
Qed.

Lemma insert_sorted_strongly (x : mportPackageMeta) (l : list mportPackageMeta) :
  StronglySorted (fun a b => row_le a b = true) l ->
  StronglySorted (fun a b => row_le a b = true) (insert_sorted x l).
Proof.
  induction l as [|y l IH]; intros Hs; simpl.
  - repeat constructor.
  - inversion Hs as [|? ? Hl Hy]; subst.
    destruct (row_le x y) eqn:E.
    + constructor; [exact Hs|].
      constructor; [exact E|].
      rewrite Forall_forall in *; intros z Hz.
      apply row_le_trans with y; [exact E|apply Hy; exact Hz].
    + constructor; [apply IH; exact Hl|].
      rewrite Forall_forall in *; intros z Hz.
      apply (Permutation_in _ (StoreLaws.insert_sorted_perm x l)) in Hz.
      destruct Hz as [<-|Hz]; [apply StoreLaws.row_le_total; exact E|apply Hy; exact Hz].
Qed.

Lemma order_by_strongly (l : list mportPackageMeta) :
  StronglySorted (fun a b => row_le a b = true) (order_by_pkg_version l).
Proof.
  unfold order_by_pkg_version; induction l as [|x l IH]; simpl; [constructor|].
  apply insert_sorted_strongly, IH.
Qed.

(** Selecting rows before or after the ORDER BY gives the same rows in
    the same order. *)
Lemma filter_order_by (f : mportPackageMeta -> bool) (l : list mportPackageMeta) :
  filter f (order_by_pkg_version l) = order_by_pkg_version (filter f l).
Proof.
  induction l as [|x l IH]; [reflexivity|].
  change (order_by_pkg_version (x :: l))
    with (insert_sorted x (order_by_pkg_version l)).
  rewrite (filter_insert_sorted f x _ (order_by_strongly l)), IH.
  cbn [filter]; destruct (f x); reflexivity.
Qed.

Lemma list_exact (db : tables) :
  mport_pkgmeta_list db
  = Done (MPORT_OK,
          match packages db with
          | [] => None
          | _ => Some (map StoreFacts.fetched
                         (order_by_pkg_version (map row_pkg (packages db))))
          end).
Proof.
  unfold mport_pkgmeta_list, mport_pkgmeta_count.
  destruct (packages db) as [|r rows] eqn:E; [reflexivity|]; rewrite <- E.
  assert (Hn : (Z.of_nat (length (packages db)) =? 0) = false)
    by (rewrite E; apply Z.eqb_neq; simpl; lia).
  rewrite Hn, <- (length_map row_pkg),
    <- (Permutation_length (StoreLaws.order_by_pkg_version_perm _)).
  apply StoreFacts.populate_columns; lia.
Qed.

Lemma filter_fetched (f : mportPackageMeta -> bool) (l : list mportPackageMeta) :
  (forall m, f (StoreFacts.fetched m) = f m) ->
  filter f (map StoreFacts.fetched l) = map StoreFacts.fetched (filter f l).
Proof.
  intros Hf; induction l as [|m l IH]; [reflexivity|].
  cbn [map filter]; rewrite Hf, IH; destruct (f m); reflexivity.
Qed.

Lemma list_locked_exact (db : tables) :
  mport_pkgmeta_list_locked db
  = Done (MPORT_OK,
          match filter (fun m => locked m =? 1) (map row_pkg (packages db)) with
          | [] => None
          | rows => Some (map StoreFacts.fetched (order_by_pkg_version rows))
          end).
Proof.
  unfold mport_pkgmeta_list_locked, mport_pkgmeta_count.
  rewrite (StoreLaws.length_filter_map row_pkg (fun m => locked m =? 1)).
  destruct (filter _ (map row_pkg (packages db))) as [|m rows] eqn:E; [reflexivity|].
  assert (Hn : (Z.of_nat (length (m :: rows)) =? 0) = false)
    by (apply Z.eqb_neq; simpl; lia).
  rewrite Hn, <- (Permutation_length (StoreLaws.order_by_pkg_version_perm _)).
  apply StoreFacts.populate_columns; lia.
Qed.

Section Print.

Variable verbosity : mportVerbosity.
Variable os_release : mportPackageMeta -> string.
Variable comment : mportPackageMeta -> string.
Variable mport_str_remove : string -> string.
Variable mport_index_lookup_pkgname : string -> Z * option (list mportIndexEntry).
Variable mport_moved_lookup : string -> Z * option (list mportIndexMovedEntry).

(** Without [update] the loop sends the lines of each package in turn and
    returns MPORT_OK. *)
Lemma print_packs_lines (print : mportListPrint) (r : string)
  (packs : list mportPackageMeta) :
  print_update print = false ->
  print_packs verbosity os_release comment mport_str_remove
    mport_index_lookup_pkgname mport_moved_lookup print r packs
  = Done (flat_map (print_line verbosity os_release comment mport_str_remove print)
            packs, MPORT_OK).
Proof.
  intros Hu; induction packs as [|p rest IH]; [reflexivity|].
  cbn [print_packs flat_map]; rewrite Hu, IH; reflexivity.
Qed.

End Print.

Definition name_version (p : mportPackageMeta) : message :=
  NameVersion (name p) (version p).

(** X27.  With only [locks] set, at normal verbosity, the listing is
    the vector of [mport_pkgmeta_list_locked], one name-version line per
    locked package in the order of that query; it returns MPORT_OK unless no
    package at all is installed. *)
Theorem list_print_locks_lists_locked
  (os_release comment : mportPackageMeta -> string)
  (mport_str_remove : string -> string)
  (mport_index_lookup_pkgname : string -> Z * option (list mportIndexEntry))
  (mport_moved_lookup : string -> Z * option (list mportIndexMovedEntry))
  (system_release : string) (db : tables) :
  exists v,
    mport_pkgmeta_list_locked db = Done (MPORT_OK, v) /\
    mport_list_print MPORT_VNORMAL os_release comment mport_str_remove
      (Some system_release) mport_index_lookup_pkgname mport_moved_lookup
      db (mkListPrint false false false true false)
    = Done (map name_version (match v with Some l => l | None => [] end),
            match packages db with [] => MPORT_ERR_WARN | _ => MPORT_OK end).
Proof.
  eexists; split; [apply list_locked_exact|].
  unfold mport_list_print; rewrite list_exact; cbn [run_bind].
  destruct (packages db) as [|row rows] eqn:E.
  - reflexivity.
  - rewrite <- E; change (negb (MPORT_OK =? MPORT_OK)) with false; cbv iota.
    rewrite print_packs_lines by reflexivity.
    f_equal; f_equal.
    set (all := map row_pkg (packages db)).
    assert (H : forall l,
               flat_map (print_line MPORT_VNORMAL os_release comment mport_str_remove
                           (mkListPrint false false false true false)) l
               = map name_version (filter (fun m => locked m =? 1) l)).
    { induction l as [|p l IH]; [reflexivity|].
      cbn [flat_map filter]; rewrite IH.
      unfold print_line; cbn.
      destruct (locked p =? 1); reflexivity. }
    rewrite H, (filter_fetched (fun m => locked m =? 1)) by reflexivity.
    rewrite filter_order_by.
    destruct (filter (fun m => locked m =? 1) all); reflexivity.
Qed.

(** X28.  With only [prime] set, at normal verbosity, every installed
    package gets one line: its name when it was installed explicitly, and
    its name-version when it was installed automatically; no package is left
    out. *)
Theorem list_print_prime_lists_automatic
  (os_release comment : mportPackageMeta -> string)
  (mport_str_remove : string -> string)
  (mport_index_lookup_pkgname : string -> Z * option (list mportIndexEntry))
  (mport_moved_lookup : string -> Z * option (list mportIndexMovedEntry))
  (system_release : string) (db : tables) :
  exists lines code,
    mport_list_print MPORT_VNORMAL os_release comment mport_str_remove
      (Some system_release) mport_index_lookup_pkgname mport_moved_lookup
      db (mkListPrint false false false false true)
    = Done (lines, code) /\
    length lines = length (packages db) /\
    forall row, In row (packages db) ->
      In (if automatic (row_pkg row) =? 0 then Plain (name (row_pkg row))
          else name_version (row_pkg row)) lines.
Proof.
  unfold mport_list_print; rewrite list_exact; cbn [run_bind].
  destruct (packages db) as [|row0 rows] eqn:E.
  - exists [], MPORT_ERR_WARN; split; [reflexivity|]; split; [reflexivity|].
    intros row [].
  - rewrite <- E; change (negb (MPORT_OK =? MPORT_OK)) with false; cbv iota.
    rewrite print_packs_lines by reflexivity.
    set (line := fun p => if automatic p =? 0 then Plain (name p) else name_version p).
    assert (H : forall l,
               flat_map (print_line MPORT_VNORMAL os_release comment mport_str_remove
                           (mkListPrint false false false false true)) l
               = map line l).
    { induction l as [|p l IH]; [reflexivity|].
      cbn [flat_map map]; rewrite IH.
      unfold print_line, line; cbn.
      destruct (automatic p =? 0); reflexivity. }
    rewrite H; eexists; eexists; split; [reflexivity|].
    pose proof (StoreLaws.order_by_pkg_version_perm (map row_pkg (packages db))) as Hp.
    split.
    + rewrite !length_map, (Permutation_length Hp), length_map; reflexivity.
    + intros row Hin.
      change (In (line (StoreFacts.fetched (row_pkg row)))
                (map line (map StoreFacts.fetched
                             (order_by_pkg_version (map row_pkg (packages db)))))).
      apply in_map, in_map, (Permutation_in _ (Permutation_sym Hp)), in_map; exact Hin.
Qed.

End ListPrintFacts.
